(** * homebridge-pushbot: the BLE push-button controller

  A shallow embedding of the two variants of the plugin,
  [src/index.js] (module [IndexJs]) and [src/unnamed/part_000]
  (module [Part000], the variant with the notify/heartbeat path),
  and the properties of the connection lifecycle, the activation
  handler and the registry that hold of them.

  JavaScript strings are modelled as [string] (texts of the
  configuration and of the adapter are ASCII), byte buffers as
  [list byte], [async] functions as resumptions ([Prog]) whose
  suspension points are the [await]s of the source. *)

From Stdlib Require Import List String Ascii Bool Arith NArith ZArith Lia.
From Stdlib.Strings Require Import Byte.
Import ListNotations.
Local Open Scope string_scope.
Local Open Scope list_scope.

Set Implicit Arguments.

(* ================================================================= *)
(** ** Texts: case mapping and the two regular-expression replaces *)

Module Text.

Definition code (c : ascii) : N := N_of_ascii c.

Definition between (lo hi : N) (c : ascii) : bool :=
  (lo <=? code c)%N && (code c <=? hi)%N.

Definition is_digit : ascii -> bool := between 48 57.      (* 0-9 *)
Definition is_upper : ascii -> bool := between 65 90.      (* A-Z *)
Definition is_lower : ascii -> bool := between 97 122.     (* a-z *)
Definition is_lower_af : ascii -> bool := between 97 102.  (* a-f *)
Definition is_upper_af : ascii -> bool := between 65 70.   (* A-F *)

Definition lower_char (c : ascii) : ascii :=
  if is_upper c then ascii_of_N (code c + 32) else c.

Definition upper_char (c : ascii) : ascii :=
  if is_lower c then ascii_of_N (code c - 32) else c.

Fixpoint map (f : ascii -> ascii) (s : string) : string :=
  match s with
  | EmptyString => EmptyString
  | String c s' => String (f c) (map f s')
  end.

Fixpoint filter (keep : ascii -> bool) (s : string) : string :=
  match s with
  | EmptyString => EmptyString
  | String c s' => if keep c then String c (filter keep s') else filter keep s'
  end.

(** [s.toLowerCase()] and [s.toUpperCase()] *)
Definition toLowerCase : string -> string := map lower_char.
Definition toUpperCase : string -> string := map upper_char.

(** the character class [[0-9a-f]] *)
Definition in_0_9a_f (c : ascii) : bool := is_digit c || is_lower_af c.

(** [s.replace(/[^0-9a-f]/g, '')] *)
Definition strip_non_hex : string -> string := filter in_0_9a_f.

(** [s.replace(/:/g, '')] *)
Definition strip_colons : string -> string :=
  filter (fun c => negb (Ascii.eqb c ":")).

(** [x || ''] for a text that may be absent *)
Definition or_empty (x : option string) : string :=
  match x with Some s => s | None => EmptyString end.

End Text.

(* ================================================================= *)
(** ** Hardware addresses *)

Module Mac.
Import Text.

(** constructor:
    [this.macAddress = (config.mac_address || '').toLowerCase().replace(/[^0-9a-f]/g, '')] *)
Definition normalize (mac_address : option string) : string :=
  strip_non_hex (toLowerCase (or_empty mac_address)).

(** startScanningLoop:
    [addr.toUpperCase().replace(/:/g, '') === this.macAddress.toUpperCase()] *)
Definition matches (addr macAddress : string) : bool :=
  String.eqb (strip_colons (toUpperCase addr)) (toUpperCase macAddress).

(** The sixteen hexadecimal digits, in lower or upper case. *)
Definition digit_char (upper : bool) (d : nat) : ascii :=
  match d with
  | 0 => "0" | 1 => "1" | 2 => "2" | 3 => "3" | 4 => "4"
  | 5 => "5" | 6 => "6" | 7 => "7" | 8 => "8" | 9 => "9"
  | 10 => if upper then "A" else "a"
  | 11 => if upper then "B" else "b"
  | 12 => if upper then "C" else "c"
  | 13 => if upper then "D" else "d"
  | 14 => if upper then "E" else "e"
  | _ => if upper then "F" else "f"
  end%char.

(** A character that is no hexadecimal digit in either case: what a
    textual address may carry between its digits. *)
Definition is_punct (c : ascii) : bool := negb (in_0_9a_f (lower_char c)).

Definition is_colon (c : ascii) : bool := Ascii.eqb c ":".

(** [Repr sep ds s]: the text [s] writes the digit sequence [ds], each
    digit in either case, with separator characters taken from [sep]
    anywhere between, before or after the digits. *)
Inductive Repr (sep : ascii -> bool) : list nat -> string -> Prop :=
| Repr_nil : Repr sep [] EmptyString
| Repr_sep c ds s :
    sep c = true -> Repr sep ds s -> Repr sep ds (String c s)
| Repr_digit up d ds s :
    d < 16 -> Repr sep ds s -> Repr sep (d :: ds) (String (digit_char up d) s).

(** The canonical upper-case text of a digit sequence. *)
Fixpoint canon (ds : list nat) : string :=
  match ds with
  | [] => EmptyString
  | d :: ds' => String (digit_char true d) (canon ds')
  end.

End Mac.

(* ================================================================= *)
(** ** Hex decoding of the push packet *)

Module Hex.
Import Text.

Definition digit_val (c : ascii) : option N :=
  if is_digit c then Some (code c - 48)%N
  else if is_lower_af c then Some (code c - 87)%N
  else if is_upper_af c then Some (code c - 55)%N
  else None.

Definition byte_of_nibbles (hi lo : N) : byte :=
  byte_of_ascii (ascii_of_N (16 * hi + lo)).

(** [Buffer.from(s, 'hex')]: two digits per byte; decoding stops at the
    first pair that is not two hexadecimal digits, and a trailing single
    character is dropped. *)
Fixpoint decode (s : string) : list byte :=
  match s with
  | String a (String b rest) =>
      match digit_val a, digit_val b with
      | Some hi, Some lo => byte_of_nibbles hi lo :: decode rest
      | _, _ => []
      end
  | _ => []
  end.

End Hex.

(* ================================================================= *)
(** ** The runtime: adapter calls, timers, the controller's fields *)

(** The constants of the source ([CONFIG]); the reconnect delay is the
    one constant on which the two files differ. *)
Module CONFIG.
Definition SCAN_DURATION_MS : Z := 4000.
Definition HEART_BEAT_INTERVAL_MS : Z := 15000.
Definition GATT_WAIT_MS : Z := 2000.
Definition WRITE_RETRY_COUNT : nat := 3.
Definition AUTO_OFF_MS : Z := 1500.
End CONFIG.

(** What a [throw] or a rejected promise carries. *)
Inductive Err : Type :=
| TypeError (what : string)      (* a property read or call on undefined/null *)
| AdapterError (message : string).

Inductive Result (A : Type) : Type :=
| Ok (a : A)
| Thrown (e : Err).
Arguments Ok {A} a.
Arguments Thrown {A} e.

(** Values a settled promise of the adapter carries: nothing, an object
    (device, GATT server, service or characteristic, named by a number) or
    the list of discovered addresses. *)
Inductive Value : Type :=
| VUnit
| VObj (id : nat)
| VAddrs (addrs : list string).

Inductive Reply : Type :=
| Resolved (v : Value)
| Rejected (e : Err).

(** node-ble's [writeValue] option [type]: ['command'] is a write without
    response, ['request'] a write with response. *)
Inductive WriteType : Type := command | request.

Definition acknowledged (t : WriteType) : bool :=
  match t with request => true | command => false end.

(** The asynchronous calls of the BLE transport the source awaits. *)
Inductive Call : Type :=
| DefaultAdapter
| StopDiscovery
| StartDiscovery
| Devices
| GetDevice (addr : string)
| Connect (device : nat)
| Gatt (device : nat)
| GetPrimaryService (gatt : nat) (uuid : string)
| GetCharacteristic (service : nat) (uuid : string)
| StartNotifications (characteristic : nat)
| ReadValue (characteristic : nat)
| WriteValue (characteristic : nat) (data : list byte) (type : WriteType).

(** The two closures the source hands to [setTimeout]. *)
Inductive Callback : Type :=
| HostOff    (* () => switchService.updateCharacteristic(On, false) *)
| AutoOff.   (* () => { this.isSwitchOn = false; switchService.updateCharacteristic(On, false) } *)

Inductive Level : Type := info | warn | error | debug.

(** The log lines of the two files, by what they report. *)
Inductive Msg : Type :=
| Registering (name : option string)
| InitFailed (e : Err)
| Scanning
| ScanError (e : Err)
| Connecting
| Ready
| ConnectionLost
| ConnectFailed (e : Err)
| NotConnected
| Reconnecting
| SendStart
| Preparing (packet_hex : string)
| SendFailed (attempt : nat)
| SendRetry (attempt : nat) (e : Err)
| SendOk
| SendError (e : Err)
| ControlFailed (e : Err)
| HeartbeatOn
| HeartbeatSkipped.

(** What an observer of the controller sees, in order. *)
Inductive Event : Type :=
| Logged (l : Level) (m : Msg)
| Called (c : Call) (r : Reply)
| Slept (ms : Z)
| TimeoutSet (ms : Z) (cb : Callback)
| HostUpdate (on : bool)           (* switchService.updateCharacteristic(On, on) *)
| ListenerAdded (device : nat)     (* device.once('disconnect', ...) *)
| IntervalSet (id : nat)
| IntervalCleared (id : nat).

(** The fields the constructor fixes. [index.js] has no [notifyUuid]. *)
Record Accessory : Type := {
  name : string;
  macAddress : string;
  serviceUuid : string;
  writeUuid : string;
  notifyUuid : string;
  pushCommand : list byte;
  packetHex : string
}.

(** The mutable fields of [this] (first six; [undefined] and [null] are
    both [None]) and the part of the runtime they interact with: the
    devices carrying a pending one-shot ['disconnect'] listener, the
    pending timeouts, the running intervals, and the trace of effects. *)
Record State : Type := {
  isConnected : bool;
  isSwitchOn : bool;
  writeChar : option nat;
  notifyChar : option nat;
  heartbeatTimer : option nat;
  device : option nat;
  listeners : list nat;
  timeouts : list (Z * Callback);
  intervals : list nat;
  nextTimer : nat;
  trace : list Event
}.

Definition set_isConnected (b : bool) (s : State) : State :=
  {| isConnected := b; isSwitchOn := isSwitchOn s; writeChar := writeChar s;
     notifyChar := notifyChar s; heartbeatTimer := heartbeatTimer s;
     device := device s; listeners := listeners s; timeouts := timeouts s;
     intervals := intervals s; nextTimer := nextTimer s; trace := trace s |}.

Definition set_isSwitchOn (b : bool) (s : State) : State :=
  {| isConnected := isConnected s; isSwitchOn := b; writeChar := writeChar s;
     notifyChar := notifyChar s; heartbeatTimer := heartbeatTimer s;
     device := device s; listeners := listeners s; timeouts := timeouts s;
     intervals := intervals s; nextTimer := nextTimer s; trace := trace s |}.

Definition set_writeChar (h : option nat) (s : State) : State :=
  {| isConnected := isConnected s; isSwitchOn := isSwitchOn s; writeChar := h;
     notifyChar := notifyChar s; heartbeatTimer := heartbeatTimer s;
     device := device s; listeners := listeners s; timeouts := timeouts s;
     intervals := intervals s; nextTimer := nextTimer s; trace := trace s |}.

Definition set_notifyChar (h : option nat) (s : State) : State :=
  {| isConnected := isConnected s; isSwitchOn := isSwitchOn s;
     writeChar := writeChar s; notifyChar := h;
     heartbeatTimer := heartbeatTimer s;
     device := device s; listeners := listeners s; timeouts := timeouts s;
     intervals := intervals s; nextTimer := nextTimer s; trace := trace s |}.

Definition set_device (d : option nat) (s : State) : State :=
  {| isConnected := isConnected s; isSwitchOn := isSwitchOn s;
     writeChar := writeChar s; notifyChar := notifyChar s;
     heartbeatTimer := heartbeatTimer s;
     device := d; listeners := listeners s; timeouts := timeouts s;
     intervals := intervals s; nextTimer := nextTimer s; trace := trace s |}.

Definition set_listeners (l : list nat) (s : State) : State :=
  {| isConnected := isConnected s; isSwitchOn := isSwitchOn s;
     writeChar := writeChar s; notifyChar := notifyChar s;
     heartbeatTimer := heartbeatTimer s;
     device := device s; listeners := l; timeouts := timeouts s;
     intervals := intervals s; nextTimer := nextTimer s; trace := trace s |}.

Definition set_timeouts (l : list (Z * Callback)) (s : State) : State :=
  {| isConnected := isConnected s; isSwitchOn := isSwitchOn s;
     writeChar := writeChar s; notifyChar := notifyChar s;
     heartbeatTimer := heartbeatTimer s;
     device := device s; listeners := listeners s; timeouts := l;
     intervals := intervals s; nextTimer := nextTimer s; trace := trace s |}.

(** [clearInterval(id)] *)
Definition clear_interval (id : nat) (s : State) : State :=
  {| isConnected := isConnected s; isSwitchOn := isSwitchOn s;
     writeChar := writeChar s; notifyChar := notifyChar s;
     heartbeatTimer := heartbeatTimer s;
     device := device s; listeners := listeners s; timeouts := timeouts s;
     intervals := List.filter (fun i => negb (Nat.eqb i id)) (intervals s);
     nextTimer := nextTimer s;
     trace := trace s ++ [IntervalCleared id] |}.

(** [this.heartbeatTimer = setInterval(...)]: a fresh timer starts running. *)
Definition set_interval (s : State) : State :=
  {| isConnected := isConnected s; isSwitchOn := isSwitchOn s;
     writeChar := writeChar s; notifyChar := notifyChar s;
     heartbeatTimer := Some (nextTimer s);
     device := device s; listeners := listeners s; timeouts := timeouts s;
     intervals := nextTimer s :: intervals s;
     nextTimer := S (nextTimer s);
     trace := trace s ++ [IntervalSet (nextTimer s)] |}.

Definition record (e : Event) (s : State) : State :=
  {| isConnected := isConnected s; isSwitchOn := isSwitchOn s;
     writeChar := writeChar s; notifyChar := notifyChar s;
     heartbeatTimer := heartbeatTimer s;
     device := device s; listeners := listeners s; timeouts := timeouts s;
     intervals := intervals s; nextTimer := nextTimer s;
     trace := trace s ++ [e] |}.

(** The state the constructor leaves:
    [isConnected = false], [isSwitchOn = false], [heartbeatTimer = null],
    nothing else assigned, no timer and no listener yet. *)
Definition fresh : State :=
  {| isConnected := false; isSwitchOn := false; writeChar := None;
     notifyChar := None; heartbeatTimer := None; device := None;
     listeners := []; timeouts := []; intervals := []; nextTimer := 0;
     trace := [] |}.

(** Whether the heartbeat interval is running. *)
Definition heartbeat_running (s : State) : bool :=
  match heartbeatTimer s with
  | Some id => existsb (Nat.eqb id) (intervals s)
  | None => false
  end.

(** A timeout fires: its closure runs. *)
Definition fire (cb : Callback) (s : State) : State :=
  match cb with
  | HostOff => record (HostUpdate false) s
  | AutoOff => record (HostUpdate false) (set_isSwitchOn false s)
  end.

(* ================================================================= *)
(** ** [async] functions as resumptions *)

(** A computation runs synchronously ([Get], [Put]) up to a suspension
    point: an awaited adapter call, which the environment later resolves
    or rejects, or an awaited [sleep]. *)
Inductive Prog (A : Type) : Type :=
| Ret (a : A)
| Throw (e : Err)
| Get (k : State -> Prog A)
| Put (s : State) (k : Prog A)
| Await (c : Call) (k : Reply -> Prog A)
| Sleep (ms : Z) (k : Prog A).
Arguments Ret {A} a.
Arguments Throw {A} e.
Arguments Get {A} k.
Arguments Put {A} s k.
Arguments Await {A} c k.
Arguments Sleep {A} ms k.

Fixpoint bind {A B : Type} (p : Prog A) (f : A -> Prog B) : Prog B :=
  match p with
  | Ret a => f a
  | Throw e => Throw e
  | Get k => Get (fun s => bind (k s) f)
  | Put s k => Put s (bind k f)
  | Await c k => Await c (fun r => bind (k r) f)
  | Sleep ms k => Sleep ms (bind k f)
  end.

(** [try { p } catch (e) { h e }] *)
Fixpoint try_catch {A : Type} (p : Prog A) (h : Err -> Prog A) : Prog A :=
  match p with
  | Ret a => Ret a
  | Throw e => h e
  | Get k => Get (fun s => try_catch (k s) h)
  | Put s k => Put s (try_catch k h)
  | Await c k => Await c (fun r => try_catch (k r) h)
  | Sleep ms k => Sleep ms (try_catch k h)
  end.

Declare Scope prog_scope.
Delimit Scope prog_scope with prog.
Bind Scope prog_scope with Prog.
Notation "x <- p ;; q" := (bind p (fun x => q))
  (at level 61, p at next level, right associativity) : prog_scope.
Notation "p ;; q" := (bind p (fun _ => q))
  (at level 61, right associativity) : prog_scope.
Local Open Scope prog_scope.

Definition get : Prog State := Get (fun s => Ret s).
Definition modify (f : State -> State) : Prog unit :=
  Get (fun s => Put (f s) (Ret tt)).

(** [await call]: a rejection is thrown at the [await]. *)
Definition await (c : Call) : Prog Value :=
  Await c (fun r => match r with Resolved v => Ret v | Rejected e => Throw e end).

(** [await sleep(ms)] *)
Definition sleep (ms : Z) : Prog unit := Sleep ms (Ret tt).

Definition log (l : Level) (m : Msg) : Prog unit := modify (record (Logged l m)).

(** [setTimeout(cb, ms)] *)
Definition setTimeout (cb : Callback) (ms : Z) : Prog unit :=
  modify (fun s => record (TimeoutSet ms cb) (set_timeouts (timeouts s ++ [(ms, cb)]) s)).

(** Using a value as an object: a call on [undefined] is a [TypeError]. *)
Definition obj_of (v : Value) : option nat :=
  match v with VObj id => Some id | _ => None end.

Definition deref (what : string) (o : option nat) : Prog nat :=
  match o with Some id => Ret id | None => Throw (TypeError what) end.

(** [this.device.once('disconnect', ...)] *)
Definition once_disconnect : Prog unit :=
  s <- get ;;
  d <- deref "device" (device s) ;;
  modify (fun s => record (ListenerAdded d) (set_listeners (listeners s ++ [d]) s)).

(** [if (this.heartbeatTimer) clearInterval(this.heartbeatTimer)] *)
Definition clear_heartbeat (s : State) : State :=
  match heartbeatTimer s with
  | Some id => clear_interval id s
  | None => s
  end.

(** [startHeartbeat()] of part_000 *)
Definition startHeartbeat : Prog unit :=
  modify clear_heartbeat ;; modify set_interval.

(** The interval's closure of part_000: one best-effort read. *)
Definition heartbeat_tick : Prog unit :=
  s <- get ;;
  match isConnected s, notifyChar s with
  | true, Some h => try_catch (_ <- await (ReadValue h) ;; Ret tt) (fun _ => Ret tt)
  | _, _ => Ret tt
  end.

(* ----------------------------------------------------------------- *)
(** *** Running a resumption *)

Inductive Outcome (A : Type) : Type :=
| Returned (s : State) (a : A) (rest : list Reply)
| Raised (s : State) (e : Err) (rest : list Reply)
| Pending (s : State).       (* an awaited call has not settled *)
Arguments Returned {A} s a rest.
Arguments Raised {A} s e rest.
Arguments Pending {A} s.

Definition final {A : Type} (o : Outcome A) : State :=
  match o with Returned s _ _ => s | Raised s _ _ => s | Pending s => s end.

(** [exec p rs s]: [p] runs from [s] with no other task interleaved; the
    adapter settles the awaited calls with the replies [rs], in order. The
    outcome carries the replies [p] did not consume. *)
Fixpoint exec {A : Type} (p : Prog A) (rs : list Reply) (s : State) : Outcome A :=
  match p with
  | Ret a => Returned s a rs
  | Throw e => Raised s e rs
  | Get k => exec (k s) rs s
  | Put s' k => exec k rs s'
  | Sleep ms k => exec k rs (record (Slept ms) s)
  | Await c k =>
      match rs with
      | [] => Pending s
      | r :: rs' => exec (k r) rs' (record (Called c r) s)
      end
  end.

(** The states another task (or the host's [onGet]) can observe during
    that run: those at the suspension points, and the last one. *)
Fixpoint observable {A : Type} (p : Prog A) (rs : list Reply) (s : State) : list State :=
  match p with
  | Ret _ => [s]
  | Throw _ => [s]
  | Get k => observable (k s) rs s
  | Put s' k => observable k rs s'
  | Sleep ms k => s :: observable k rs (record (Slept ms) s)
  | Await c k =>
      match rs with
      | [] => [s]
      | r :: rs' => s :: observable (k r) rs' (record (Called c r) s)
      end
  end.

(** The synchronous prefix of [p]: run to the next suspension point. *)
Fixpoint advance {A : Type} (p : Prog A) (s : State) : State * Prog A :=
  match p with
  | Get k => advance (k s) s
  | Put s' k => advance k s'
  | _ => (s, p)
  end.

(** A suspended task is resumed: an awaited call settles with [r]. *)
Definition settle {A : Type} (r : Reply) (p : Prog A) (s : State) : option (State * Prog A) :=
  match p with
  | Await c k => Some (advance (k r) (record (Called c r) s))
  | _ => None
  end.

(** A suspended task is resumed: its [sleep] elapses. *)
Definition wake {A : Type} (p : Prog A) (s : State) : option (State * Prog A) :=
  match p with
  | Sleep ms k => Some (advance k (record (Slept ms) s))
  | _ => None
  end.

(** The ['disconnect'] event of device object [d]: every one-shot listener
    registered on [d] runs [body] once and is removed. *)
Definition emit_disconnect (body : State -> State) (d : nat) (s : State) : State :=
  fold_left (fun s' x => if Nat.eqb x d then body s' else s')
            (listeners s)
            (set_listeners (List.filter (fun x => negb (Nat.eqb x d)) (listeners s)) s).

Definition is_some {A : Type} (o : option A) : bool :=
  match o with Some _ => true | None => false end.

(** [!this.isConnected || !this.writeChar] *)
Definition not_ready (s : State) : bool :=
  negb (isConnected s) || negb (is_some (writeChar s)).

(* ================================================================= *)
(** ** The code the two files share, up to a constant or a log line *)

Module Common.

(** [for (let i = 0; i < CONFIG.WRITE_RETRY_COUNT; i++) { try { await
    this.writeChar.writeValue(this.pushCommand, { type }); success = true;
    break; } catch (err) { log.warn(...); await sleep(500); } }]
    with [n] iterations left at index [i]; the result is [success]. *)
Fixpoint write_loop (this : Accessory) (type : WriteType)
         (failed : nat -> Err -> Msg) (n i : nat) : Prog bool :=
  match n with
  | 0 => Ret false
  | S n' =>
      success <- try_catch
        (s <- get ;;
         h <- deref "writeChar" (writeChar s) ;;
         _ <- await (WriteValue h (pushCommand this) type) ;;
         Ret true)
        (fun err => log warn (failed (i + 1) err) ;; sleep 500 ;; Ret false) ;;
      if success then Ret true else write_loop this type failed n' (S i)
  end.

(** [for (const addr of devices) { if (addr.toUpperCase().replace(/:/g, '')
    === this.macAddress.toUpperCase()) { this.device = await
    this.adapter.getDevice(addr); await this.connectDevice(); break; } }] *)
Fixpoint scan_devices (this : Accessory) (connectDevice : Prog unit)
         (devices : list string) : Prog unit :=
  match devices with
  | [] => Ret tt
  | addr :: rest =>
      if Mac.matches addr (macAddress this) then
        d <- await (GetDevice addr) ;;
        modify (set_device (obj_of d)) ;;
        connectDevice
      else scan_devices this connectDevice rest
  end.

Definition iterable (v : Value) : Prog (list string) :=
  match v with
  | VAddrs l => Ret l
  | _ => Throw (TypeError "devices is not iterable")
  end.

(** One turn of the [while (true)] of [startScanningLoop], up to the
    closing [sleep]. *)
Definition scan_turn (this : Accessory) (connectDevice : Prog unit) : Prog unit :=
  s <- get ;;
  if negb (isConnected s) then
    try_catch
      (log info Scanning ;;
       try_catch (_ <- await StopDiscovery ;; Ret tt) (fun _ => Ret tt) ;;
       _ <- await StartDiscovery ;;
       sleep CONFIG.SCAN_DURATION_MS ;;
       _ <- await StopDiscovery ;;
       devices <- await Devices ;;
       addrs <- iterable devices ;;
       scan_devices this connectDevice addrs)
      (fun e => log error (ScanError e))
  else Ret tt.

(** The first [turns] turns of [while (true) { ... await
    sleep(CONFIG.RECONNECT_DELAY_MS); }]. *)
Fixpoint scanning_loop (this : Accessory) (connectDevice : Prog unit)
         (delay : Z) (turns : nat) : Prog unit :=
  match turns with
  | 0 => Ret tt
  | S n =>
      scan_turn this connectDevice ;;
      sleep delay ;;
      scanning_loop this connectDevice delay n
  end.

(** [initNodeBle]: the loop is started, not awaited, inside the [try]; its
    own errors never reach this [catch]. *)
Definition init_ble (loop : Prog unit) : Prog unit :=
  ok <- try_catch (_ <- await DefaultAdapter ;; Ret true)
                  (fun e => log error (InitFailed e) ;; Ret false) ;;
  if ok then loop else Ret tt.

(** [(x).toLowerCase()] on a configuration field that may be absent. *)
Definition lower (field : string) (x : option string) : Result string :=
  match x with
  | Some s => Ok (Text.toLowerCase s)
  | None => Thrown (TypeError field)
  end.

(** [Buffer.from(x, 'hex')]: a [TypeError] on [undefined]. *)
Definition buffer_from_hex (x : option string) : Result (list byte) :=
  match x with
  | Some s => Ok (Hex.decode s)
  | None => Thrown (TypeError "push_packet_hex")
  end.

(** [config.name || 'PushBot'] *)
Definition name_or_default (x : option string) : string :=
  match x with
  | None => "PushBot"
  | Some EmptyString => "PushBot"
  | Some n => n
  end.

End Common.

(** A device entry of the platform configuration; any field may be
    missing from the JSON. *)
Module Config.
Record t : Type := {
  name : option string;
  mac_address : option string;
  service_uuid : option string;
  write_uuid : option string;
  notify_uuid : option string;
  push_packet_hex : option string
}.
End Config.

Definition Controller : Type := (Accessory * State)%type.

(* ================================================================= *)
(** ** src/index.js *)

Module IndexJs.

Definition RECONNECT_DELAY_MS : Z := 15000.

(** [new PushBotAccessory(log, config, platform)] *)
Definition construct (config : Config.t) : Result Controller :=
  match Common.lower "service_uuid" (Config.service_uuid config) with
  | Thrown e => Thrown e
  | Ok service =>
  match Common.lower "write_uuid" (Config.write_uuid config) with
  | Thrown e => Thrown e
  | Ok write =>
  match Common.buffer_from_hex (Config.push_packet_hex config) with
  | Thrown e => Thrown e
  | Ok packet =>
      Ok ({| name := Common.name_or_default (Config.name config);
             macAddress := Mac.normalize (Config.mac_address config);
             serviceUuid := service;
             writeUuid := write;
             notifyUuid := EmptyString;
             pushCommand := packet;
             packetHex := Text.or_empty (Config.push_packet_hex config) |},
          fresh)
  end end end.

(** [discoverDevices()]: the log lines written, the controllers
    constructed, in order, and the error that ended the loop, if any. *)
Fixpoint register (devices : list Config.t)
  : list Event * list Controller * option Err :=
  match devices with
  | [] => ([], [], None)
  | deviceConfig :: rest =>
      let line := Logged info (Registering (Config.name deviceConfig)) in
      match construct deviceConfig with
      | Thrown e => ([line], [], Some e)
      | Ok c =>
          let '(lines, cs, err) := register rest in
          (line :: lines, c :: cs, err)
      end
  end.

(** [if (!this.config.devices || !Array.isArray(this.config.devices)) return;] *)
Definition discoverDevices (devices : option (list Config.t))
  : list Event * list Controller * option Err :=
  match devices with
  | None => ([], [], None)
  | Some l => register l
  end.

(** the listener of [this.device.once('disconnect', ...)] *)
Definition on_disconnect (s : State) : State :=
  set_writeChar None (set_isConnected false (record (Logged warn ConnectionLost) s)).

Definition connectDevice (this : Accessory) : Prog unit :=
  try_catch
    (log info Connecting ;;
     s <- get ;;
     d <- deref "device" (device s) ;;
     _ <- await (Connect d) ;;
     modify (set_isConnected true) ;;
     s <- get ;;
     d <- deref "device" (device s) ;;
     gatt <- await (Gatt d) ;;
     sleep CONFIG.GATT_WAIT_MS ;;
     g <- deref "gatt" (obj_of gatt) ;;
     service <- await (GetPrimaryService g (serviceUuid this)) ;;
     sv <- deref "service" (obj_of service) ;;
     ch <- await (GetCharacteristic sv (writeUuid this)) ;;
     modify (set_writeChar (obj_of ch)) ;;
     log info Ready ;;
     once_disconnect)
    (fun e =>
       log error (ConnectFailed e) ;;
       modify (set_isConnected false)).

Definition write_loop (this : Accessory) : Prog bool :=
  Common.write_loop this command (fun i _ => SendFailed i)
                    CONFIG.WRITE_RETRY_COUNT 0.

Definition handleSetOn (this : Accessory) (value : bool) : Prog unit :=
  if value then
    s <- get ;;
    if not_ready s then
      log warn NotConnected ;;
      setTimeout HostOff 500
    else
      log info SendStart ;;
      try_catch
        (success <- write_loop this ;;
         if success then
           log info SendOk ;;
           modify (set_isSwitchOn true)
         else Ret tt)
        (fun e => log error (SendError e)) ;;
      setTimeout AutoOff CONFIG.AUTO_OFF_MS
  else Ret tt.

Definition startScanningLoop (this : Accessory) (turns : nat) : Prog unit :=
  Common.scanning_loop this (connectDevice this) RECONNECT_DELAY_MS turns.

Definition initNodeBle (this : Accessory) (turns : nat) : Prog unit :=
  Common.init_ble (startScanningLoop this turns).

End IndexJs.

(* ================================================================= *)
(** ** src/unnamed/part_000: the variant with the heartbeat *)

Module Part000.

Definition RECONNECT_DELAY_MS : Z := 5000.

(** [new PushBotAccessory(log, config, platform, accessory)] *)
Definition construct (config : Config.t) : Result Controller :=
  match Common.lower "service_uuid" (Config.service_uuid config) with
  | Thrown e => Thrown e
  | Ok service =>
  match Common.lower "write_uuid" (Config.write_uuid config) with
  | Thrown e => Thrown e
  | Ok write =>
  match Common.lower "notify_uuid" (Config.notify_uuid config) with
  | Thrown e => Thrown e
  | Ok notify =>
  match Common.buffer_from_hex (Config.push_packet_hex config) with
  | Thrown e => Thrown e
  | Ok packet =>
      Ok ({| name := Common.name_or_default (Config.name config);
             macAddress := Mac.normalize (Config.mac_address config);
             serviceUuid := service;
             writeUuid := write;
             notifyUuid := notify;
             pushCommand := packet;
             packetHex := Text.or_empty (Config.push_packet_hex config) |},
          fresh)
  end end end end.

(** The calls into the host that surround the construction of one
    controller: [api.hap.uuid.generate] with [new api.platformAccessory]
    before it, [api.registerPlatformAccessories] after it. Each may throw. *)
Record Host : Type := {
  platformAccessory : Config.t -> Result nat;
  registerPlatformAccessories : nat -> Result unit
}.

Fixpoint register (host : Host) (devices : list Config.t)
  : list Event * list Controller * option Err :=
  match devices with
  | [] => ([], [], None)
  | deviceConfig :: rest =>
      let line := Logged info (Registering (Config.name deviceConfig)) in
      match platformAccessory host deviceConfig with
      | Thrown e => ([line], [], Some e)
      | Ok accessory =>
      match construct deviceConfig with
      | Thrown e => ([line], [], Some e)
      | Ok c =>
      match registerPlatformAccessories host accessory with
      | Thrown e => ([line], [c], Some e)
      | Ok _ =>
          let '(lines, cs, err) := register host rest in
          (line :: lines, c :: cs, err)
      end end end
  end.

Definition discoverDevices (host : Host) (devices : option (list Config.t))
  : list Event * list Controller * option Err :=
  match devices with
  | None => ([], [], None)
  | Some l => register host l
  end.

(** the listener of [this.device.once('disconnect', ...)] *)
Definition on_disconnect (s : State) : State :=
  clear_heartbeat
    (set_writeChar None (set_isConnected false (record (Logged warn ConnectionLost) s))).

Definition connectDevice (this : Accessory) : Prog unit :=
  try_catch
    (log info Connecting ;;
     s <- get ;;
     d <- deref "device" (device s) ;;
     _ <- await (Connect d) ;;
     modify (set_isConnected true) ;;
     s <- get ;;
     d <- deref "device" (device s) ;;
     gatt <- await (Gatt d) ;;
     sleep CONFIG.GATT_WAIT_MS ;;
     g <- deref "gatt" (obj_of gatt) ;;
     service <- await (GetPrimaryService g (serviceUuid this)) ;;
     sv <- deref "service" (obj_of service) ;;
     ch <- await (GetCharacteristic sv (writeUuid this)) ;;
     modify (set_writeChar (obj_of ch)) ;;
     try_catch
       (nch <- await (GetCharacteristic sv (notifyUuid this)) ;;
        modify (set_notifyChar (obj_of nch)) ;;
        s <- get ;;
        n <- deref "notifyChar" (notifyChar s) ;;
        _ <- await (StartNotifications n) ;;
        startHeartbeat ;;
        log debug HeartbeatOn)
       (fun _ => log warn HeartbeatSkipped) ;;
     log info Ready ;;
     once_disconnect)
    (fun e =>
       modify (set_isConnected false) ;;
       Throw e).

Definition write_loop (this : Accessory) : Prog bool :=
  Common.write_loop this request (fun i err => SendRetry i err)
                    CONFIG.WRITE_RETRY_COUNT 0.

(** The write stage of [handleSetOn]: from
    [if (this.heartbeatTimer) clearInterval(this.heartbeatTimer)] to
    [this.startHeartbeat()]. *)
Definition push (this : Accessory) : Prog unit :=
  modify clear_heartbeat ;;
  log info (Preparing (packetHex this)) ;;
  sleep 300 ;;
  success <- write_loop this ;;
  (if success then
     log info SendOk ;;
     modify (set_isSwitchOn true)
   else Ret tt) ;;
  startHeartbeat.

Definition handleSetOn (this : Accessory) (value : bool) : Prog unit :=
  if negb value then Ret tt
  else
    try_catch
      (s <- get ;;
       (if not_ready s then
          log info Reconnecting ;;
          connectDevice this
        else Ret tt) ;;
       push this)
      (fun e => log error (ControlFailed e)) ;;
    setTimeout AutoOff CONFIG.AUTO_OFF_MS.

Definition startScanningLoop (this : Accessory) (turns : nat) : Prog unit :=
  Common.scanning_loop this (connectDevice this) RECONNECT_DELAY_MS turns.

Definition initNodeBle (this : Accessory) (turns : nat) : Prog unit :=
  Common.init_ble (startScanningLoop this turns).

End Part000.

(* ================================================================= *)
(** ** The event loop: tasks interleaved at their suspension points *)

(** The shared fields and the tasks in flight, each stopped at an [await]
    (or finished). Task 0 is [initNodeBle] with the scanning loop; the
    others are activations and heartbeat reads. *)
Record System : Type := {
  shared : State;
  tasks : list (Prog unit)
}.

(** What the event loop does next. *)
Inductive Action : Type :=
| Settle (task : nat) (r : Reply)   (* the call [task] awaits settles *)
| Wake (task : nat)                 (* the sleep [task] awaits elapses *)
| Disconnect (device : nat)         (* a device object emits 'disconnect' *)
| Fire (timeout : nat)              (* a pending timeout fires *)
| Tick (interval : nat)             (* a running interval fires *)
| Activate (value : bool).          (* the host sets On: handleSetOn(value) *)

Fixpoint update {A : Type} (i : nat) (x : A) (l : list A) : list A :=
  match l, i with
  | [], _ => []
  | _ :: l', 0 => x :: l'
  | y :: l', S i' => y :: update i' x l'
  end.

Fixpoint drop_nth {A : Type} (i : nat) (l : list A) : list A :=
  match l, i with
  | [], _ => []
  | _ :: l', 0 => l'
  | y :: l', S i' => y :: drop_nth i' l'
  end.

(** A new task runs up to its first suspension point. *)
Definition spawn (p : Prog unit) (sys : System) : System :=
  let (s, p') := advance p (shared sys) in
  {| shared := s; tasks := tasks sys ++ [p'] |}.

Section EventLoop.

Variable handleSetOn : bool -> Prog unit.
Variable on_disconnect : State -> State.

Definition resume (i : nat) (f : Prog unit -> State -> option (State * Prog unit))
           (sys : System) : option System :=
  match nth_error (tasks sys) i with
  | None => None
  | Some p =>
      match f p (shared sys) with
      | None => None
      | Some (s, p') => Some {| shared := s; tasks := update i p' (tasks sys) |}
      end
  end.

Definition step (a : Action) (sys : System) : option System :=
  match a with
  | Settle i r => resume i (settle r) sys
  | Wake i => resume i wake sys
  | Disconnect d =>
      Some {| shared := emit_disconnect on_disconnect d (shared sys);
              tasks := tasks sys |}
  | Fire i =>
      match nth_error (timeouts (shared sys)) i with
      | None => None
      | Some (_, cb) =>
          Some {| shared := fire cb (set_timeouts (drop_nth i (timeouts (shared sys)))
                                                  (shared sys));
                  tasks := tasks sys |}
      end
  | Tick id =>
      if existsb (Nat.eqb id) (intervals (shared sys))
      then Some (spawn heartbeat_tick sys)
      else None
  | Activate value => Some (spawn (handleSetOn value) sys)
  end.

Fixpoint run (acts : list Action) (sys : System) : option System :=
  match acts with
  | [] => Some sys
  | a :: rest =>
      match step a sys with
      | None => None
      | Some sys' => run rest sys'
      end
  end.

End EventLoop.

(** The system a constructor leaves behind: the fresh fields and the task
    [initNodeBle()] started. *)
Definition boot (initNodeBle : Prog unit) : System :=
  spawn initNodeBle {| shared := fresh; tasks := [] |}.

(** The invariant of the connection fields: a write handle only while
    connected. *)
Definition handle_implies_connected (s : State) : Prop :=
  is_some (writeChar s) = true -> isConnected s = true.

(* ================================================================= *)
(** ** Reading the trace *)

Definition is_write (e : Event) : bool :=
  match e with Called (WriteValue _ _ _) _ => true | _ => false end.

(** The settled write attempts a trace records. *)
Definition write_calls (t : list Event) : nat := List.length (List.filter is_write t).

(** Every rejected write is followed by its warning and a 500 ms sleep. *)
Fixpoint backoff_respected (t : list Event) : bool :=
  match t with
  | [] => true
  | Called (WriteValue _ _ _) (Rejected _) :: rest =>
      match rest with
      | Logged warn _ :: Slept ms :: _ => Z.eqb ms 500 && backoff_respected rest
      | _ => false
      end
  | _ :: rest => backoff_respected rest
  end.

(** A connect sequence was entered: its first log line, or its transport
    connect, is on the trace. *)
Definition is_connect_attempt (e : Event) : bool :=
  match e with
  | Logged info Connecting => true
  | Called (Connect _) _ => true
  | _ => false
  end.

Definition is_listener_added (e : Event) : bool :=
  match e with ListenerAdded _ => true | _ => false end.

(** The events a run added to the trace it started from. *)
Definition new_events (s s' : State) : list Event :=
  skipn (List.length (trace s)) (trace s').

(** Settle the successive awaits of a suspended task with [rs]. *)
Fixpoint replay {A : Type} (rs : list Reply) (sp : State * Prog A)
  : option (State * Prog A) :=
  match rs with
  | [] => Some sp
  | r :: rs' =>
      match settle r (snd sp) (fst sp) with
      | None => None
      | Some sp' => replay rs' sp'
      end
  end.


(* ================================================================= *)
(** ** What a task may change: a rely/guarantee reading of a resumption *)

Section Guarantee.

(** [G s s']: a change the task itself may make to the shared fields.
    [R s s']: what the other tasks may have done between the moment the
    task suspended in [s] and the moment it is resumed in [s']. *)
Variable G : State -> State -> Prop.
Variable R : State -> State -> Prop.

(** [wp p Q E s]: from [s], every change [p] makes is a [G]-step, whatever
    the replies and whatever [R]-interference at its suspension points; if
    it returns [a] in [s'] then [Q a s'], if it throws [e] then [E e s']. *)
Fixpoint wp {A : Type} (p : Prog A) (Q : A -> State -> Prop)
         (E : Err -> State -> Prop) (s : State) : Prop :=
  match p with
  | Ret a => Q a s
  | Throw e => E e s
  | Get k => wp (k s) Q E s
  | Put s' k => G s s' /\ wp k Q E s'
  | Await c k =>
      forall r s', R s s' ->
        G s' (record (Called c r) s') /\ wp (k r) Q E (record (Called c r) s')
  | Sleep ms k =>
      forall s', R s s' ->
        G s' (record (Slept ms) s') /\ wp k Q E (record (Slept ms) s')
  end.

End Guarantee.

(** [p] makes [G]-steps only, from any state and whatever it is replied. *)
Definition safe (G R : State -> State -> Prop) {A : Type} (p : Prog A) : Prop :=
  forall s, wp G R p (fun _ _ => True) (fun _ _ => True) s.

(** ... and no exception leaves it. *)
Definition nothrow (G R : State -> State -> Prop) {A : Type} (p : Prog A) : Prop :=
  forall s, wp G R p (fun _ _ => True) (fun _ _ => False) s.

(** A change that leaves the projection [f] of the state alone. *)
Definition keeps {B : Type} (f : State -> B) (s s' : State) : Prop := f s' = f s.

(** The invariant index.js keeps under every interleaving: a write handle
    only while connected, and at most one pending disconnect listener,
    pending only while connected. *)
Definition conn_inv (s : State) : Prop :=
  handle_implies_connected s /\
  (listeners s = [] \/ (isConnected s = true /\ exists d, listeners s = [d])).

(** What the scanning loop of index.js does: anything that keeps
    [conn_inv]. *)
Definition loop_guarantee (_ s' : State) : Prop := conn_inv s'.

(** What the scanning loop of index.js relies on while it is suspended:
    the other tasks keep [conn_inv] and [this.device], and while no
    listener is pending they leave the connection fields alone. *)
Definition loop_rely (s s' : State) : Prop :=
  conn_inv s' /\
  device s' = device s /\
  (listeners s = [] ->
   isConnected s' = isConnected s /\ writeChar s' = writeChar s /\ listeners s' = []).

(** What every other task of index.js does: it leaves the connection
    fields, the listeners and [this.device] alone. *)
Definition passive (s s' : State) : Prop :=
  isConnected s' = isConnected s /\ writeChar s' = writeChar s /\
  listeners s' = listeners s /\ device s' = device s.

(** The scanning loop, suspended since [s0], can go on from the present
    state. *)
Definition loop_task_ok (p : Prog unit) (s : State) : Prop :=
  exists s0, loop_rely s0 s /\
             wp loop_guarantee loop_rely p
                (fun _ s' => conn_inv s') (fun _ s' => conn_inv s') s0.

(** A task that leaves the connection fields alone. *)
Definition passive_task_ok (p : Prog unit) : Prop :=
  exists s0, wp passive (fun _ _ => True) p (fun _ _ => True) (fun _ _ => True) s0.

(** The invariant of the event loop of index.js: task 0 is the scanning
    loop, the others are passive. *)
Definition sys_inv (sys : System) : Prop :=
  conn_inv (shared sys) /\
  exists loop others,
    tasks sys = loop :: others /\
    loop_task_ok loop (shared sys) /\
    Forall passive_task_ok others.

(** A change after which a write handle still implies connected. *)
Definition keeps_handle_inv (_ s' : State) : Prop := handle_implies_connected s'.

(** How many sleeps of [ms] milliseconds a trace records. *)
Definition slept (ms : Z) (t : list Event) : nat :=
  List.length
    (List.filter (fun e => match e with Slept m => Z.eqb m ms | _ => false end) t).

(** A write call, if [e] is one, carries [data] and is of type [type]. *)
Definition carries (data : list byte) (type : WriteType) (e : Event) : Prop :=
  match e with
  | Called (WriteValue _ d t) _ => d = data /\ t = type
  | _ => True
  end.

(** [e] is no write call. *)
Definition not_write (e : Event) : Prop := is_write e = false.

(** [s'] has the trace of [s] and, after it, events that satisfy [P]. *)
Definition appends (P : Event -> Prop) (s s' : State) : Prop :=
  exists l, trace s' = trace s ++ l /\ Forall P l.

(** On a trace, every [ListenerAdded] comes after a resolved
    [getCharacteristic(uuid)]; [resolved] tells whether one was seen. *)
Fixpoint listener_after_resolution (uuid : string) (resolved : bool)
         (t : list Event) : bool :=
  match t with
  | [] => true
  | Called (GetCharacteristic _ u) (Resolved _) :: rest =>
      listener_after_resolution uuid (resolved || String.eqb u uuid) rest
  | ListenerAdded _ :: rest =>
      resolved && listener_after_resolution uuid resolved rest
  | _ :: rest => listener_after_resolution uuid resolved rest
  end.

(** [cs] are the controllers of the entries [entries], in order. *)
Definition controllers_of (construct : Config.t -> Result Controller)
           (entries : list Config.t) (cs : list Controller) : Prop :=
  List.map construct entries = List.map Ok cs.

(* ================================================================= *)
(** ** Sample data: the configuration of the testable properties *)

Module Sample.

Definition config : Config.t :=
  {| Config.name := Some "Bot";
     Config.mac_address := Some "AA:BB:CC:DD:EE:FF";
     Config.service_uuid := Some "FFF0";
     Config.write_uuid := Some "FFF1";
     Config.notify_uuid := Some "FFF2";
     Config.push_packet_hex := Some "0102030f" |}.

(** The same entry without [notify_uuid]. *)
Definition config_without_notify : Config.t :=
  {| Config.name := Some "Bot";
     Config.mac_address := Some "AA:BB:CC:DD:EE:FF";
     Config.service_uuid := Some "FFF0";
     Config.write_uuid := Some "FFF1";
     Config.notify_uuid := None;
     Config.push_packet_hex := Some "0102030f" |}.

(** An entry without [service_uuid]. *)
Definition config_without_service : Config.t :=
  {| Config.name := Some "Broken";
     Config.mac_address := Some "11:22:33:44:55:66";
     Config.service_uuid := None;
     Config.write_uuid := Some "FFF1";
     Config.notify_uuid := Some "FFF2";
     Config.push_packet_hex := Some "0102030f" |}.

(** The fields both constructors give the sample entry, but for
    [notifyUuid], which only part_000 reads. *)
Definition bot : Accessory :=
  {| name := "Bot";
     macAddress := "aabbccddeeff";
     serviceUuid := "fff0";
     writeUuid := "fff1";
     notifyUuid := "fff2";
     pushCommand := [x01; x02; x03; x0f];
     packetHex := "0102030f" |}.

(** Discovered, not connected. *)
Definition found : State := set_device (Some 1) fresh.

(** Connected, write characteristic 7 resolved, listener registered. *)
Definition up : State :=
  set_listeners [1] (set_writeChar (Some 7) (set_isConnected true found)).

Definition ok : Reply := Resolved VUnit.
Definition boom : Reply := Rejected (AdapterError "le-connection-abort-by-local").

(** A host whose calls never throw. *)
Definition host : Part000.Host :=
  {| Part000.platformAccessory := fun _ => Ok 0;
     Part000.registerPlatformAccessories := fun _ => Ok tt |}.

(** A schedule of part_000 in which an activation arrives while the
    scanning loop is in its GATT settle wait: both run the connect
    sequence on the same device; the loop's completes, then the
    activation's fails at the service resolution. *)
Definition race : list Action :=
  [ Settle 0 ok;                                   (* defaultAdapter() *)
    Settle 0 ok;                                   (* stopDiscovery(), best effort *)
    Settle 0 ok;                                   (* startDiscovery() *)
    Wake 0;                                        (* the scan window *)
    Settle 0 ok;                                   (* stopDiscovery() *)
    Settle 0 (Resolved (VAddrs ["AA:BB:CC:DD:EE:FF"]));
    Settle 0 (Resolved (VObj 1));                  (* getDevice(addr) *)
    Settle 0 ok;                                   (* loop: device.connect() *)
    Settle 0 (Resolved (VObj 2));                  (* loop: device.gatt(); settle wait *)
    Activate true;                                 (* task 1: no write handle yet *)
    Settle 1 ok;                                   (* activation: device.connect() *)
    Settle 1 (Resolved (VObj 3));                  (* activation: device.gatt(); settle wait *)
    Wake 0;                                        (* loop: settle wait over *)
    Settle 0 (Resolved (VObj 4));                  (* loop: getPrimaryService *)
    Settle 0 (Resolved (VObj 5));                  (* loop: write characteristic *)
    Settle 0 (Resolved (VObj 6));                  (* loop: notify characteristic *)
    Settle 0 ok;                                   (* loop: startNotifications() *)
    Wake 1;                                        (* activation: settle wait over *)
    Settle 1 boom ].                               (* activation: getPrimaryService fails *)

End Sample.

(* ================================================================= *)
(** ** Further vocabulary for the properties of the remaining code *)

(** Every character of [s] satisfies [p]. *)
Fixpoint all_chars (p : ascii -> bool) (s : string) : bool :=
  match s with
  | EmptyString => true
  | String c s' => p c && all_chars p s'
  end.

(** A hexadecimal digit in either case. *)
Definition is_hex_digit (c : ascii) : bool :=
  Text.is_digit c || Text.is_lower_af c || Text.is_upper_af c.

(** The log line [discoverDevices] writes for an entry. *)
Definition registering (c : Config.t) : Event :=
  Logged info (Registering (Config.name c)).

(** [this] with the [notifyUuid] index.js leaves unset. *)
Definition without_notify (this : Accessory) : Accessory :=
  {| name := name this; macAddress := macAddress this;
     serviceUuid := serviceUuid this; writeUuid := writeUuid this;
     notifyUuid := EmptyString; pushCommand := pushCommand this;
     packetHex := packetHex this |}.

(** The events the code of a controller can put on the trace: write calls
    carry the push packet and the file's write type, the host is only
    ever told [false], and the only timeouts are the 500 ms host-off of
    index.js and the 1500 ms auto-off. *)
Definition emitted (this : Accessory) (type : WriteType) (e : Event) : Prop :=
  match e with
  | Called (WriteValue _ data t) _ => data = pushCommand this /\ t = type
  | HostUpdate on => on = false
  | TimeoutSet ms cb => (ms, cb) = (500%Z, HostOff) \/ (ms, cb) = (1500%Z, AutoOff)
  | _ => True
  end.

(** At most one heartbeat interval runs, and it is [this.heartbeatTimer]. *)
Definition one_heartbeat (s : State) : Prop :=
  intervals s = [] \/ exists id, heartbeatTimer s = Some id /\ intervals s = [id].

(** index.js has no heartbeat at all. *)
Definition no_heartbeat (s : State) : Prop :=
  intervals s = [] /\ heartbeatTimer s = None /\ notifyChar s = None.

(** A change that keeps [I] when it held before. *)
Definition preserves (I : State -> Prop) (s s' : State) : Prop := I s -> I s'.

(** Any interference at all. *)
Definition anything (_ _ : State) : Prop := True.

(** A task that keeps [I], whenever it is resumed. *)
Definition task_preserves (I : State -> Prop) (p : Prog unit) : Prop :=
  exists s0, wp (preserves I) anything p (fun _ _ => True) (fun _ _ => True) s0.

(** The trace holds only events the controller's code can emit. *)
Definition emits_only (this : Accessory) (type : WriteType) (s : State) : Prop :=
  Forall (emitted this type) (trace s).

(* ================================================================= *)
(** ** The states in which tasks rest *)

(** While the switch reads on, the timeout that turns it off is pending. *)
Definition off_pending (s : State) : Prop :=
  isSwitchOn s = true -> In (CONFIG.AUTO_OFF_MS, AutoOff) (timeouts s).

(** A change that leaves the switch state and the pending timeouts alone. *)
Definition keeps_switch (s s' : State) : Prop :=
  isSwitchOn s' = isSwitchOn s /\ timeouts s' = timeouts s.

Section AtRest.

(** [I] is a property of the states the other tasks can see: those in
    which a task is suspended or has ended. *)
Variable I : State -> Prop.

(** [rests p Q E s]: from [s], [I] holds each time [p] suspends, provided
    it holds each time [p] is resumed; if [p] returns [a] in [s'] then
    [Q a s'], if it throws [e] then [E e s']. Between two suspension
    points [p] runs alone, and [I] need not hold there. *)
Fixpoint rests {A : Type} (p : Prog A) (Q : A -> State -> Prop)
         (E : Err -> State -> Prop) (s : State) : Prop :=
  match p with
  | Ret a => Q a s
  | Throw e => E e s
  | Get k => rests (k s) Q E s
  | Put s' k => rests k Q E s'
  | Await c k =>
      I s /\ forall r s', I s' -> rests (k r) Q E (record (Called c r) s')
  | Sleep ms k =>
      I s /\ forall s', I s' -> rests k Q E (record (Slept ms) s')
  end.

(** A suspended task that keeps [I] from wherever it is resumed. *)
Definition task_rests (p : Prog unit) : Prop :=
  match p with
  | Await c k =>
      forall r s, I s -> rests (k r) (fun _ => I) (fun _ => I) (record (Called c r) s)
  | Sleep ms k =>
      forall s, I s -> rests k (fun _ => I) (fun _ => I) (record (Slept ms) s)
  | _ => True
  end.

End AtRest.

(** [p], started where [I] holds, keeps [I] at its suspension points and
    ends, normally or not, where [I] holds. *)
Definition calm (I : State -> Prop) {A : Type} (p : Prog A) : Prop :=
  forall s, I s -> rests I p (fun _ => I) (fun _ => I) s.

Module Schedule.

(** The scanning loop finds the sample device. *)
Definition discovery : list Action :=
  [ Settle 0 Sample.ok;                            (* defaultAdapter() *)
    Settle 0 Sample.ok;                            (* stopDiscovery(), best effort *)
    Settle 0 Sample.ok;                            (* startDiscovery() *)
    Wake 0;                                        (* the scan window *)
    Settle 0 Sample.ok;                            (* stopDiscovery() *)
    Settle 0 (Resolved (VAddrs ["AA:BB:CC:DD:EE:FF"]));
    Settle 0 (Resolved (VObj 1)) ].                (* getDevice(addr) *)

(** A session of part_000: the loop connects, the heartbeat ticks, two
    activations overlap with it, the timeouts fire and the device
    disconnects. *)
Definition part000_session : list Action :=
  discovery ++
  [ Settle 0 Sample.ok; Settle 0 (Resolved (VObj 2)); Wake 0;
    Settle 0 (Resolved (VObj 4)); Settle 0 (Resolved (VObj 5));
    Settle 0 (Resolved (VObj 6)); Settle 0 Sample.ok;
    Tick 0; Settle 1 Sample.ok;
    Activate true; Wake 2; Settle 2 Sample.boom; Wake 2; Settle 2 Sample.ok;
    Activate true; Wake 3; Settle 3 Sample.ok;
    Tick 2; Settle 4 Sample.boom;
    Fire 0; Disconnect 1; Fire 0 ].

(** A session of index.js: an activation before the connection is up, the
    loop connects, an activation writes at the second attempt, the
    timeouts fire and the device disconnects. *)
Definition index_js_session : list Action :=
  discovery ++
  [ Activate true;
    Settle 0 Sample.ok; Settle 0 (Resolved (VObj 2)); Wake 0;
    Settle 0 (Resolved (VObj 4)); Settle 0 (Resolved (VObj 5));
    Activate true; Settle 2 Sample.boom; Wake 2; Settle 2 Sample.ok;
    Fire 0; Fire 0; Disconnect 1 ].

End Schedule.

(* ================================================================= *)
(** ** index.js: the scanning loop at its GATT settle wait *)

(** What the scanning loop of index.js does, told apart at its GATT
    settle wait: every step keeps [conn_inv], and the step that comes back
    from the settle wait finds no disconnect listener pending and the
    controller marked connected. *)
Definition wait_guarantee (s s' : State) : Prop :=
  conn_inv s' /\
  (new_events s s' = [Slept CONFIG.GATT_WAIT_MS] ->
   listeners s = [] /\ isConnected s = true).

(** The scanning loop, suspended since [s0], can go on from the present
    state with [wait_guarantee] steps. *)
Definition wait_task_ok (p : Prog unit) (s : State) : Prop :=
  exists s0, loop_rely s0 s /\
             wp wait_guarantee loop_rely p
                (fun _ s' => conn_inv s') (fun _ s' => conn_inv s') s0.

(** The event loop of index.js: task 0 is the scanning loop, the others
    are passive. *)
Definition wait_inv (sys : System) : Prop :=
  conn_inv (shared sys) /\
  exists loop others,
    tasks sys = loop :: others /\
    wait_task_ok loop (shared sys) /\
    Forall passive_task_ok others.
(* ================================================================= *)
(** * Properties *)


Module MacFacts.
Import Text Mac.

Lemma digit_lower up d :
  d < 16 -> lower_char (digit_char up d) = digit_char false d.
Proof.
  intros H. do 16 (destruct d as [|d]; [destruct up; reflexivity|]). lia.
Qed.

Lemma digit_upper up d :
  d < 16 -> upper_char (digit_char up d) = digit_char true d.
Proof.
  intros H. do 16 (destruct d as [|d]; [destruct up; reflexivity|]). lia.
Qed.

Lemma digit_kept d : d < 16 -> in_0_9a_f (digit_char false d) = true.
Proof.
  intros H. do 16 (destruct d as [|d]; [reflexivity|]). lia.
Qed.

Lemma digit_upper_lower d :
  d < 16 -> upper_char (digit_char false d) = digit_char true d.
Proof. apply digit_upper. Qed.

Lemma digit_not_colon d :
  d < 16 -> Ascii.eqb (digit_char true d) ":" = false.
Proof.
  intros H. do 16 (destruct d as [|d]; [reflexivity|]). lia.
Qed.

Lemma colon_upper c : is_colon c = true -> upper_char c = ":"%char.
Proof.
  unfold is_colon. intros H. apply Ascii.eqb_eq in H. subst. reflexivity.
Qed.

(** The configured side: any punctuation and either case normalise to the
    lower-case digits, whose upper-casing is the canonical text. *)
Lemma normalize_canon ds s :
  Repr is_punct ds s ->
  toUpperCase (normalize (Some s)) = canon ds.
Proof.
  unfold normalize, strip_non_hex, toLowerCase, toUpperCase. simpl.
  induction 1 as [|c ds s Hc _ IH|up d ds s Hd _ IH]; simpl.
  - reflexivity.
  - unfold is_punct in Hc. apply negb_true_iff in Hc. rewrite Hc. exact IH.
  - rewrite (digit_lower up Hd), (digit_kept Hd). simpl.
    rewrite (digit_upper_lower Hd), IH. reflexivity.
Qed.

(** The discovered side: colons and either case reduce to the canonical
    text. *)
Lemma discovered_canon ds s :
  Repr is_colon ds s ->
  strip_colons (toUpperCase s) = canon ds.
Proof.
  unfold strip_colons, toUpperCase.
  induction 1 as [|c ds s Hc _ IH|up d ds s Hd _ IH]; simpl.
  - reflexivity.
  - rewrite (colon_upper _ Hc). simpl. exact IH.
  - rewrite (digit_upper up Hd), (digit_not_colon Hd). simpl.
    rewrite IH. reflexivity.
Qed.

End MacFacts.

(* ----------------------------------------------------------------- *)
(** *** Address matching in the discovery loop *)

Ltac repr_digit up d := apply (@Mac.Repr_digit _ up d); [repeat constructor|].
Ltac repr_sep := apply Mac.Repr_sep; [reflexivity|].

(** C6 (amended). Two texts of the same digit sequence that differ only in
    letter case and punctuation match in the discovery loop whenever the
    discovered one is punctuated by colons only (the form the adapter
    yields); the configured one may carry any punctuation. *)
Theorem C6_match_modulo_case_and_punctuation (ds : list nat) (configured discovered : string) :
  Mac.Repr Mac.is_punct ds configured ->
  Mac.Repr Mac.is_colon ds discovered ->
  Mac.matches discovered (Mac.normalize (Some configured)) = true.
Proof.
  intros Hc Hd. unfold Mac.matches.
  rewrite (MacFacts.discovered_canon Hd), (MacFacts.normalize_canon Hc).
  apply String.eqb_refl.
Qed.

Lemma C6_match_witness :
  Mac.matches "aa:bb:CC:DD:EE:FF" (Mac.normalize (Some "Aa-Bb-Cc-Dd-Ee-Ff")) = true.
Proof.
  apply (@C6_match_modulo_case_and_punctuation
           [10; 10; 11; 11; 12; 12; 13; 13; 14; 14; 15; 15]).
  - repr_digit true 10. repr_digit false 10. repr_sep.
    repr_digit true 11. repr_digit false 11. repr_sep.
    repr_digit true 12. repr_digit false 12. repr_sep.
    repr_digit true 13. repr_digit false 13. repr_sep.
    repr_digit true 14. repr_digit false 14. repr_sep.
    repr_digit true 15. repr_digit false 15. apply Mac.Repr_nil.
  - repr_digit false 10. repr_digit false 10. repr_sep.
    repr_digit false 11. repr_digit false 11. repr_sep.
    repr_digit true 12. repr_digit true 12. repr_sep.
    repr_digit true 13. repr_digit true 13. repr_sep.
    repr_digit true 14. repr_digit true 14. repr_sep.
    repr_digit true 15. repr_digit true 15. apply Mac.Repr_nil.
Defined.

(** C6 as stated fails: a discovered address punctuated by dashes does not
    match the same address configured with colons, because the discovery
    loop strips colons only. *)
Lemma C6_dashes_in_discovered_address :
  ~ (forall ds configured discovered,
        Mac.Repr Mac.is_punct ds configured ->
        Mac.Repr Mac.is_punct ds discovered ->
        Mac.matches discovered (Mac.normalize (Some configured)) = true).
Proof.
  intros H.
  specialize (H [10; 10; 11; 11; 12; 12; 13; 13; 14; 14; 15; 15]
                "AA:BB:CC:DD:EE:FF" "Aa-Bb-Cc-Dd-Ee-Ff").
  assert (F : Mac.matches "Aa-Bb-Cc-Dd-Ee-Ff"
                          (Mac.normalize (Some "AA:BB:CC:DD:EE:FF")) = false)
    by reflexivity.
  rewrite H in F; [discriminate| |].
  - repr_digit true 10. repr_digit true 10. repr_sep.
    repr_digit true 11. repr_digit true 11. repr_sep.
    repr_digit true 12. repr_digit true 12. repr_sep.
    repr_digit true 13. repr_digit true 13. repr_sep.
    repr_digit true 14. repr_digit true 14. repr_sep.
    repr_digit true 15. repr_digit true 15. apply Mac.Repr_nil.
  - repr_digit true 10. repr_digit false 10. repr_sep.
    repr_digit true 11. repr_digit false 11. repr_sep.
    repr_digit true 12. repr_digit false 12. repr_sep.
    repr_digit true 13. repr_digit false 13. repr_sep.
    repr_digit true 14. repr_digit false 14. repr_sep.
    repr_digit true 15. repr_digit false 15. apply Mac.Repr_nil.
Qed.

(* ----------------------------------------------------------------- *)
(** *** Running a resumption: composition *)

Lemma exec_bind {A B : Type} (p : Prog A) (f : A -> Prog B) rs s :
  exec (bind p f) rs s =
  match exec p rs s with
  | Returned s' a rest => exec (f a) rest s'
  | Raised s' e rest => Raised s' e rest
  | Pending s' => Pending s'
  end.
Proof.
  revert rs s. induction p; intros rs s0; simpl; auto.
  destruct rs; auto.
Qed.

Lemma exec_try_catch {A : Type} (p : Prog A) (h : Err -> Prog A) rs s :
  exec (try_catch p h) rs s =
  match exec p rs s with
  | Returned s' a rest => Returned s' a rest
  | Raised s' e rest => exec (h e) rest s'
  | Pending s' => Pending s'
  end.
Proof.
  revert rs s. induction p; intros rs s0; simpl; auto.
  destruct rs; auto.
Qed.

Section GuaranteeFacts.

Variable G : State -> State -> Prop.
Variable R : State -> State -> Prop.

Lemma wp_mono {A : Type} (p : Prog A) (Q Q' : A -> State -> Prop)
      (E E' : Err -> State -> Prop) s :
  (forall a s', Q a s' -> Q' a s') ->
  (forall e s', E e s' -> E' e s') ->
  wp G R p Q E s -> wp G R p Q' E' s.
Proof.
  intros HQ HE. revert s.
  induction p as [a|e|k IH|s1 k IH|c k IH|ms k IH]; intros s; simpl; auto.
  - intros [H1 H2]. split; auto.
  - intros H r s' Hr. destruct (H r s' Hr). split; auto.
  - intros H s' Hr. destruct (H s' Hr). split; auto.
Qed.

Lemma wp_bind {A B : Type} (p : Prog A) (f : A -> Prog B)
      (Q : B -> State -> Prop) (E : Err -> State -> Prop) s :
  wp G R p (fun a s' => wp G R (f a) Q E s') E s ->
  wp G R (bind p f) Q E s.
Proof.
  revert s.
  induction p as [a|e|k IH|s1 k IH|c k IH|ms k IH]; intros s; simpl; auto.
  - intros [H1 H2]. split; auto.
  - intros H r s' Hr. destruct (H r s' Hr). split; auto.
  - intros H s' Hr. destruct (H s' Hr). split; auto.
Qed.

Lemma wp_try_catch {A : Type} (p : Prog A) (h : Err -> Prog A)
      (Q : A -> State -> Prop) (E : Err -> State -> Prop) s :
  wp G R p Q (fun e s' => wp G R (h e) Q E s') s ->
  wp G R (try_catch p h) Q E s.
Proof.
  revert s.
  induction p as [a|e|k IH|s1 k IH|c k IH|ms k IH]; intros s; simpl; auto.
  - intros [H1 H2]. split; auto.
  - intros H r s' Hr. destruct (H r s' Hr). split; auto.
  - intros H s' Hr. destruct (H s' Hr). split; auto.
Qed.

(** Up to its next suspension point a task makes [G]-steps only. *)
Lemma wp_advance {A : Type} (T : State -> State -> Prop) (p : Prog A) Q E s0 s :
  (forall a b c, T a b -> G b c -> T a c) ->
  T s0 s -> wp G R p Q E s ->
  T s0 (fst (advance p s)) /\ wp G R (snd (advance p s)) Q E (fst (advance p s)).
Proof.
  intros HT. revert s.
  induction p as [a|e|k IH|s1 k IH|c k IH|ms k IH]; intros s H0 H; simpl in *; auto.
  destruct H as [H1 H2]. apply IH; eauto.
Qed.

Hypothesis R_refl : forall s, R s s.
Hypothesis G_refl : forall s, G s s.
Hypothesis G_trans : forall a b c, G a b -> G b c -> G a c.

(** A run with no task interleaved: the whole run is a [G]-step, and
    so is the way to each state another task could observe. *)
Lemma wp_exec {A : Type} (p : Prog A) Q E rs s0 s :
  G s0 s -> wp G R p Q E s ->
  G s0 (final (exec p rs s)) /\
  Forall (G s0) (observable p rs s) /\
  match exec p rs s with
  | Returned s' a _ => Q a s'
  | Raised s' e _ => E e s'
  | Pending _ => True
  end.
Proof.
  revert rs s.
  induction p as [a|e|k IH|s1 k IH|c k IH|ms k IH]; intros rs s H0 H; simpl in *.
  - auto.
  - auto.
  - apply IH; auto.
  - destruct H as [H1 H2]. apply IH; eauto.
  - destruct rs as [|r rs]; simpl.
    + auto.
    + destruct (H r s (R_refl s)) as [H1 H2].
      destruct (IH r rs (record (Called c r) s)) as (Ha & Hb & Hc); eauto.
  - destruct (H s (R_refl s)) as [H1 H2].
    destruct (IH rs (record (Slept ms) s)) as (Ha & Hb & Hc); eauto.
Qed.

End GuaranteeFacts.

(* ----------------------------------------------------------------- *)
(** *** Guarantees, compositionally *)

Section Safe.

Variable G : State -> State -> Prop.
Variable R : State -> State -> Prop.

Lemma nothrow_safe {A : Type} (p : Prog A) : nothrow G R p -> safe G R p.
Proof. intros H s. eapply wp_mono; [| |apply H]; simpl; auto. Qed.

Lemma safe_ret {A : Type} (a : A) : safe G R (Ret a).
Proof. intros s. exact I. Qed.

Lemma nothrow_ret {A : Type} (a : A) : nothrow G R (Ret a).
Proof. intros s. exact I. Qed.

Lemma safe_throw {A : Type} e : safe G R (@Throw A e).
Proof. intros s. exact I. Qed.

Lemma safe_bind {A B : Type} (p : Prog A) (f : A -> Prog B) :
  safe G R p -> (forall a, safe G R (f a)) -> safe G R (bind p f).
Proof.
  intros Hp Hf s. apply wp_bind.
  eapply wp_mono; [| |apply Hp]; simpl; auto. intros a s' _. apply Hf.
Qed.

Lemma nothrow_bind {A B : Type} (p : Prog A) (f : A -> Prog B) :
  nothrow G R p -> (forall a, nothrow G R (f a)) -> nothrow G R (bind p f).
Proof.
  intros Hp Hf s. apply wp_bind.
  eapply wp_mono; [| |apply Hp]; simpl; auto. intros a s' _. apply Hf.
Qed.

Lemma safe_try_catch {A : Type} (p : Prog A) (h : Err -> Prog A) :
  safe G R p -> (forall e, safe G R (h e)) -> safe G R (try_catch p h).
Proof.
  intros Hp Hh s. apply wp_try_catch.
  eapply wp_mono; [| |apply Hp]; simpl; auto. intros e s' _. apply Hh.
Qed.

Lemma nothrow_try_catch {A : Type} (p : Prog A) (h : Err -> Prog A) :
  safe G R p -> (forall e, nothrow G R (h e)) -> nothrow G R (try_catch p h).
Proof.
  intros Hp Hh s. apply wp_try_catch.
  eapply wp_mono; [| |apply Hp]; simpl; auto. intros e s' _. apply Hh.
Qed.

Lemma nothrow_get : nothrow G R get.
Proof. intros s. exact I. Qed.

Lemma nothrow_modify (f : State -> State) :
  (forall s, G s (f s)) -> nothrow G R (modify f).
Proof. intros H s. simpl. auto. Qed.

Lemma safe_await (c : Call) :
  (forall r s, G s (record (Called c r) s)) -> safe G R (await c).
Proof. intros H s r s' _. split; [apply H|]. destruct r; exact I. Qed.

Lemma nothrow_sleep (ms : Z) :
  (forall s, G s (record (Slept ms) s)) -> nothrow G R (sleep ms).
Proof. intros H s s' _. split; [apply H|exact I]. Qed.

Lemma safe_deref what o : safe G R (deref what o).
Proof. destruct o; intros s; exact I. Qed.

End Safe.

(** One syntax-directed step; [side] discharges the [G]-steps. *)
Ltac safe_step side :=
  lazymatch goal with
  | |- safe _ _ (bind _ _) => apply safe_bind; [|intros]
  | |- safe _ _ (try_catch _ _) => apply safe_try_catch; [|intros]
  | |- safe _ _ (Ret _) => apply safe_ret
  | |- safe _ _ (Throw _) => apply safe_throw
  | |- safe _ _ get => apply nothrow_safe, nothrow_get
  | |- safe _ _ (modify _) => apply nothrow_safe, nothrow_modify; intros; side
  | |- safe _ _ (await _) => apply safe_await; intros; side
  | |- safe _ _ (sleep _) => apply nothrow_safe, nothrow_sleep; intros; side
  | |- safe _ _ (deref _ _) => apply safe_deref
  | |- safe _ _ (log _ _) => unfold log
  | |- safe _ _ (setTimeout _ _) => unfold setTimeout
  | |- safe _ _ once_disconnect => unfold once_disconnect
  | |- safe _ _ startHeartbeat => unfold startHeartbeat
  | |- safe _ _ heartbeat_tick => unfold heartbeat_tick
  | |- safe _ _ (if ?b then _ else _) => destruct b
  | |- safe _ _ (match ?x with _ => _ end) => destruct x
  | |- nothrow _ _ (bind _ _) => apply nothrow_bind; [|intros]
  | |- nothrow _ _ (try_catch _ _) => apply nothrow_try_catch; [|intros]
  | |- nothrow _ _ (Ret _) => apply nothrow_ret
  | |- nothrow _ _ get => apply nothrow_get
  | |- nothrow _ _ (modify _) => apply nothrow_modify; intros; side
  | |- nothrow _ _ (sleep _) => apply nothrow_sleep; intros; side
  | |- nothrow _ _ (log _ _) => unfold log
  | |- nothrow _ _ (setTimeout _ _) => unfold setTimeout
  | |- nothrow _ _ startHeartbeat => unfold startHeartbeat
  | |- nothrow _ _ heartbeat_tick => unfold heartbeat_tick
  | |- nothrow _ _ (if ?b then _ else _) => destruct b
  | |- nothrow _ _ (match ?x with _ => _ end) => destruct x
  end.

Ltac safe_auto side := repeat (safe_step side).

(* ----------------------------------------------------------------- *)
(** *** Traces *)

Lemma skipn_length_app {A : Type} (l l' : list A) :
  skipn (List.length l) (l ++ l') = l'.
Proof. induction l; simpl; auto. Qed.

Lemma new_events_app s s' l : trace s' = trace s ++ l -> new_events s s' = l.
Proof. unfold new_events. intros ->. apply skipn_length_app. Qed.

Lemma appends_refl P s : appends P s s.
Proof. exists []. split; [symmetry; apply app_nil_r|constructor]. Qed.

Lemma appends_trans P a b c : appends P a b -> appends P b c -> appends P a c.
Proof.
  intros (l1 & H1 & F1) (l2 & H2 & F2). exists (l1 ++ l2). split.
  - rewrite H2, H1. symmetry. apply app_assoc.
  - apply Forall_app. auto.
Qed.

Lemma appends_record (P : Event -> Prop) e s : P e -> appends P s (record e s).
Proof. intros H. exists [e]. split; [reflexivity|repeat constructor; auto]. Qed.

Lemma appends_same (P : Event -> Prop) s s' : trace s' = trace s -> appends P s s'.
Proof.
  intros H. exists []. split; [rewrite H; symmetry; apply app_nil_r|constructor].
Qed.

Lemma appends_clear_heartbeat (P : Event -> Prop) s :
  (forall id, P (IntervalCleared id)) -> appends P s (clear_heartbeat s).
Proof.
  intros H. unfold clear_heartbeat. destruct (heartbeatTimer s) as [id|].
  - exists [IntervalCleared id]. split; [reflexivity|repeat constructor; auto].
  - apply appends_refl.
Qed.

Lemma appends_new_events P s s' : appends P s s' -> Forall P (new_events s s').
Proof. intros (l & H & F). rewrite (@new_events_app s s' l H). exact F. Qed.

Ltac appends_side :=
  first [ apply appends_record; cbv; auto
        | apply appends_same; reflexivity
        | apply appends_clear_heartbeat; intros; cbv; auto
        | eexists [_]; split; [reflexivity|repeat constructor; cbv; auto] ].

(** Changes that leave a field alone. *)
Ltac keeps_side :=
  unfold keeps; try unfold clear_heartbeat;
  try match goal with |- context [heartbeatTimer ?s] => destruct (heartbeatTimer s) end;
  reflexivity.

Lemma keeps_refl {B : Type} (f : State -> B) s : keeps f s s.
Proof. reflexivity. Qed.

Lemma keeps_trans {B : Type} (f : State -> B) a b c :
  keeps f a b -> keeps f b c -> keeps f a c.
Proof. unfold keeps. congruence. Qed.

(* ----------------------------------------------------------------- *)
(** *** Running the handlers on given replies *)

Ltac ready_state s :=
  destruct s as [c sw w n hb d ls ts iv nt tr];
  cbn [isConnected writeChar device listeners] in *; subst.

Ltac run_exec :=
  repeat match goal with
  | |- context [exec ?p ?rs ?s] =>
      let o := eval cbv -[app List.filter] in (exec p rs s) in
      change (exec p rs s) with o
  end; cbn [final].

Ltac events :=
  match goal with
  | |- context [new_events ?s ?s'] =>
      rewrite (@new_events_app s s' _
                 ltac:(cbn [trace]; rewrite <- ?app_assoc; cbn [app]; reflexivity))
  end.

Ltac both_variants H := destruct H as [<-|[<-|[]]].

Ltac settle_goal := cbv; repeat split; auto; lia.


(** With [G] everything, any resumption is safe. *)
Lemma safe_any (R : State -> State -> Prop) {A : Type} (p : Prog A) :
  safe (fun _ _ => True) R p.
Proof.
  induction p as [a|e|k IH|s1 k IH|c k IH|ms k IH]; intros s; simpl.
  - exact I.
  - exact I.
  - apply IH.
  - split; [exact I|apply IH].
  - intros r s' _. split; [exact I|apply IH].
  - intros s' _. split; [exact I|apply IH].
Qed.

Ltac nothrow_auto :=
  repeat first [ apply safe_any | safe_step ltac:(exact I) ].

(** A run with no task interleaved is one [G]-step. *)
Lemma exec_safe (G : State -> State -> Prop) {A : Type} (p : Prog A) rs s :
  (forall a, G a a) ->
  (forall a b c, G a b -> G b c -> G a c) ->
  safe G eq p ->
  G s (final (exec p rs s)) /\ Forall (G s) (observable p rs s).
Proof.
  intros Hr Ht Hs.
  destruct (@wp_exec G eq (@eq_refl State) Ht A p _ _ rs s s (Hr s) (Hs s))
    as (H1 & H2 & _).
  split; assumption.
Qed.

Lemma exec_nothrow {A : Type} (p : Prog A) rs s s' e rest :
  nothrow (fun _ _ => True) eq p -> exec p rs s <> Raised s' e rest.
Proof.
  intros Hn Hx.
  destruct (@wp_exec (fun _ _ => True) eq (@eq_refl State) (fun _ _ _ _ _ => I)
                     A p _ _ rs s s I (Hn s)) as (_ & _ & H).
  rewrite Hx in H. exact H.
Qed.


(* ----------------------------------------------------------------- *)
(** *** The activation handler: retries *)

(** C1. On a controller that is connected with a resolved write handle, an
    activation attempts the write at most three times and sleeps 500 ms
    after each failed attempt; the first success ends the attempts and
    sets [isSwitchOn]; failing twice and succeeding the third time gives
    exactly three write calls and [isSwitchOn = true]. In both files. *)
Theorem C1_write_retry_budget (this : Accessory) (s : State) (h : nat)
        (handleSetOn : bool -> Prog unit) :
  In handleSetOn [IndexJs.handleSetOn this; Part000.handleSetOn this] ->
  isConnected s = true ->
  writeChar s = Some h ->
  (forall rs,
      let s' := final (exec (handleSetOn true) rs s) in
      write_calls (new_events s s') <= 3 /\
      backoff_respected (new_events s s') = true) /\
  (forall es v rest,
      List.length es < 3 ->
      exists s',
        exec (handleSetOn true) (List.map Rejected es ++ Resolved v :: rest) s
        = Returned s' tt rest /\
        write_calls (new_events s s') = S (List.length es) /\
        slept 500 (new_events s s') = List.length es /\
        isSwitchOn s' = true) /\
  (forall e1 e2 v rest,
      exists s',
        exec (handleSetOn true) (Rejected e1 :: Rejected e2 :: Resolved v :: rest) s
        = Returned s' tt rest /\
        write_calls (new_events s s') = 3 /\
        slept 500 (new_events s s') = 2 /\
        isSwitchOn s' = true).
Proof.
  intros Hv Hc Hw. ready_state s.
  both_variants Hv; (split; [|split]).
  - intros rs.
    destruct rs as [|[v1|e1] [|[v2|e2] [|[v3|e3] rs]]]; run_exec; events; settle_goal.
  - intros es v rest Hl.
    destruct es as [|e1 [|e2 [|e3 es]]]; cbn [List.length] in Hl; try lia;
      cbn [List.map app List.length]; run_exec; eexists; (split; [reflexivity|]);
      events; settle_goal.
  - intros e1 e2 v rest.
    run_exec; eexists; (split; [reflexivity|]); events; settle_goal.
  - intros rs. destruct hb;
    destruct rs as [|[v1|e1] [|[v2|e2] [|[v3|e3] rs]]]; run_exec; events; settle_goal.
  - intros es v rest Hl. destruct hb;
    destruct es as [|e1 [|e2 [|e3 es]]]; cbn [List.length] in Hl; try lia;
      cbn [List.map app List.length]; run_exec; eexists; (split; [reflexivity|]);
      events; settle_goal.
  - intros e1 e2 v rest. destruct hb;
    run_exec; eexists; (split; [reflexivity|]); events; settle_goal.
Qed.

Lemma C1_fail_fail_succeed :
  exists s',
    exec (Part000.handleSetOn Sample.bot true)
         [Sample.boom; Sample.boom; Sample.ok] Sample.up
    = Returned s' tt [] /\
    write_calls (new_events Sample.up s') = 3 /\
    slept 500 (new_events Sample.up s') = 2 /\
    isSwitchOn s' = true.
Proof.
  apply (@C1_write_retry_budget Sample.bot Sample.up 7
           (Part000.handleSetOn Sample.bot)).
  - right. left. reflexivity.
  - reflexivity.
  - reflexivity.
Defined.

(* ----------------------------------------------------------------- *)
(** *** The activation handler: the packet written *)

Lemma write_loop_carries this type failed n i :
  safe (appends (carries (pushCommand this) type)) eq
       (Common.write_loop this type failed n i).
Proof.
  revert i. induction n as [|n IH]; intros i; cbn [Common.write_loop].
  - apply safe_ret.
  - safe_auto appends_side. apply IH.
Qed.

Lemma connect_carries this data type connectDevice :
  In connectDevice [IndexJs.connectDevice this; Part000.connectDevice this] ->
  safe (appends (carries data type)) eq connectDevice.
Proof.
  intros Hv. both_variants Hv.
  - unfold IndexJs.connectDevice. safe_auto appends_side.
  - unfold Part000.connectDevice. safe_auto appends_side.
Qed.

Lemma IndexJs_handler_carries this value :
  safe (appends (carries (pushCommand this) command)) eq
       (IndexJs.handleSetOn this value).
Proof.
  unfold IndexJs.handleSetOn. safe_auto appends_side.
  apply write_loop_carries.
Qed.

Lemma Part000_handler_carries this value :
  safe (appends (carries (pushCommand this) request)) eq
       (Part000.handleSetOn this value).
Proof.
  unfold Part000.handleSetOn, Part000.push. safe_auto appends_side.
  - apply (@connect_carries this). right. left. reflexivity.
  - apply write_loop_carries.
Qed.

Lemma IndexJs_construct_packet config this st hex :
  IndexJs.construct config = Ok (this, st) ->
  Config.push_packet_hex config = Some hex ->
  pushCommand this = Hex.decode hex.
Proof.
  unfold IndexJs.construct. intros H Hh. rewrite Hh in H.
  destruct (Common.lower "service_uuid" (Config.service_uuid config)); [|discriminate].
  destruct (Common.lower "write_uuid" (Config.write_uuid config)); [|discriminate].
  cbn in H. inversion H. reflexivity.
Qed.

Lemma Part000_construct_packet config this st hex :
  Part000.construct config = Ok (this, st) ->
  Config.push_packet_hex config = Some hex ->
  pushCommand this = Hex.decode hex.
Proof.
  unfold Part000.construct. intros H Hh. rewrite Hh in H.
  destruct (Common.lower "service_uuid" (Config.service_uuid config)); [|discriminate].
  destruct (Common.lower "write_uuid" (Config.write_uuid config)); [|discriminate].
  destruct (Common.lower "notify_uuid" (Config.notify_uuid config)); [|discriminate].
  cbn in H. inversion H. reflexivity.
Qed.

(** C2 (amended). Every write attempt of an activation, retries included,
    passes exactly the bytes decoded from the configured
    [push_packet_hex] at construction (for "0102030f" the bytes 01 02 03
    0f). part_000 issues it as a write with response (['request']);
    index.js issues it as a write without response (['command']). *)
Theorem C2_packet_on_every_write (config : Config.t) (hex : string) :
  Config.push_packet_hex config = Some hex ->
  (forall this st value rs s,
      IndexJs.construct config = Ok (this, st) ->
      Forall (carries (Hex.decode hex) command)
             (new_events s (final (exec (IndexJs.handleSetOn this value) rs s)))) /\
  (forall this st value rs s,
      Part000.construct config = Ok (this, st) ->
      Forall (carries (Hex.decode hex) request)
             (new_events s (final (exec (Part000.handleSetOn this value) rs s)))) /\
  acknowledged request = true /\
  acknowledged command = false /\
  Hex.decode "0102030f" = [x01; x02; x03; x0f].
Proof.
  intros Hh. split; [|split; [|repeat split]].
  - intros this st value rs s Hc.
    rewrite <- (IndexJs_construct_packet _ Hc Hh).
    apply appends_new_events.
    apply exec_safe; [apply appends_refl|apply appends_trans|].
    apply IndexJs_handler_carries.
  - intros this st value rs s Hc.
    rewrite <- (Part000_construct_packet _ Hc Hh).
    apply appends_new_events.
    apply exec_safe; [apply appends_refl|apply appends_trans|].
    apply Part000_handler_carries.
Qed.

Lemma C2_sample_packet :
  Forall (carries [x01; x02; x03; x0f] request)
         (new_events Sample.up
            (final (exec (Part000.handleSetOn Sample.bot true)
                         [Sample.boom; Sample.ok] Sample.up))).
Proof.
  apply (proj1 (proj2 (@C2_packet_on_every_write Sample.config "0102030f" eq_refl))
           Sample.bot fresh).
  reflexivity.
Defined.

(** C2 as stated fails on index.js: the write of a controller constructed
    from the sample configuration is of type ['command'], a write without
    response. *)
Lemma C2_index_js_writes_without_response :
  exists this st h data r,
    IndexJs.construct Sample.config = Ok (this, st) /\
    In (Called (WriteValue h data command) r)
       (new_events Sample.up
          (final (exec (IndexJs.handleSetOn this true) [Sample.ok] Sample.up))) /\
    acknowledged command = false.
Proof.
  do 5 eexists. split; [reflexivity|]. split; [|reflexivity].
  cbv. right. left. reflexivity.
Qed.

(* ----------------------------------------------------------------- *)
(** *** The activation handler: exhausted retries and auto-off *)



Lemma exec_setTimeout cb ms rs s :
  exec (setTimeout cb ms) rs s =
  Returned (record (TimeoutSet ms cb) (set_timeouts (timeouts s ++ [(ms, cb)]) s))
           tt rs.
Proof. reflexivity. Qed.

Lemma write_loop_keeps {B : Type} (f : State -> B) this type failed n i :
  (forall e s, f (record e s) = f s) ->
  safe (keeps f) eq (Common.write_loop this type failed n i).
Proof.
  intros Hf. revert i. induction n as [|n IH]; intros i; cbn [Common.write_loop].
  - apply safe_ret.
  - safe_auto ltac:(apply Hf). apply IH.
Qed.

Lemma Part000_connect_keeps_timeouts this :
  safe (keeps timeouts) eq (Part000.connectDevice this).
Proof. unfold Part000.connectDevice. safe_auto keeps_side. Qed.

Lemma Part000_body_keeps_timeouts this :
  safe (keeps timeouts) eq
       (try_catch
          (s <- get ;;
           (if not_ready s then
              log info Reconnecting ;;
              Part000.connectDevice this
            else Ret tt) ;;
           Part000.push this)
          (fun e => log error (ControlFailed e)))%prog.
Proof.
  unfold Part000.push. safe_auto keeps_side.
  - apply Part000_connect_keeps_timeouts.
  - apply write_loop_keeps. reflexivity.
Qed.

Lemma not_ready_false s :
  not_ready s = false -> isConnected s = true /\ exists h, writeChar s = Some h.
Proof.
  unfold not_ready. destruct (isConnected s), (writeChar s) as [h|]; cbn;
    try discriminate. eauto.
Qed.

(** C4. An activation that reaches the write stage and returns has
    scheduled the auto-off, whether the write succeeded or its retries
    were exhausted: [(1500, AutoOff)] is appended to the pending timeouts
    (in part_000 also when the connect failed); it returns as soon as three
    replies are available; and when the event loop fires that timeout,
    with no other trigger, [isSwitchOn] becomes false and [false] is
    pushed to the host. In both files. *)
Theorem C4_auto_off_always_scheduled (this : Accessory)
        (handleSetOn : bool -> Prog unit) :
  In handleSetOn [IndexJs.handleSetOn this; Part000.handleSetOn this] ->
  CONFIG.AUTO_OFF_MS = 1500%Z /\
  (forall rs s s' rest,
      not_ready s = false ->
      exec (handleSetOn true) rs s = Returned s' tt rest ->
      timeouts s' = timeouts s ++ [(CONFIG.AUTO_OFF_MS, AutoOff)]) /\
  (forall rs s,
      not_ready s = false ->
      3 <= List.length rs ->
      exists s' rest, exec (handleSetOn true) rs s = Returned s' tt rest) /\
  (forall rs s s' rest,
      exec (Part000.handleSetOn this true) rs s = Returned s' tt rest ->
      timeouts s' = timeouts s ++ [(CONFIG.AUTO_OFF_MS, AutoOff)]) /\
  (forall on_disconnect sys i ms,
      nth_error (timeouts (shared sys)) i = Some (ms, AutoOff) ->
      exists sys',
        step handleSetOn on_disconnect (Fire i) sys = Some sys' /\
        isSwitchOn (shared sys') = false /\
        trace (shared sys') = trace (shared sys) ++ [HostUpdate false]).
Proof.
  intros Hv. split; [reflexivity|]. split; [|split; [|split]].
  - intros rs s s' rest Hn.
    destruct (not_ready_false _ Hn) as (Hc & h & Hw). clear Hn. ready_state s.
    both_variants Hv; [|destruct hb];
      destruct rs as [|[v1|e1] [|[v2|e2] [|[v3|e3] rs]]];
      run_exec; intros Hx; inversion Hx; subst; reflexivity.
  - intros rs s Hn Hl.
    destruct (not_ready_false _ Hn) as (Hc & h & Hw). clear Hn. ready_state s.
    destruct rs as [|r1 [|r2 [|r3 rs]]]; cbn [List.length] in Hl; try lia.
    both_variants Hv; [|destruct hb];
      destruct r1 as [v1|e1], r2 as [v2|e2], r3 as [v3|e3];
      run_exec; eexists; eexists; reflexivity.
  - intros rs s s' rest.
    unfold Part000.handleSetOn. cbn [negb].
    rewrite exec_bind.
    destruct (exec_safe rs s (@keeps_refl _ timeouts) (@keeps_trans _ timeouts)
                        (Part000_body_keeps_timeouts this)) as [Hk _].
    match goal with |- context [match ?x with _ => _ end] => destruct x as [s1 a r1|s1 e r1|s1] end;
      try discriminate.
    rewrite exec_setTimeout. intros Hx. inversion Hx; subst.
    cbn [final] in Hk. unfold keeps in Hk. cbn. rewrite Hk. reflexivity.
  - intros on_disconnect sys i ms Hi.
    unfold step. rewrite Hi. eexists. split; [reflexivity|]. split; reflexivity.
Qed.

Lemma C4_auto_off_after_failures :
  exists s' rest,
    exec (Part000.handleSetOn Sample.bot true)
         [Sample.boom; Sample.boom; Sample.boom] Sample.up
    = Returned s' tt rest.
Proof.
  apply (@C4_auto_off_always_scheduled Sample.bot (Part000.handleSetOn Sample.bot)).
  - right. left. reflexivity.
  - reflexivity.
  - cbn. lia.
Defined.

(* ----------------------------------------------------------------- *)
(** *** The activation handler: no live connection *)

Lemma exec_get_bind {A : Type} (f : State -> Prog A) rs s :
  exec (bind get f) rs s = exec (f s) rs s.
Proof. reflexivity. Qed.

Lemma exec_log l m rs s :
  exec (log l m) rs s = Returned (record (Logged l m) s) tt rs.
Proof. reflexivity. Qed.

Lemma write_calls_none l : Forall not_write l -> write_calls l = 0.
Proof.
  unfold write_calls. induction 1 as [|e l He _ IH]; cbn; auto.
  unfold not_write in He. rewrite He. exact IH.
Qed.

Lemma Part000_connect_no_write this :
  safe (appends not_write) eq (Part000.connectDevice this).
Proof. unfold Part000.connectDevice. safe_auto appends_side. Qed.

Lemma Part000_connect_keeps_switch this :
  safe (keeps isSwitchOn) eq (Part000.connectDevice this).
Proof. unfold Part000.connectDevice. safe_auto keeps_side. Qed.

Lemma Part000_connect_raised this rs s0 s1 e rest :
  exec (Part000.connectDevice this) rs s0 = Raised s1 e rest ->
  isConnected s1 = false.
Proof.
  unfold Part000.connectDevice. rewrite exec_try_catch.
  match goal with |- context [match ?x with _ => _ end] =>
    destruct x as [s2 a r2|s2 e2 r2|s2] end; try discriminate.
  intros Hx. change (@Raised unit (set_isConnected false s2) e2 r2 = Raised s1 e rest) in Hx.
  inversion Hx. reflexivity.
Qed.

(** C5 (amended). An activation that finds the controller not connected,
    or without a write handle, behaves as follows. In part_000 the connect
    sequence runs first and makes no write; the write stage starts only
    from the state that sequence returns in; if the sequence fails, the
    activation logs the failure, schedules the auto-off and returns, with
    no write made, [isConnected] false and [isSwitchOn] as it was. In
    index.js no connect is attempted: the handler logs a warning, schedules
    the push of [false] to the host after 500 ms and returns; no call is
    made and no field changes. *)
Theorem C5_activation_without_connection (this : Accessory) (s : State)
        (rs : list Reply) :
  not_ready s = true ->
  (let c := exec (Part000.connectDevice this) rs (record (Logged info Reconnecting) s) in
   write_calls (new_events s (final c)) = 0 /\
   (forall s1 rest,
       c = Returned s1 tt rest ->
       exec (Part000.handleSetOn this true) rs s =
       exec (try_catch (Part000.push this)
                       (fun e => log error (ControlFailed e)) ;;
             setTimeout AutoOff CONFIG.AUTO_OFF_MS) rest s1) /\
   (forall s1, c = Pending s1 ->
       exec (Part000.handleSetOn this true) rs s = Pending s1) /\
   (forall s1 e rest,
       c = Raised s1 e rest ->
       exists s',
         exec (Part000.handleSetOn this true) rs s = Returned s' tt rest /\
         new_events s1 s' =
           [Logged error (ControlFailed e); TimeoutSet CONFIG.AUTO_OFF_MS AutoOff] /\
         write_calls (new_events s s') = 0 /\
         isConnected s' = false /\
         isSwitchOn s' = isSwitchOn s)) /\
  exec (IndexJs.handleSetOn this true) rs s =
  Returned (record (TimeoutSet 500 HostOff)
              (set_timeouts (timeouts s ++ [(500%Z, HostOff)])
                 (record (Logged warn NotConnected) s)))
           tt rs.
Proof.
  intros Hn. split.
  - cbv zeta.
    assert (Hrun : forall A (k : Prog A),
               exec (try_catch
                       (s0 <- get ;;
                        (if not_ready s0 then
                           log info Reconnecting ;; Part000.connectDevice this
                         else Ret tt) ;;
                        Part000.push this)
                       (fun e => log error (ControlFailed e)) ;; k) rs s =
               match exec (Part000.connectDevice this) rs
                          (record (Logged info Reconnecting) s) with
               | Returned s1 _ rest =>
                   exec (try_catch (Part000.push this)
                                   (fun e => log error (ControlFailed e)) ;; k) rest s1
               | Raised s1 e rest =>
                   exec k rest (record (Logged error (ControlFailed e)) s1)
               | Pending s1 => Pending s1
               end).
    { intros A k. rewrite !exec_bind, !exec_try_catch, exec_get_bind, Hn.
      rewrite !exec_bind, exec_log.
      destruct (exec (Part000.connectDevice this) rs
                     (record (Logged info Reconnecting) s)) as [s1 [] r1|s1 e r1|s1];
        cbn iota; rewrite ?exec_bind, ?exec_try_catch, ?exec_log; reflexivity. }
    destruct (exec_safe rs (record (Logged info Reconnecting) s)
                (@appends_refl not_write) (@appends_trans not_write)
                (Part000_connect_no_write this)) as [(l & Hl & Fl) _].
    destruct (exec_safe rs (record (Logged info Reconnecting) s)
                (@keeps_refl _ isSwitchOn) (@keeps_trans _ isSwitchOn)
                (Part000_connect_keeps_switch this)) as [Hk _].
    unfold keeps in Hk. cbn [record isSwitchOn] in Hk.
    assert (Hw : write_calls (new_events s
                   (final (exec (Part000.connectDevice this) rs
                                (record (Logged info Reconnecting) s)))) = 0).
    { rewrite (@new_events_app s _ (Logged info Reconnecting :: l)).
      - apply write_calls_none. constructor; [reflexivity|exact Fl].
      - rewrite Hl. cbn [trace record]. rewrite <- app_assoc. reflexivity. }
    split; [exact Hw|]. split; [|split].
    + intros s1 rest Hc. unfold Part000.handleSetOn. cbn [negb].
      rewrite Hrun, Hc. reflexivity.
    + intros s1 Hc. unfold Part000.handleSetOn. cbn [negb].
      rewrite Hrun, Hc. reflexivity.
    + intros s1 e rest Hc. unfold Part000.handleSetOn. cbn [negb].
      rewrite Hrun, Hc, exec_setTimeout. eexists. split; [reflexivity|].
      rewrite Hc in Hw, Hk, Hl. cbn [final] in Hw, Hk, Hl.
      split; [|split; [|split]].
      * apply new_events_app. cbn [trace record set_timeouts].
        rewrite <- app_assoc. reflexivity.
      * rewrite (@new_events_app s _
                   ((Logged info Reconnecting :: l)
                      ++ [Logged error (ControlFailed e);
                          TimeoutSet CONFIG.AUTO_OFF_MS AutoOff])).
        -- unfold write_calls in *. rewrite filter_app, length_app.
           rewrite (@new_events_app s s1 (Logged info Reconnecting :: l)) in Hw.
           ++ rewrite Hw. reflexivity.
           ++ rewrite Hl. cbn [trace record]. rewrite <- app_assoc. reflexivity.
        -- cbn [trace record set_timeouts]. rewrite Hl. cbn [trace record].
           rewrite <- !app_assoc. reflexivity.
      * cbn [isConnected record set_timeouts].
        apply (Part000_connect_raised _ _ _ Hc).
      * cbn [isSwitchOn record set_timeouts]. exact Hk.
  - unfold IndexJs.handleSetOn. rewrite exec_get_bind, Hn.
    rewrite exec_bind, exec_log, exec_setTimeout. reflexivity.
Qed.

Lemma C5_sample_activation_before_discovery :
  exec (IndexJs.handleSetOn Sample.bot true) [Sample.ok] fresh =
  Returned (record (TimeoutSet 500 HostOff)
              (set_timeouts (timeouts fresh ++ [(500%Z, HostOff)])
                 (record (Logged warn NotConnected) fresh)))
           tt [Sample.ok].
Proof.
  apply (@C5_activation_without_connection Sample.bot fresh [Sample.ok]).
  reflexivity.
Defined.

(** C5 as stated fails on index.js: a controller that has discovered its
    device but is not connected makes no connect attempt on activation,
    although the adapter would have accepted the connection. *)
Lemma C5_index_js_makes_no_connect_attempt :
  not_ready Sample.found = true /\
  existsb is_connect_attempt
    (new_events Sample.found
       (final (exec (IndexJs.handleSetOn Sample.bot true)
                    [Sample.ok; Resolved (VObj 2); Resolved (VObj 3);
                     Resolved (VObj 4); Sample.ok]
                    Sample.found))) = false.
Proof. split; reflexivity. Qed.

(* ----------------------------------------------------------------- *)
(** *** The registry *)

Lemma controllers_of_cons construct c l cs :
  controllers_of construct (c :: l) cs ->
  exists c0 cs', cs = c0 :: cs' /\ construct c = Ok c0 /\ controllers_of construct l cs'.
Proof.
  unfold controllers_of. destruct cs as [|c0 cs']; cbn; intros H; inversion H.
  eauto.
Qed.

Lemma IndexJs_register_app before rest cs :
  controllers_of IndexJs.construct before cs ->
  IndexJs.register (before ++ rest) =
  let '(lines, cs', err) := IndexJs.register rest in
  (List.map (fun c => Logged info (Registering (Config.name c))) before ++ lines,
   cs ++ cs', err).
Proof.
  revert cs. induction before as [|c l IH]; intros cs H.
  - destruct cs; [|discriminate H]. cbn. destruct (IndexJs.register rest) as [[? ?] ?].
    reflexivity.
  - destruct (controllers_of_cons H) as (c0 & cs' & -> & Hc & Hl).
    cbn [app IndexJs.register List.map]. rewrite Hc, (IH _ Hl).
    destruct (IndexJs.register rest) as [[? ?] ?]. reflexivity.
Qed.

(** The host accepts every entry of [l]. *)
Definition host_accepts (host : Part000.Host) (l : list Config.t) : Prop :=
  Forall (fun c => exists a, Part000.platformAccessory host c = Ok a /\
                             Part000.registerPlatformAccessories host a = Ok tt) l.

Lemma Part000_register_app host before rest cs :
  controllers_of Part000.construct before cs ->
  host_accepts host before ->
  Part000.register host (before ++ rest) =
  let '(lines, cs', err) := Part000.register host rest in
  (List.map (fun c => Logged info (Registering (Config.name c))) before ++ lines,
   cs ++ cs', err).
Proof.
  revert cs. induction before as [|c l IH]; intros cs H Hh.
  - destruct cs; [|discriminate H]. cbn.
    destruct (Part000.register host rest) as [[? ?] ?]. reflexivity.
  - destruct (controllers_of_cons H) as (c0 & cs' & -> & Hc & Hl).
    inversion Hh as [|? ? (a & Ha & Hr) Hh']; subst.
    cbn [app Part000.register List.map]. rewrite Ha, Hc, Hr, (IH _ Hl Hh').
    destruct (Part000.register host rest) as [[? ?] ?]. reflexivity.
Qed.

(** Every list splits at the first entry whose construction throws:
    the controllers are those of the entries before it. *)
Lemma IndexJs_register_total devices :
  let '(lines, cs, err) := IndexJs.register devices in
  exists before,
    controllers_of IndexJs.construct before cs /\
    match err with
    | None => before = devices
    | Some e =>
        exists bad after,
          devices = before ++ bad :: after /\ IndexJs.construct bad = Thrown e
    end.
Proof.
  induction devices as [|c l IH]; cbn [IndexJs.register].
  - exists []. split; reflexivity.
  - destruct (IndexJs.construct c) as [ctl|e] eqn:Hc.
    + destruct (IndexJs.register l) as [[lines cs] err].
      destruct IH as (before & Hb & He). exists (c :: before). split.
      * unfold controllers_of in *. cbn [List.map]. rewrite Hc, Hb. reflexivity.
      * destruct err as [e|].
        -- destruct He as (bad & after & -> & Hbad). exists bad, after.
           split; [reflexivity|exact Hbad].
        -- rewrite He. reflexivity.
    + exists []. split; [reflexivity|]. exists c, l. split; [reflexivity|exact Hc].
Qed.

Lemma Part000_register_total host devices :
  let '(lines, cs, err) := Part000.register host devices in
  exists before cs0,
    controllers_of Part000.construct before cs0 /\
    host_accepts host before /\
    match err with
    | None => before = devices /\ cs = cs0
    | Some e =>
        exists bad after,
          devices = before ++ bad :: after /\
          ((Part000.platformAccessory host bad = Thrown e /\ cs = cs0) \/
           (exists a,
               Part000.platformAccessory host bad = Ok a /\
               Part000.construct bad = Thrown e /\ cs = cs0) \/
           (exists a c,
               Part000.platformAccessory host bad = Ok a /\
               Part000.construct bad = Ok c /\
               Part000.registerPlatformAccessories host a = Thrown e /\
               cs = cs0 ++ [c]))
    end.
Proof.
  induction devices as [|c l IH]; cbn [Part000.register].
  - exists [], []. split; [reflexivity|]. split; [constructor|]. split; reflexivity.
  - destruct (Part000.platformAccessory host c) as [a|e] eqn:Ha.
    2:{ exists [], []. split; [reflexivity|]. split; [constructor|].
        exists c, l. split; [reflexivity|]. left. split; [exact Ha|reflexivity]. }
    destruct (Part000.construct c) as [ctl|e] eqn:Hc.
    2:{ exists [], []. split; [reflexivity|]. split; [constructor|].
        exists c, l. split; [reflexivity|]. right. left. exists a.
        split; [exact Ha|]. split; [exact Hc|reflexivity]. }
    destruct (Part000.registerPlatformAccessories host a) as [u|e] eqn:Hr.
    2:{ exists [], []. split; [reflexivity|]. split; [constructor|].
        exists c, l. split; [reflexivity|]. right. right. exists a, ctl.
        split; [exact Ha|]. split; [exact Hc|]. split; [exact Hr|reflexivity]. }
    destruct u.
    destruct (Part000.register host l) as [[lines cs] err].
    destruct IH as (before & cs0 & Hb & Hh & He).
    exists (c :: before), (ctl :: cs0). split.
    { unfold controllers_of in *. cbn [List.map]. rewrite Hc, Hb. reflexivity. }
    split.
    { constructor; [exists a; split; assumption|exact Hh]. }
    destruct err as [e|].
    + destruct He as (bad & after & -> & H). exists bad, after.
      split; [reflexivity|].
      destruct H as [[H1 ->]|[(a0 & H1 & H2 & ->)|(a0 & c0 & H1 & H2 & H3 & ->)]].
      * left. split; [exact H1|reflexivity].
      * right. left. exists a0. split; [exact H1|]. split; [exact H2|reflexivity].
      * right. right. exists a0, c0.
        split; [exact H1|]. split; [exact H2|]. split; [exact H3|reflexivity].
    + destruct He as [-> ->]. split; reflexivity.
Qed.

(** C8 (amended). For every configuration list [discoverDevices]
    constructs the controllers of the entries in list order, one per
    entry as long as nothing throws. An error thrown while an entry is
    constructed leaves the loop and propagates out of [discoverDevices]:
    the controllers constructed are exactly those of the entries before
    it, and the entries after it are not constructed. Each file is taken
    on its own constructor: index.js does not read [notify_uuid]. In
    part_000 a call into the host made for the entry ends the loop in the
    same way when it throws; when it is [registerPlatformAccessories],
    the entry's controller has been constructed. *)
Theorem C8_registry_constructs_up_to_first_error
        (host : Part000.Host) (before after : list Config.t) :
  (forall cs,
      controllers_of IndexJs.construct before cs ->
      (exists lines,
          IndexJs.discoverDevices (Some before) = (lines, cs, None) /\
          List.length lines = List.length before) /\
      (forall bad e,
          IndexJs.construct bad = Thrown e ->
          exists lines,
            IndexJs.discoverDevices (Some (before ++ bad :: after))
            = (lines, cs, Some e))) /\
  (forall cs,
      controllers_of Part000.construct before cs ->
      host_accepts host before ->
      (exists lines,
          Part000.discoverDevices host (Some before) = (lines, cs, None) /\
          List.length lines = List.length before) /\
      (forall bad a e,
          Part000.platformAccessory host bad = Ok a ->
          Part000.construct bad = Thrown e ->
          exists lines,
            Part000.discoverDevices host (Some (before ++ bad :: after))
            = (lines, cs, Some e))) /\
  (forall devices,
      let '(lines, cs, err) := IndexJs.discoverDevices (Some devices) in
      exists done,
        controllers_of IndexJs.construct done cs /\
        match err with
        | None => done = devices
        | Some e =>
            exists bad rest,
              devices = done ++ bad :: rest /\ IndexJs.construct bad = Thrown e
        end) /\
  (forall devices,
      let '(lines, cs, err) := Part000.discoverDevices host (Some devices) in
      exists done cs0,
        controllers_of Part000.construct done cs0 /\
        host_accepts host done /\
        match err with
        | None => done = devices /\ cs = cs0
        | Some e =>
            exists bad rest,
              devices = done ++ bad :: rest /\
              ((Part000.platformAccessory host bad = Thrown e /\ cs = cs0) \/
               (exists a,
                   Part000.platformAccessory host bad = Ok a /\
                   Part000.construct bad = Thrown e /\ cs = cs0) \/
               (exists a c,
                   Part000.platformAccessory host bad = Ok a /\
                   Part000.construct bad = Ok c /\
                   Part000.registerPlatformAccessories host a = Thrown e /\
                   cs = cs0 ++ [c]))
        end).
Proof.
  split; [|split; [|split]].
  - intros cs HA. split.
    + eexists. cbn [IndexJs.discoverDevices].
      rewrite <- (app_nil_r before) at 1.
      rewrite (IndexJs_register_app [] HA). cbn. rewrite !app_nil_r.
      split; [reflexivity|apply length_map].
    + intros bad e Hbad. eexists. cbn [IndexJs.discoverDevices].
      rewrite (IndexJs_register_app (bad :: after) HA).
      cbn [IndexJs.register]. rewrite Hbad, app_nil_r. reflexivity.
  - intros cs HB Hh. split.
    + eexists. cbn [Part000.discoverDevices].
      rewrite <- (app_nil_r before) at 1.
      rewrite (Part000_register_app [] HB Hh). cbn. rewrite !app_nil_r.
      split; [reflexivity|apply length_map].
    + intros bad a e Ha Hbad. eexists. cbn [Part000.discoverDevices].
      rewrite (Part000_register_app (bad :: after) HB Hh).
      cbn [Part000.register]. rewrite Ha, Hbad, app_nil_r. reflexivity.
  - intros devices. apply IndexJs_register_total.
  - intros devices. apply Part000_register_total.
Qed.

Lemma C8_sample_registry :
  exists lines,
    IndexJs.discoverDevices
      (Some ([Sample.config_without_notify] ++
             Sample.config_without_service :: [Sample.config]))
    = (lines,
       [({| name := "Bot"; macAddress := "aabbccddeeff"; serviceUuid := "fff0";
            writeUuid := "fff1"; notifyUuid := EmptyString;
            pushCommand := [x01; x02; x03; x0f]; packetHex := "0102030f" |}, fresh)],
       Some (TypeError "service_uuid")).
Proof.
  apply (proj2 (proj1
           (@C8_registry_constructs_up_to_first_error
              Sample.host [Sample.config_without_notify] [Sample.config])
           [({| name := "Bot"; macAddress := "aabbccddeeff";
                serviceUuid := "fff0"; writeUuid := "fff1";
                notifyUuid := EmptyString;
                pushCommand := [x01; x02; x03; x0f];
                packetHex := "0102030f" |}, fresh)]
           eq_refl)).
  reflexivity.
Defined.

(** C8 as stated fails: the entry without [service_uuid] makes its
    constructor throw, and the well-formed entry after it gets no
    controller. *)
Lemma C8_error_stops_the_registry :
  (exists c, IndexJs.construct Sample.config = Ok c) /\
  IndexJs.discoverDevices (Some [Sample.config_without_service; Sample.config])
  = ([Logged info (Registering (Some "Broken"))], [],
     Some (TypeError "service_uuid")).
Proof. split; [eexists|]; reflexivity. Qed.

(* ----------------------------------------------------------------- *)
(** *** part_000: notify_uuid and the heartbeat *)

(** C9 (amended). In part_000 the constructor succeeds exactly when
    [service_uuid], [write_uuid], [notify_uuid] and [push_packet_hex] are
    all present, and then leaves the heartbeat off; an absent
    [notify_uuid] is an error. The connect sequence starts the heartbeat
    when the notify characteristic resolves and its subscription
    succeeds; when either fails the connection is completed all the same,
    with a warning and without the heartbeat. *)
Theorem C9_notify_uuid_required_heartbeat_optional
        (config : Config.t) (this : Accessory) (s : State)
        (d g sv h : nat) (v : Value) :
  device s = Some d ->
  ((exists c, Part000.construct config = Ok c) <->
   (is_some (Config.service_uuid config) && is_some (Config.write_uuid config)
    && is_some (Config.notify_uuid config)
    && is_some (Config.push_packet_hex config) = true)) /\
  (forall this' st,
      Part000.construct config = Ok (this', st) ->
      heartbeat_running st = false /\
      Some (notifyUuid this') = option_map Text.toLowerCase (Config.notify_uuid config)) /\
  (let resolved :=
       [Resolved v; Resolved (VObj g); Resolved (VObj sv); Resolved (VObj h)] in
   (forall nh v',
       exists s',
         exec (Part000.connectDevice this)
              (resolved ++ [Resolved (VObj nh); Resolved v']) s
         = Returned s' tt [] /\
         isConnected s' = true /\ writeChar s' = Some h /\
         notifyChar s' = Some nh /\ heartbeat_running s' = true) /\
   (forall e,
       exists s',
         exec (Part000.connectDevice this) (resolved ++ [Rejected e]) s
         = Returned s' tt [] /\
         isConnected s' = true /\ writeChar s' = Some h /\
         heartbeatTimer s' = heartbeatTimer s /\ intervals s' = intervals s /\
         In (Logged warn HeartbeatSkipped) (new_events s s')) /\
   (forall nh e,
       exists s',
         exec (Part000.connectDevice this)
              (resolved ++ [Resolved (VObj nh); Rejected e]) s
         = Returned s' tt [] /\
         isConnected s' = true /\ writeChar s' = Some h /\
         heartbeatTimer s' = heartbeatTimer s /\ intervals s' = intervals s /\
         In (Logged warn HeartbeatSkipped) (new_events s s'))).
Proof.
  intros Hd. split; [|split].
  - unfold Part000.construct, Common.lower, Common.buffer_from_hex.
    destruct (Config.service_uuid config), (Config.write_uuid config),
      (Config.notify_uuid config), (Config.push_packet_hex config); cbn;
      split; intros H; try discriminate; try (destruct H; discriminate);
      try reflexivity; eexists; reflexivity.
  - unfold Part000.construct, Common.lower, Common.buffer_from_hex.
    intros this' st.
    destruct (Config.service_uuid config), (Config.write_uuid config),
      (Config.notify_uuid config), (Config.push_packet_hex config); cbn;
      intros H; try discriminate. inversion H. split; reflexivity.
  - destruct s as [c0 sw0 w0 n0 hb0 d0 ls0 ts0 iv0 nt0 tr0].
    cbn [device] in Hd. subst d0. cbv zeta. cbn [app]. split; [|split].
    + intros nh v'. destruct hb0; run_exec;
        (eexists; split; [reflexivity|]);
        cbn [isConnected writeChar notifyChar heartbeat_running heartbeatTimer
             intervals existsb];
        rewrite Nat.eqb_refl; repeat split.
    + intros e. run_exec. eexists. split; [reflexivity|].
      events. cbn. repeat split. auto 10.
    + intros nh e. run_exec. eexists. split; [reflexivity|].
      events. cbn. repeat split. auto 10.
Qed.

Lemma C9_sample_heartbeat_starts :
  exists s',
    exec (Part000.connectDevice Sample.bot)
         ([Resolved VUnit; Resolved (VObj 2); Resolved (VObj 3); Resolved (VObj 4)]
            ++ [Resolved (VObj 5); Resolved VUnit]) Sample.found
    = Returned s' tt [] /\
    isConnected s' = true /\ writeChar s' = Some 4 /\
    notifyChar s' = Some 5 /\ heartbeat_running s' = true.
Proof.
  apply (proj1 (proj2 (proj2
           (@C9_notify_uuid_required_heartbeat_optional
              Sample.config Sample.bot Sample.found 1 2 3 4 VUnit eq_refl)))).
Defined.

(** C9 as stated fails: without [notify_uuid] the constructor of part_000
    throws on [(config.notify_uuid).toLowerCase()]. *)
Lemma C9_absent_notify_uuid_throws :
  Part000.construct Sample.config_without_notify = Thrown (TypeError "notify_uuid").
Proof. reflexivity. Qed.

(* ----------------------------------------------------------------- *)
(** *** The connect sequence and its disconnect listener *)

Lemma filter_absent (d : nat) (l : list nat) :
  ~ In d l -> List.filter (fun x => negb (Nat.eqb x d)) l = l.
Proof.
  induction l as [|x l IH]; cbn; intros H; [reflexivity|].
  destruct (Nat.eqb_spec x d) as [->|Hx].
  - exfalso. apply H. left. reflexivity.
  - cbn. rewrite IH; [reflexivity|]. intros Hi. apply H. right. exact Hi.
Qed.

Lemma fold_absent (body : State -> State) (d : nat) (l : list nat) (s : State) :
  ~ In d l ->
  fold_left (fun s' x => if Nat.eqb x d then body s' else s') l s = s.
Proof.
  revert s. induction l as [|x l IH]; cbn; intros s H; [reflexivity|].
  destruct (Nat.eqb_spec x d) as [->|Hx].
  - exfalso. apply H. left. reflexivity.
  - apply IH. intros Hi. apply H. right. exact Hi.
Qed.

(** A ['disconnect'] of a device nobody listens to changes nothing. *)
Lemma emit_disconnect_unheard body d s :
  ~ In d (listeners s) -> emit_disconnect body d s = s.
Proof.
  intros H. unfold emit_disconnect.
  rewrite (@fold_absent body d (listeners s) _ H), (@filter_absent d (listeners s) H).
  destruct s; reflexivity.
Qed.

(** Follow a run through every shape of reply it inspects. *)
Ltac explore leaf :=
  cbv -[app List.filter new_events listener_after_resolution String.eqb
        existsb is_listener_added];
  first [ match goal with
          | |- context [match ?x with _ => _ end] => is_var x; destruct x
          end; explore leaf
        | leaf ].

Ltac listener_leaf :=
  events; cbn [listener_after_resolution orb andb];
  rewrite ?String.eqb_refl; reflexivity.

Lemma IndexJs_listener_after_resolution this rs s :
  listener_after_resolution (writeUuid this) false
    (new_events s (final (exec (IndexJs.connectDevice this) rs s))) = true.
Proof.
  destruct this as [nm mac su wu nu pc ph].
  destruct s as [c sw w n hb d ls ts iv nt tr].
  explore listener_leaf.
Qed.

Lemma Part000_listener_after_resolution this rs s :
  listener_after_resolution (writeUuid this) false
    (new_events s (final (exec (Part000.connectDevice this) rs s))) = true.
Proof.
  destruct this as [nm mac su wu nu pc ph].
  destruct s as [c sw w n hb d ls ts iv nt tr].
  explore listener_leaf.
Qed.

Ltac open_state s :=
  destruct s as [? ? ? ? ? ? ? ? ? ? ?];
  cbn [isConnected writeChar device listeners] in *; subst.

Ltac run_replay :=
  repeat match goal with
  | |- context [replay ?rs ?sp] =>
      let o := eval cbv -[app List.filter] in (replay rs sp) in
      change (replay rs sp) with o
  end.

Ltac failed_resolution_leaf :=
  run_exec; events; repeat split.

(* ----------------------------------------------------------------- *)
(** *** index.js: the connection invariant under every interleaving *)

Lemma conn_inv_quiet c sw n hb d ts iv nt tr :
  conn_inv (Build_State c sw None n hb d [] ts iv nt tr).
Proof. split; [intros H; discriminate H|left; reflexivity]. Qed.

Lemma conn_inv_connected sw w n hb d ls ts iv nt tr :
  ls = [] \/ (exists x, ls = [x]) ->
  conn_inv (Build_State true sw w n hb d ls ts iv nt tr).
Proof.
  intros H. split; [intros _; reflexivity|].
  destruct H as [->|[x ->]];
    [left; reflexivity|right; split; [reflexivity|exists x; reflexivity]].
Qed.

Lemma conn_inv_disconnected sw w n hb d ls ts iv nt tr :
  conn_inv (Build_State false sw w n hb d ls ts iv nt tr) -> w = None /\ ls = [].
Proof.
  intros [H1 H2]. split.
  - destruct w; [discriminate (H1 eq_refl)|reflexivity].
  - destruct H2 as [H2|[H2 _]]; [exact H2|discriminate H2].
Qed.

Ltac fields :=
  cbv beta iota delta
      [record set_isConnected set_isSwitchOn set_writeChar set_notifyChar
       set_device set_listeners set_timeouts
       isConnected isSwitchOn writeChar notifyChar heartbeatTimer device
       listeners timeouts intervals nextTimer trace].

Ltac state_norm :=
  lazymatch goal with
  | |- wp ?G ?R ?p ?Q ?E ?s =>
      let s' := eval cbv beta iota delta
                  [record set_isConnected set_isSwitchOn set_writeChar
                   set_notifyChar set_device set_listeners set_timeouts
                   isConnected isSwitchOn writeChar notifyChar heartbeatTimer
                   device listeners timeouts intervals nextTimer trace] in s in
      change (wp G R p Q E s')
  | _ => idtac
  end.

Ltac rely_in s' :=
  let H := fresh "H" in
  let HI := fresh "HI" in
  let Hd := fresh "Hd" in
  let Hq := fresh "Hq" in
  intros s' H; destruct s' as [? ? ? ? ? ? ? ? ? ? ?];
  destruct H as (HI & Hd & Hq);
  cbn [device isConnected writeChar listeners] in Hd, Hq;
  destruct (Hq eq_refl) as (? & ? & ?); clear Hq HI; subst.

Lemma conn_inv_ext s s' :
  isConnected s' = isConnected s -> writeChar s' = writeChar s ->
  listeners s' = listeners s -> conn_inv s -> conn_inv s'.
Proof.
  unfold conn_inv, handle_implies_connected. intros -> -> ->. auto.
Qed.

Ltac loop_side :=
  unfold loop_guarantee; fields;
  first [ apply conn_inv_quiet
        | apply conn_inv_connected;
          first [left; reflexivity | right; eexists; reflexivity]
        | eapply conn_inv_ext; [| | |eassumption]; reflexivity ].

Ltac wp_step :=
  cbn [isConnected isSwitchOn writeChar notifyChar heartbeatTimer device
       listeners obj_of negb];
  lazymatch goal with
  | |- True => exact I
  | |- _ /\ _ => split
  | |- loop_guarantee _ _ => loop_side
  | |- conn_inv _ => loop_side
  | |- forall (r : Reply) (s' : State), _ =>
      let r := fresh "r" in let s' := fresh "s" in intros r; rely_in s'
  | |- forall (s' : State), _ =>
      let s' := fresh "s" in rely_in s'
  | |- wp _ _ (bind _ _) _ _ _ => apply wp_bind
  | |- wp _ _ (try_catch _ _) _ _ _ => apply wp_try_catch
  | |- wp _ _ (Get _) _ _ _ => state_norm; cbn [wp]
  | |- wp _ _ (Put _ _) _ _ _ => state_norm; cbn [wp]
  | |- wp _ _ (Await _ _) _ _ _ => state_norm; cbn [wp]
  | |- wp _ _ (Sleep _ _) _ _ _ => state_norm; cbn [wp]
  | |- wp _ _ (Ret _) _ _ _ => state_norm; cbn [wp]
  | |- wp _ _ (Throw _) _ _ _ => state_norm; cbn [wp]
  | |- wp _ _ (match ?x with _ => _ end) _ _ _ => destruct x eqn:?
  | |- wp _ _ (if ?x then _ else _) _ _ _ => destruct x eqn:?
  end.

Ltac wp_open :=
  unfold once_disconnect;
  unfold log, modify, get, await, sleep, deref, Common.iterable.

Lemma IndexJs_connect_loop this s :
  writeChar s = None -> listeners s = [] ->
  wp loop_guarantee loop_rely (IndexJs.connectDevice this)
     (fun _ s' => conn_inv s') (fun _ s' => conn_inv s') s.
Proof.
  intros Hw Hl. destruct s as [c sw w n hb d ls ts iv nt tr].
  cbn [writeChar listeners] in *. subst.
  unfold IndexJs.connectDevice. wp_open.
  repeat wp_step.
Qed.

Lemma IndexJs_scan_devices_loop this addrs s :
  writeChar s = None -> listeners s = [] ->
  wp loop_guarantee loop_rely
     (Common.scan_devices this (IndexJs.connectDevice this) addrs)
     (fun _ s' => conn_inv s') (fun _ s' => conn_inv s') s.
Proof.
  intros Hw Hl. destruct s as [c sw w n hb d ls ts iv nt tr].
  cbn [writeChar listeners] in *. subst.
  induction addrs as [|addr rest IH]; cbn [Common.scan_devices].
  - apply conn_inv_quiet.
  - destruct (Mac.matches addr (macAddress this)); [|exact IH].
    wp_open. repeat wp_step.
    apply IndexJs_connect_loop; reflexivity.
Qed.

Lemma IndexJs_scan_turn_loop this s :
  conn_inv s ->
  wp loop_guarantee loop_rely
     (Common.scan_turn this (IndexJs.connectDevice this))
     (fun _ s' => conn_inv s') (fun _ s' => conn_inv s') s.
Proof.
  intros Hi. destruct s as [c sw w n hb d ls ts iv nt tr].
  unfold Common.scan_turn. wp_open. wp_step. wp_step.
  destruct c; cbn [negb]; [exact Hi|].
  apply conn_inv_disconnected in Hi. destruct Hi as [-> ->].
  repeat wp_step.
  all: eapply wp_mono; [| |apply IndexJs_scan_devices_loop; reflexivity];
    cbv beta; [auto|]; intros e0 s1 H1; split; loop_side.
Qed.

Lemma IndexJs_loop this turns s :
  conn_inv s ->
  wp loop_guarantee loop_rely (IndexJs.startScanningLoop this turns)
     (fun _ s' => conn_inv s') (fun _ s' => conn_inv s') s.
Proof.
  unfold IndexJs.startScanningLoop.
  revert s. induction turns as [|n IH]; intros s Hi; cbn [Common.scanning_loop].
  - exact Hi.
  - apply wp_bind.
    eapply wp_mono; [| |apply IndexJs_scan_turn_loop; exact Hi]; cbv beta; [|auto].
    intros _ s1 _. apply wp_bind. unfold sleep. cbn [wp].
    intros s2 (HI & _).
    assert (HI' : conn_inv (record (Slept IndexJs.RECONNECT_DELAY_MS) s2))
      by (eapply conn_inv_ext; [| | |exact HI]; reflexivity).
    split; [exact HI'|]. apply IH. exact HI'.
Qed.

Lemma IndexJs_init_loop this turns :
  wp loop_guarantee loop_rely (IndexJs.initNodeBle this turns)
     (fun _ s' => conn_inv s') (fun _ s' => conn_inv s') fresh.
Proof.
  unfold IndexJs.initNodeBle, Common.init_ble, fresh. wp_open.
  repeat wp_step.
  apply IndexJs_loop. apply conn_inv_quiet.
Qed.

Ltac passive_side := unfold passive; repeat split; reflexivity.

Lemma write_loop_passive this type failed n i :
  safe passive (fun _ _ => True) (Common.write_loop this type failed n i).
Proof.
  revert i. induction n as [|n IH]; intros i; cbn [Common.write_loop].
  - apply safe_ret.
  - safe_auto passive_side. apply IH.
Qed.

Lemma IndexJs_handler_passive this value :
  safe passive (fun _ _ => True) (IndexJs.handleSetOn this value).
Proof.
  unfold IndexJs.handleSetOn. safe_auto passive_side.
  apply write_loop_passive.
Qed.

Lemma heartbeat_tick_passive : safe passive (fun _ _ => True) heartbeat_tick.
Proof. safe_auto passive_side. Qed.

Lemma passive_refl s : passive s s.
Proof. passive_side. Qed.

Lemma passive_trans a b c : passive a b -> passive b c -> passive a c.
Proof.
  unfold passive. intros (H1 & H2 & H3 & H4) (K1 & K2 & K3 & K4).
  repeat split; congruence.
Qed.

Lemma conn_inv_passive s s' : passive s s' -> conn_inv s -> conn_inv s'.
Proof. intros (H1 & H2 & H3 & _). apply conn_inv_ext; assumption. Qed.

Lemma loop_rely_refl s : conn_inv s -> loop_rely s s.
Proof. intros H. split; [exact H|]. split; [reflexivity|]. auto. Qed.

Lemma loop_rely_passive s0 s s' :
  loop_rely s0 s -> passive s s' -> loop_rely s0 s'.
Proof.
  intros (HI & Hd & Hq) Hp. pose proof (conn_inv_passive Hp HI) as HI'.
  destruct Hp as (H1 & H2 & H3 & H4).
  split; [exact HI'|]. split; [congruence|].
  intros Hl. destruct (Hq Hl) as (K1 & K2 & K3). repeat split; congruence.
Qed.

Lemma Forall_update {A : Type} (P : A -> Prop) i x l :
  Forall P l -> P x -> Forall P (update i x l).
Proof.
  intros Hl Hx. revert i. induction Hl as [|y l Hy Hl IH]; intros i.
  - destruct i; constructor.
  - destruct i; cbn; constructor; auto.
Qed.

Lemma Forall_nth_error {A : Type} (P : A -> Prop) l i x :
  Forall P l -> nth_error l i = Some x -> P x.
Proof.
  intros Hl. revert i. induction Hl as [|y l Hy Hl IH]; intros i H.
  - destruct i; discriminate H.
  - destruct i; cbn in H; [inversion H; subst; exact Hy|eauto].
Qed.

(** A passive task is resumed. *)
Lemma passive_resume p s s' p'
      (f : Prog unit -> State -> option (State * Prog unit)) :
  (f = wake \/ exists r, f = settle r) ->
  passive_task_ok p -> f p s = Some (s', p') ->
  passive s s' /\ passive_task_ok p'.
Proof.
  intros Hf [s0 Hp] Hs.
  destruct Hf as [->|[r ->]]; destruct p as [a|e|k|s1 k|c k|ms k];
    try discriminate Hs; cbn [settle wake] in Hs; inversion Hs as [Hadv]; clear Hs;
    cbn [wp] in Hp.
  - destruct (Hp s I) as [Hg Hw].
    destruct (@wp_advance passive (fun _ _ => True) unit passive k _ _ s _
                (passive_trans) Hg Hw) as [H1 H2].
    rewrite Hadv in H1, H2. cbn [fst snd] in H1, H2.
    split; [exact H1|]. eexists; exact H2.
  - destruct (Hp r s I) as [Hg Hw].
    destruct (@wp_advance passive (fun _ _ => True) unit passive (k r) _ _ s _
                (passive_trans) Hg Hw) as [H1 H2].
    rewrite Hadv in H1, H2. cbn [fst snd] in H1, H2.
    split; [exact H1|]. eexists; exact H2.
Qed.

(** The scanning loop is resumed. *)
Lemma loop_resume p s s' p'
      (f : Prog unit -> State -> option (State * Prog unit)) :
  (f = wake \/ exists r, f = settle r) ->
  loop_task_ok p s -> f p s = Some (s', p') ->
  conn_inv s' /\ loop_task_ok p' s'.
Proof.
  intros Hf (s0 & Hr & Hp) Hs.
  assert (Ht : forall a b c : State,
             (fun _ x => conn_inv x) a b -> loop_guarantee b c ->
             (fun _ x => conn_inv x) a c) by (intros a b c _ H; exact H).
  destruct Hf as [->|[r ->]]; destruct p as [a|e|k|s1 k|c k|ms k];
    try discriminate Hs; cbn [settle wake] in Hs; inversion Hs as [Hadv]; clear Hs;
    cbn [wp] in Hp.
  - destruct (Hp s Hr) as [Hg Hw].
    destruct (@wp_advance loop_guarantee loop_rely unit (fun _ x => conn_inv x)
                k _ _ s _ Ht Hg Hw) as [H1 H2].
    rewrite Hadv in H1, H2. cbn [fst snd] in H1, H2.
    split; [exact H1|]. exists s'. split; [apply loop_rely_refl; exact H1|exact H2].
  - destruct (Hp r s Hr) as [Hg Hw].
    destruct (@wp_advance loop_guarantee loop_rely unit (fun _ x => conn_inv x)
                (k r) _ _ s _ Ht Hg Hw) as [H1 H2].
    rewrite Hadv in H1, H2. cbn [fst snd] in H1, H2.
    split; [exact H1|]. exists s'. split; [apply loop_rely_refl; exact H1|exact H2].
Qed.

Lemma sys_inv_passive s loop s' others' :
  conn_inv s -> loop_task_ok loop s -> passive s s' ->
  Forall passive_task_ok others' ->
  sys_inv {| shared := s'; tasks := loop :: others' |}.
Proof.
  intros HI (s0 & Hr & Hw) Hp Ho. split; cbn [shared tasks].
  - exact (conn_inv_passive Hp HI).
  - exists loop, others'. split; [reflexivity|]. split; [|exact Ho].
    exists s0. split; [exact (loop_rely_passive Hr Hp)|exact Hw].
Qed.

Lemma spawn_passive p sys :
  safe passive (fun _ _ => True) p -> sys_inv sys -> sys_inv (spawn p sys).
Proof.
  intros Hp (HI & loop & others & Ht & Hl & Ho).
  unfold spawn. 
  destruct (@wp_advance passive (fun _ _ => True) unit passive p _ _
              (shared sys) (shared sys) passive_trans
              (passive_refl _) (Hp (shared sys))) as [H1 H2].
  destruct (advance p (shared sys)) as [s' p'] eqn:Ha. cbn [fst snd] in H1, H2.
  rewrite Ht. cbn [app].
  apply (sys_inv_passive HI Hl H1).
  apply Forall_app. split; [exact Ho|]. constructor; [|constructor].
  eexists; exact H2.
Qed.

Lemma IndexJs_disconnect_event d s :
  conn_inv s ->
  let s' := emit_disconnect IndexJs.on_disconnect d s in
  conn_inv s' /\ device s' = device s /\
  (listeners s = [] ->
   isConnected s' = isConnected s /\ writeChar s' = writeChar s /\ listeners s' = []).
Proof.
  intros HI. destruct s as [c sw w n hb dv ls ts iv nt tr].
  pose proof HI as [H1 [H2|[H2 [x H3]]]];
    cbn [listeners isConnected] in H2; try cbn [listeners] in H3; subst.
  - cbv zeta. unfold emit_disconnect. cbn.
    split; [|split; [reflexivity|intros _; repeat split]].
    eapply conn_inv_ext; [| | |exact HI]; reflexivity.
  - cbv zeta. unfold emit_disconnect. cbn [listeners List.filter fold_left].
    destruct (Nat.eqb x d); cbn.
    + split; [apply conn_inv_quiet|]. split; [reflexivity|]. intros H; discriminate H.
    + split; [|split; [reflexivity|intros H; discriminate H]].
      eapply conn_inv_ext; [| | |exact HI]; reflexivity.
Qed.

Lemma fire_passive cb s l : passive s (fire cb (set_timeouts l s)).
Proof. destruct cb; passive_side. Qed.

Lemma IndexJs_step_inv this a sys sys' :
  sys_inv sys ->
  step (IndexJs.handleSetOn this) IndexJs.on_disconnect a sys = Some sys' ->
  sys_inv sys'.
Proof.
  intros Hinv Hs. pose proof Hinv as (HI & loop & others & Ht & Hl & Ho).
  destruct a as [i r|i|d|i|id|value]; cbn [step] in Hs.
  - unfold resume in Hs. rewrite Ht in Hs.
    destruct i as [|j]; cbn [nth_error] in Hs.
    + destruct (settle r loop (shared sys)) as [[s' p']|] eqn:Hf; [|discriminate Hs].
      inversion Hs; subst sys'; clear Hs.
      destruct (@loop_resume loop _ _ _ (settle r) (or_intror (ex_intro _ r eq_refl)) Hl Hf)
        as [H1 H2].
      split; [exact H1|]. exists p', others. cbn. auto.
    + destruct (nth_error others j) as [p|] eqn:Hn; [|discriminate Hs].
      destruct (settle r p (shared sys)) as [[s' p']|] eqn:Hf; [|discriminate Hs].
      inversion Hs; subst sys'; clear Hs.
      destruct (@passive_resume p _ _ _ (settle r) (or_intror (ex_intro _ r eq_refl))
                  (Forall_nth_error _ Ho Hn) Hf) as [H1 H2].
      cbn [update]. apply (sys_inv_passive HI Hl H1).
      apply Forall_update; assumption.
  - unfold resume in Hs. rewrite Ht in Hs.
    destruct i as [|j]; cbn [nth_error] in Hs.
    + destruct (wake loop (shared sys)) as [[s' p']|] eqn:Hf; [|discriminate Hs].
      inversion Hs; subst sys'; clear Hs.
      destruct (@loop_resume loop _ _ _ wake (or_introl eq_refl) Hl Hf) as [H1 H2].
      split; [exact H1|]. exists p', others. cbn. auto.
    + destruct (nth_error others j) as [p|] eqn:Hn; [|discriminate Hs].
      destruct (wake p (shared sys)) as [[s' p']|] eqn:Hf; [|discriminate Hs].
      inversion Hs; subst sys'; clear Hs.
      destruct (@passive_resume p _ _ _ wake (or_introl eq_refl)
                  (Forall_nth_error _ Ho Hn) Hf) as [H1 H2].
      cbn [update]. apply (sys_inv_passive HI Hl H1).
      apply Forall_update; assumption.
  - inversion Hs; subst sys'; clear Hs.
    destruct (IndexJs_disconnect_event d HI) as (H1 & H2 & H3).
    split; [exact H1|]. exists loop, others. cbn [shared tasks].
    split; [exact Ht|]. split; [|exact Ho].
    destruct Hl as (s0 & (K1 & K2 & K3) & Hw). exists s0. split; [|exact Hw].
    split; [exact H1|]. split; [congruence|].
    intros Hq. destruct (K3 Hq) as (L1 & L2 & L3).
    destruct (H3 L3) as (M1 & M2 & M3). repeat split; congruence.
  - destruct (nth_error (timeouts (shared sys)) i) as [[ms cb]|]; [|discriminate Hs].
    inversion Hs; subst sys'; clear Hs. rewrite Ht.
    apply (sys_inv_passive HI Hl (fire_passive cb _ _) Ho).
  - destruct (existsb (Nat.eqb id) (intervals (shared sys))); [|discriminate Hs].
    inversion Hs; subst sys'; clear Hs.
    apply spawn_passive; [apply heartbeat_tick_passive|exact Hinv].
  - inversion Hs; subst sys'; clear Hs.
    apply spawn_passive; [apply IndexJs_handler_passive|exact Hinv].
Qed.

Lemma IndexJs_boot_inv this turns : sys_inv (boot (IndexJs.initNodeBle this turns)).
Proof.
  unfold boot, spawn. cbn [shared tasks app].
  assert (Ht : forall a b c : State,
             (fun _ x => conn_inv x) a b -> loop_guarantee b c ->
             (fun _ x => conn_inv x) a c) by (intros a b c _ H; exact H).
  destruct (@wp_advance loop_guarantee loop_rely unit (fun _ x => conn_inv x)
              (IndexJs.initNodeBle this turns) _ _ fresh fresh Ht
              (conn_inv_quiet _ _ _ _ _ _ _ _ _)
              (IndexJs_init_loop this turns)) as [H1 H2].
  destruct (advance (IndexJs.initNodeBle this turns) fresh) as [s' p'].
  cbn [fst snd] in H1, H2. split; [exact H1|].
  exists p', []. cbn [shared tasks]. split; [reflexivity|]. split; [|constructor].
  exists s'. split; [apply loop_rely_refl; exact H1|exact H2].
Qed.

Lemma IndexJs_run_inv this acts sys sys' :
  sys_inv sys ->
  run (IndexJs.handleSetOn this) IndexJs.on_disconnect acts sys = Some sys' ->
  sys_inv sys'.
Proof.
  revert sys. induction acts as [|a acts IH]; intros sys Hi Hr; cbn [run] in Hr.
  - inversion Hr; subst; exact Hi.
  - destruct (step (IndexJs.handleSetOn this) IndexJs.on_disconnect a sys)
      as [sys1|] eqn:Hs; [|discriminate Hr].
    apply (IH sys1); [|exact Hr]. exact (IndexJs_step_inv _ _ Hi Hs).
Qed.

(* ----------------------------------------------------------------- *)
(** *** part_000, one operation at a time *)

Lemma hic_no_handle c sw n hb d ls ts iv nt tr :
  handle_implies_connected (Build_State c sw None n hb d ls ts iv nt tr).
Proof. intros H; discriminate H. Qed.

Lemma hic_connected sw w n hb d ls ts iv nt tr :
  handle_implies_connected (Build_State true sw w n hb d ls ts iv nt tr).
Proof. intros _; reflexivity. Qed.

Lemma hic_ext s s' :
  isConnected s' = isConnected s -> writeChar s' = writeChar s ->
  handle_implies_connected s -> handle_implies_connected s'.
Proof. unfold handle_implies_connected. intros -> ->. auto. Qed.

Ltac seq_fields :=
  cbv beta iota delta
      [record set_isConnected set_isSwitchOn set_writeChar set_notifyChar
       set_device set_listeners set_timeouts set_interval clear_interval
       clear_heartbeat
       isConnected isSwitchOn writeChar notifyChar heartbeatTimer device
       listeners timeouts intervals nextTimer trace].

Ltac seq_state_norm :=
  lazymatch goal with
  | |- wp ?G ?R ?p ?Q ?E ?s =>
      let s' := eval cbv beta iota delta
                  [record set_isConnected set_isSwitchOn set_writeChar
                   set_notifyChar set_device set_listeners set_timeouts
                   set_interval clear_interval clear_heartbeat
                   isConnected isSwitchOn writeChar notifyChar heartbeatTimer
                   device listeners timeouts intervals nextTimer trace] in s in
      change (wp G R p Q E s')
  | _ => idtac
  end.

Ltac seq_side :=
  unfold keeps_handle_inv; seq_fields;
  first [ apply hic_no_handle
        | apply hic_connected
        | eapply hic_ext; [| |eassumption]; reflexivity ].

Ltac seq_step :=
  cbn [isConnected isSwitchOn writeChar notifyChar heartbeatTimer device
       listeners obj_of negb];
  lazymatch goal with
  | |- True => exact I
  | |- _ /\ _ => split
  | |- keeps_handle_inv _ _ => seq_side
  | |- handle_implies_connected _ => seq_side
  | |- forall (r : Reply) (s' : State), _ =>
      let r := fresh "r" in let s' := fresh "s" in let H := fresh "H" in
      intros r s' H; subst s'
  | |- forall (s' : State), _ =>
      let s' := fresh "s" in let H := fresh "H" in intros s' H; subst s'
  | |- wp _ _ (bind _ _) _ _ _ => apply wp_bind
  | |- wp _ _ (try_catch _ _) _ _ _ => apply wp_try_catch
  | |- wp _ _ (Get _) _ _ _ => seq_state_norm; cbn [wp]
  | |- wp _ _ (Put _ _) _ _ _ => seq_state_norm; cbn [wp]
  | |- wp _ _ (Await _ _) _ _ _ => seq_state_norm; cbn [wp]
  | |- wp _ _ (Sleep _ _) _ _ _ => seq_state_norm; cbn [wp]
  | |- wp _ _ (Ret _) _ _ _ => seq_state_norm; cbn [wp]
  | |- wp _ _ (Throw _) _ _ _ => seq_state_norm; cbn [wp]
  | |- wp _ _ (match ?x with _ => _ end) _ _ _ => destruct x eqn:?
  | |- wp _ _ (if ?x then _ else _) _ _ _ => destruct x eqn:?
  end.

Ltac seq_open :=
  unfold once_disconnect, startHeartbeat, setTimeout;
  unfold log; unfold modify, get, await, sleep, deref, Common.iterable.

Lemma Part000_connect_seq this s :
  writeChar s = None ->
  wp keeps_handle_inv eq (Part000.connectDevice this)
     (fun _ s' => handle_implies_connected s')
     (fun _ s' => handle_implies_connected s') s.
Proof.
  intros Hw. destruct s as [c sw w n hb d ls ts iv nt tr].
  cbn [writeChar] in Hw. subst. destruct hb.
  all: unfold Part000.connectDevice; seq_open; repeat seq_step.
Qed.

(** A task that leaves the connection fields alone keeps the invariant. *)
Lemma wp_keeps_handle_inv {A : Type} (p : Prog A) s :
  handle_implies_connected s ->
  wp (keeps isConnected) eq p (fun _ _ => True) (fun _ _ => True) s ->
  wp (keeps writeChar) eq p (fun _ _ => True) (fun _ _ => True) s ->
  wp keeps_handle_inv eq p
     (fun _ s' => handle_implies_connected s')
     (fun _ s' => handle_implies_connected s') s.
Proof.
  revert s. induction p as [a|e|k IH|s1 k IH|c k IH|ms k IH]; intros s Hi H1 H2;
    cbn [wp] in *.
  - exact Hi.
  - exact Hi.
  - apply IH; assumption.
  - destruct H1 as [G1 H1], H2 as [G2 H2].
    assert (Hi' : handle_implies_connected s1)
      by (apply (@hic_ext s _ G1 G2); exact Hi).
    split; [exact Hi'|]. apply IH; assumption.
  - intros r s' <-. destruct (H1 r s eq_refl) as [G1 K1].
    destruct (H2 r s eq_refl) as [G2 K2].
    assert (Hi' : handle_implies_connected (record (Called c r) s))
      by (apply (@hic_ext s _ G1 G2); exact Hi).
    split; [exact Hi'|]. apply IH; assumption.
  - intros s' <-. destruct (H1 s eq_refl) as [G1 K1].
    destruct (H2 s eq_refl) as [G2 K2].
    assert (Hi' : handle_implies_connected (record (Slept ms) s))
      by (apply (@hic_ext s _ G1 G2); exact Hi).
    split; [exact Hi'|]. apply IH; assumption.
Qed.

Lemma Part000_push_keeps {B : Type} (f : State -> B) this :
  (forall e s, f (record e s) = f s) ->
  (forall b s, f (set_isSwitchOn b s) = f s) ->
  (forall s, f (clear_heartbeat s) = f s) ->
  (forall s, f (set_interval s) = f s) ->
  safe (keeps f) eq (Part000.push this).
Proof.
  intros H1 H2 H3 H4. unfold Part000.push.
  safe_auto ltac:(unfold keeps; auto).
  apply write_loop_keeps. exact H1.
Qed.

Lemma clear_heartbeat_fields s :
  isConnected (clear_heartbeat s) = isConnected s /\
  writeChar (clear_heartbeat s) = writeChar s.
Proof. unfold clear_heartbeat. destruct (heartbeatTimer s); split; reflexivity. Qed.

Lemma Part000_push_seq this s :
  handle_implies_connected s ->
  wp keeps_handle_inv eq (Part000.push this)
     (fun _ s' => handle_implies_connected s')
     (fun _ s' => handle_implies_connected s') s.
Proof.
  intros Hi. apply wp_keeps_handle_inv; [exact Hi| |].
  - apply Part000_push_keeps; try reflexivity. apply clear_heartbeat_fields.
  - apply Part000_push_keeps; try reflexivity. apply clear_heartbeat_fields.
Qed.

Lemma not_ready_no_handle s :
  handle_implies_connected s -> not_ready s = true -> writeChar s = None.
Proof.
  unfold handle_implies_connected, not_ready.
  destruct (isConnected s), (writeChar s); cbn; intros H1 H2;
    try reflexivity; try discriminate H2. discriminate (H1 eq_refl).
Qed.

Lemma Part000_handler_seq this value s :
  handle_implies_connected s ->
  wp keeps_handle_inv eq (Part000.handleSetOn this value)
     (fun _ s' => handle_implies_connected s')
     (fun _ s' => handle_implies_connected s') s.
Proof.
  intros Hi. unfold Part000.handleSetOn. destruct value; cbn [negb]; [|exact Hi].
  apply wp_bind. apply wp_try_catch. apply wp_bind. unfold get at 1. cbn [wp].
  destruct (not_ready s) eqn:Hn.
  - apply wp_bind. apply wp_bind. unfold log, modify. cbn [wp].
    split; [apply (@hic_ext s); [reflexivity|reflexivity|exact Hi]|].
    eapply wp_mono; [| |apply Part000_connect_seq].
    + cbv beta. intros _ s1 H1. eapply wp_mono; [| |apply Part000_push_seq; exact H1].
      * cbv beta. intros _ s2 H2. seq_open. repeat seq_step.
      * cbv beta. intros e s2 H2. seq_open. repeat seq_step.
    + cbv beta. intros e s1 H1. seq_open. repeat seq_step.
    + cbn [writeChar record]. apply not_ready_no_handle; assumption.
  - apply wp_bind. cbn [wp].
    eapply wp_mono; [| |apply Part000_push_seq; exact Hi].
    + cbv beta. intros _ s2 H2. seq_open. repeat seq_step.
    + cbv beta. intros e s2 H2. seq_open. repeat seq_step.
Qed.

Lemma Part000_scan_devices_seq this addrs s :
  writeChar s = None ->
  wp keeps_handle_inv eq
     (Common.scan_devices this (Part000.connectDevice this) addrs)
     (fun _ s' => handle_implies_connected s')
     (fun _ s' => handle_implies_connected s') s.
Proof.
  intros Hw. destruct s as [c sw w n hb d ls ts iv nt tr].
  cbn [writeChar] in Hw. subst.
  induction addrs as [|addr rest IH]; cbn [Common.scan_devices].
  - apply hic_no_handle.
  - destruct (Mac.matches addr (macAddress this)); [|exact IH].
    seq_open. repeat seq_step.
    apply Part000_connect_seq; reflexivity.
Qed.

Lemma Part000_scan_turn_seq this s :
  handle_implies_connected s ->
  wp keeps_handle_inv eq
     (Common.scan_turn this (Part000.connectDevice this))
     (fun _ s' => handle_implies_connected s')
     (fun _ s' => handle_implies_connected s') s.
Proof.
  intros Hi. destruct s as [c sw w n hb d ls ts iv nt tr].
  unfold Common.scan_turn. seq_open. seq_step. seq_step.
  destruct c; cbn [negb]; [exact Hi|].
  assert (w = None) by (destruct w; [discriminate (Hi eq_refl)|reflexivity]). subst.
  repeat seq_step.
  all: eapply wp_mono; [| |apply Part000_scan_devices_seq; reflexivity];
    cbv beta; [auto|]; intros e0 s1 H1; split; seq_side.
Qed.

Lemma Part000_loop_seq this turns s :
  handle_implies_connected s ->
  wp keeps_handle_inv eq (Part000.startScanningLoop this turns)
     (fun _ s' => handle_implies_connected s')
     (fun _ s' => handle_implies_connected s') s.
Proof.
  unfold Part000.startScanningLoop.
  revert s. induction turns as [|n IH]; intros s Hi; cbn [Common.scanning_loop].
  - exact Hi.
  - apply wp_bind.
    eapply wp_mono; [| |apply Part000_scan_turn_seq; exact Hi]; cbv beta; [|auto].
    intros _ s1 H1. apply wp_bind. unfold sleep. cbn [wp].
    intros s2 <-.
    assert (HI' : handle_implies_connected (record (Slept Part000.RECONNECT_DELAY_MS) s1))
      by (apply (@hic_ext s1); [reflexivity|reflexivity|exact H1]).
    split; [exact HI'|]. apply IH. exact HI'.
Qed.

Lemma seq_invariant {A : Type} (p : Prog A) rs s :
  handle_implies_connected s ->
  wp keeps_handle_inv eq p
     (fun _ s' => handle_implies_connected s')
     (fun _ s' => handle_implies_connected s') s ->
  Forall handle_implies_connected (observable p rs s).
Proof.
  intros Hi Hw.
  destruct (@wp_exec keeps_handle_inv eq (@eq_refl State)
              (fun a b c _ H => H) A p _ _ rs s s Hi Hw) as (_ & H & _).
  exact H.
Qed.

(* ----------------------------------------------------------------- *)
(** *** The write handle and the connected flag *)

(** C7 (amended). In index.js the write handle is set only while
    [isConnected] is true in every state the event loop can reach from
    construction, whatever the interleaving of the scanning loop, the
    activations, the timers and the disconnect events. In part_000 the
    same holds after construction and is kept, at every suspension point
    and at the end, by an activation and by the scanning loop when each
    runs with no other task interleaved. In both files the disconnect
    listener clears [isConnected] and the write handle together. *)
Theorem C7_write_handle_only_while_connected (this : Accessory) :
  (forall turns acts sys,
      run (IndexJs.handleSetOn this) IndexJs.on_disconnect acts
          (boot (IndexJs.initNodeBle this turns)) = Some sys ->
      handle_implies_connected (shared sys)) /\
  handle_implies_connected fresh /\
  (forall value rs s,
      handle_implies_connected s ->
      Forall handle_implies_connected
             (observable (Part000.handleSetOn this value) rs s)) /\
  (forall turns rs s,
      handle_implies_connected s ->
      Forall handle_implies_connected
             (observable (Part000.startScanningLoop this turns) rs s)) /\
  (forall on_disconnect s,
      In on_disconnect [IndexJs.on_disconnect; Part000.on_disconnect] ->
      isConnected (on_disconnect s) = false /\ writeChar (on_disconnect s) = None).
Proof.
  split; [|split; [|split; [|split]]].
  - intros turns acts sys Hr.
    destruct (IndexJs_run_inv this acts (IndexJs_boot_inv this turns) Hr) as [[H _] _].
    exact H.
  - intros H. discriminate H.
  - intros value rs s Hi. apply seq_invariant; [exact Hi|].
    apply Part000_handler_seq. exact Hi.
  - intros turns rs s Hi. apply seq_invariant; [exact Hi|].
    apply Part000_loop_seq. exact Hi.
  - intros on_disconnect s Hv. both_variants Hv.
    + split; reflexivity.
    + unfold Part000.on_disconnect. destruct (clear_heartbeat_fields
        (set_writeChar None (set_isConnected false
           (record (Logged warn ConnectionLost) s)))) as [H1 H2].
      rewrite H1, H2. split; reflexivity.
Qed.

(** C7 as stated fails on part_000: when an activation arrives while the
    scanning loop is in its GATT settle wait, two connect sequences
    overlap; the loop's sets the write handle, the activation's then
    fails and resets [isConnected] alone. *)
Lemma C7_part000_overlapping_connects :
  exists sys,
    run (Part000.handleSetOn Sample.bot) Part000.on_disconnect Sample.race
        (boot (Part000.initNodeBle Sample.bot 1)) = Some sys /\
    writeChar (shared sys) = Some 5 /\
    isConnected (shared sys) = false /\
    ~ handle_implies_connected (shared sys).
Proof.
  eexists. split; [vm_compute; reflexivity|].
  split; [reflexivity|]. split; [reflexivity|].
  intros H. discriminate (H eq_refl).
Qed.

(* ----------------------------------------------------------------- *)
(** *** index.js: the scanning loop at its GATT settle wait *)

Lemma wait_guarantee_more s s' l :
  trace s' = trace s ++ l ->
  l <> [Slept CONFIG.GATT_WAIT_MS] \/ (listeners s = [] /\ isConnected s = true) ->
  conn_inv s' -> wait_guarantee s s'.
Proof.
  intros Ht Hl Hi. split; [exact Hi|].
  rewrite (@new_events_app s s' l Ht). intros ->.
  destruct Hl as [Hl|Hl]; [contradiction Hl; reflexivity|exact Hl].
Qed.

Lemma wait_guarantee_same s s' :
  trace s' = trace s -> conn_inv s' -> wait_guarantee s s'.
Proof.
  intros Ht Hi. apply (@wait_guarantee_more s s' []); [|left; discriminate|exact Hi].
  rewrite app_nil_r. exact Ht.
Qed.

Ltac wait_side :=
  first [ apply wait_guarantee_same; [reflexivity|loop_side]
        | eapply wait_guarantee_more;
          [ reflexivity
          | first [ left; discriminate | right; split; reflexivity ]
          | loop_side ] ].

Ltac wait_step :=
  lazymatch goal with
  | |- wait_guarantee _ _ => wait_side
  | _ => wp_step
  end.

Lemma IndexJs_connect_wait this s :
  writeChar s = None -> listeners s = [] ->
  wp wait_guarantee loop_rely (IndexJs.connectDevice this)
     (fun _ s' => conn_inv s') (fun _ s' => conn_inv s') s.
Proof.
  intros Hw Hl. destruct s as [c sw w n hb d ls ts iv nt tr].
  cbn [writeChar listeners] in *. subst.
  unfold IndexJs.connectDevice. wp_open.
  repeat wait_step.
Qed.

Lemma IndexJs_scan_devices_wait this addrs s :
  writeChar s = None -> listeners s = [] ->
  wp wait_guarantee loop_rely
     (Common.scan_devices this (IndexJs.connectDevice this) addrs)
     (fun _ s' => conn_inv s') (fun _ s' => conn_inv s') s.
Proof.
  intros Hw Hl. destruct s as [c sw w n hb d ls ts iv nt tr].
  cbn [writeChar listeners] in *. subst.
  induction addrs as [|addr rest IH]; cbn [Common.scan_devices].
  - apply conn_inv_quiet.
  - destruct (Mac.matches addr (macAddress this)); [|exact IH].
    wp_open. repeat wait_step.
    apply IndexJs_connect_wait; reflexivity.
Qed.

Lemma IndexJs_scan_turn_wait this s :
  conn_inv s ->
  wp wait_guarantee loop_rely
     (Common.scan_turn this (IndexJs.connectDevice this))
     (fun _ s' => conn_inv s') (fun _ s' => conn_inv s') s.
Proof.
  intros Hi. destruct s as [c sw w n hb d ls ts iv nt tr].
  unfold Common.scan_turn. wp_open. wait_step. wait_step.
  destruct c; cbn [negb]; [exact Hi|].
  apply conn_inv_disconnected in Hi. destruct Hi as [-> ->].
  repeat wait_step.
  all: eapply wp_mono; [| |apply IndexJs_scan_devices_wait; reflexivity];
    cbv beta; [auto|]; intros e0 s1 H1; split; [wait_side|loop_side].
Qed.

Lemma IndexJs_loop_wait this turns s :
  conn_inv s ->
  wp wait_guarantee loop_rely (IndexJs.startScanningLoop this turns)
     (fun _ s' => conn_inv s') (fun _ s' => conn_inv s') s.
Proof.
  unfold IndexJs.startScanningLoop.
  revert s. induction turns as [|n IH]; intros s Hi; cbn [Common.scanning_loop].
  - exact Hi.
  - apply wp_bind.
    eapply wp_mono; [| |apply IndexJs_scan_turn_wait; exact Hi]; cbv beta; [|auto].
    intros _ s1 _. apply wp_bind. unfold sleep. cbn [wp].
    intros s2 (HI & _).
    assert (HI' : conn_inv (record (Slept IndexJs.RECONNECT_DELAY_MS) s2))
      by (eapply conn_inv_ext; [| | |exact HI]; reflexivity).
    split; [|apply IH; exact HI'].
    apply (@wait_guarantee_more s2 _ [Slept IndexJs.RECONNECT_DELAY_MS]);
      [reflexivity|left; discriminate|exact HI'].
Qed.

Lemma IndexJs_init_wait this turns :
  wp wait_guarantee loop_rely (IndexJs.initNodeBle this turns)
     (fun _ s' => conn_inv s') (fun _ s' => conn_inv s') fresh.
Proof.
  unfold IndexJs.initNodeBle, Common.init_ble, fresh. wp_open.
  repeat wait_step.
  apply IndexJs_loop_wait. apply conn_inv_quiet.
Qed.

Lemma wait_guarantee_keeps (a b c : State) :
  conn_inv b -> wait_guarantee b c -> conn_inv c.
Proof. intros _ [H _]. exact H. Qed.

(** The scanning loop is resumed. *)
Lemma wait_resume p s s' p'
      (f : Prog unit -> State -> option (State * Prog unit)) :
  (f = wake \/ exists r, f = settle r) ->
  wait_task_ok p s -> f p s = Some (s', p') ->
  conn_inv s' /\ wait_task_ok p' s'.
Proof.
  intros Hf (s0 & Hr & Hp) Hs.
  destruct Hf as [->|[r ->]]; destruct p as [a|e|k|s1 k|c k|ms k];
    try discriminate Hs; cbn [settle wake] in Hs; inversion Hs as [Hadv]; clear Hs;
    cbn [wp] in Hp.
  - destruct (Hp s Hr) as [Hg Hw]. destruct Hg as [Hg _].
    destruct (@wp_advance wait_guarantee loop_rely unit (fun _ x => conn_inv x)
                k _ _ s _ wait_guarantee_keeps Hg Hw) as [H1 H2].
    rewrite Hadv in H1, H2. cbn [fst snd] in H1, H2.
    split; [exact H1|]. exists s'. split; [apply loop_rely_refl; exact H1|exact H2].
  - destruct (Hp r s Hr) as [Hg Hw]. destruct Hg as [Hg _].
    destruct (@wp_advance wait_guarantee loop_rely unit (fun _ x => conn_inv x)
                (k r) _ _ s _ wait_guarantee_keeps Hg Hw) as [H1 H2].
    rewrite Hadv in H1, H2. cbn [fst snd] in H1, H2.
    split; [exact H1|]. exists s'. split; [apply loop_rely_refl; exact H1|exact H2].
Qed.

Lemma wait_inv_passive s loop s' others' :
  conn_inv s -> wait_task_ok loop s -> passive s s' ->
  Forall passive_task_ok others' ->
  wait_inv {| shared := s'; tasks := loop :: others' |}.
Proof.
  intros HI (s0 & Hr & Hw) Hp Ho. split; cbn [shared tasks].
  - exact (conn_inv_passive Hp HI).
  - exists loop, others'. split; [reflexivity|]. split; [|exact Ho].
    exists s0. split; [exact (loop_rely_passive Hr Hp)|exact Hw].
Qed.

Lemma wait_spawn_passive p sys :
  safe passive (fun _ _ => True) p -> wait_inv sys -> wait_inv (spawn p sys).
Proof.
  intros Hp (HI & loop & others & Ht & Hl & Ho).
  unfold spawn.
  destruct (@wp_advance passive (fun _ _ => True) unit passive p _ _
              (shared sys) (shared sys) passive_trans
              (passive_refl _) (Hp (shared sys))) as [H1 H2].
  destruct (advance p (shared sys)) as [s' p'] eqn:Ha. cbn [fst snd] in H1, H2.
  rewrite Ht. cbn [app].
  apply (wait_inv_passive HI Hl H1).
  apply Forall_app. split; [exact Ho|]. constructor; [|constructor].
  eexists; exact H2.
Qed.

Lemma IndexJs_wait_step this a sys sys' :
  wait_inv sys ->
  step (IndexJs.handleSetOn this) IndexJs.on_disconnect a sys = Some sys' ->
  wait_inv sys'.
Proof.
  intros Hinv Hs. pose proof Hinv as (HI & loop & others & Ht & Hl & Ho).
  destruct a as [i r|i|d|i|id|value]; cbn [step] in Hs.
  - unfold resume in Hs. rewrite Ht in Hs.
    destruct i as [|j]; cbn [nth_error] in Hs.
    + destruct (settle r loop (shared sys)) as [[s' p']|] eqn:Hf; [|discriminate Hs].
      inversion Hs; subst sys'; clear Hs.
      destruct (@wait_resume loop _ _ _ (settle r) (or_intror (ex_intro _ r eq_refl)) Hl Hf)
        as [H1 H2].
      split; [exact H1|]. exists p', others. cbn. auto.
    + destruct (nth_error others j) as [p|] eqn:Hn; [|discriminate Hs].
      destruct (settle r p (shared sys)) as [[s' p']|] eqn:Hf; [|discriminate Hs].
      inversion Hs; subst sys'; clear Hs.
      destruct (@passive_resume p _ _ _ (settle r) (or_intror (ex_intro _ r eq_refl))
                  (Forall_nth_error _ Ho Hn) Hf) as [H1 H2].
      cbn [update]. apply (wait_inv_passive HI Hl H1).
      apply Forall_update; assumption.
  - unfold resume in Hs. rewrite Ht in Hs.
    destruct i as [|j]; cbn [nth_error] in Hs.
    + destruct (wake loop (shared sys)) as [[s' p']|] eqn:Hf; [|discriminate Hs].
      inversion Hs; subst sys'; clear Hs.
      destruct (@wait_resume loop _ _ _ wake (or_introl eq_refl) Hl Hf) as [H1 H2].
      split; [exact H1|]. exists p', others. cbn. auto.
    + destruct (nth_error others j) as [p|] eqn:Hn; [|discriminate Hs].
      destruct (wake p (shared sys)) as [[s' p']|] eqn:Hf; [|discriminate Hs].
      inversion Hs; subst sys'; clear Hs.
      destruct (@passive_resume p _ _ _ wake (or_introl eq_refl)
                  (Forall_nth_error _ Ho Hn) Hf) as [H1 H2].
      cbn [update]. apply (wait_inv_passive HI Hl H1).
      apply Forall_update; assumption.
  - inversion Hs; subst sys'; clear Hs.
    destruct (IndexJs_disconnect_event d HI) as (H1 & H2 & H3).
    split; [exact H1|]. exists loop, others. cbn [shared tasks].
    split; [exact Ht|]. split; [|exact Ho].
    destruct Hl as (s0 & (K1 & K2 & K3) & Hw). exists s0. split; [|exact Hw].
    split; [exact H1|]. split; [congruence|].
    intros Hq. destruct (K3 Hq) as (L1 & L2 & L3).
    destruct (H3 L3) as (M1 & M2 & M3). repeat split; congruence.
  - destruct (nth_error (timeouts (shared sys)) i) as [[ms cb]|]; [|discriminate Hs].
    inversion Hs; subst sys'; clear Hs. rewrite Ht.
    apply (wait_inv_passive HI Hl (fire_passive cb _ _) Ho).
  - destruct (existsb (Nat.eqb id) (intervals (shared sys))); [|discriminate Hs].
    inversion Hs; subst sys'; clear Hs.
    apply wait_spawn_passive; [apply heartbeat_tick_passive|exact Hinv].
  - inversion Hs; subst sys'; clear Hs.
    apply wait_spawn_passive; [apply IndexJs_handler_passive|exact Hinv].
Qed.

Lemma IndexJs_wait_boot this turns : wait_inv (boot (IndexJs.initNodeBle this turns)).
Proof.
  unfold boot, spawn. cbn [shared tasks app].
  destruct (@wp_advance wait_guarantee loop_rely unit (fun _ x => conn_inv x)
              (IndexJs.initNodeBle this turns) _ _ fresh fresh wait_guarantee_keeps
              (conn_inv_quiet _ _ _ _ _ _ _ _ _)
              (IndexJs_init_wait this turns)) as [H1 H2].
  destruct (advance (IndexJs.initNodeBle this turns) fresh) as [s' p'].
  cbn [fst snd] in H1, H2. split; [exact H1|].
  exists p', []. cbn [shared tasks]. split; [reflexivity|]. split; [|constructor].
  exists s'. split; [apply loop_rely_refl; exact H1|exact H2].
Qed.

Lemma IndexJs_wait_run this acts sys sys' :
  wait_inv sys ->
  run (IndexJs.handleSetOn this) IndexJs.on_disconnect acts sys = Some sys' ->
  wait_inv sys'.
Proof.
  revert sys. induction acts as [|a acts IH]; intros sys Hi Hr; cbn [run] in Hr.
  - inversion Hr; subst; exact Hi.
  - destruct (step (IndexJs.handleSetOn this) IndexJs.on_disconnect a sys)
      as [sys1|] eqn:Hs; [|discriminate Hr].
    apply (IH sys1); [|exact Hr]. exact (IndexJs_wait_step _ _ Hi Hs).
Qed.

(** While the scanning loop of index.js is in its settle wait the
    controller is marked connected and no listener is pending. *)
Lemma IndexJs_settle_wait this turns acts sys k others :
  run (IndexJs.handleSetOn this) IndexJs.on_disconnect acts
      (boot (IndexJs.initNodeBle this turns)) = Some sys ->
  tasks sys = Sleep CONFIG.GATT_WAIT_MS k :: others ->
  listeners (shared sys) = [] /\ isConnected (shared sys) = true.
Proof.
  intros Hr Ht.
  destruct (IndexJs_wait_run this acts (IndexJs_wait_boot this turns) Hr)
    as (_ & loop & others' & Ht' & (s0 & Hrel & Hw) & _).
  rewrite Ht in Ht'. inversion Ht'; subst loop others'. cbn [wp] in Hw.
  destruct (Hw (shared sys) Hrel) as [[_ Hg] _].
  apply Hg. apply new_events_app. reflexivity.
Qed.

(** A ['disconnect'] of a device with a pending listener is observed. *)
Lemma fold_observed (body : State -> State) (P : State -> Prop) d l s :
  (forall x, P (body x)) ->
  (In d l \/ P s) ->
  P (fold_left (fun s' x => if Nat.eqb x d then body s' else s') l s).
Proof.
  intros Hb. revert s. induction l as [|x l IH]; intros s H; cbn [fold_left].
  - destruct H as [[]|H]; exact H.
  - apply IH. destruct (Nat.eqb_spec x d) as [->|Hx].
    + right. apply Hb.
    + destruct H as [[H|H]|H]; [contradiction Hx|left; exact H|right; exact H].
Qed.

Lemma emit_disconnect_heard on_disconnect d s :
  In on_disconnect [IndexJs.on_disconnect; Part000.on_disconnect] ->
  In d (listeners s) ->
  isConnected (emit_disconnect on_disconnect d s) = false /\
  writeChar (emit_disconnect on_disconnect d s) = None.
Proof.
  intros Hv Hd. unfold emit_disconnect.
  apply (@fold_observed on_disconnect
           (fun x => isConnected x = false /\ writeChar x = None));
    [|left; exact Hd].
  intros x. both_variants Hv.
  - split; reflexivity.
  - unfold Part000.on_disconnect.
    destruct (clear_heartbeat_fields
                (set_writeChar None (set_isConnected false
                   (record (Logged warn ConnectionLost) x)))) as [H1 H2].
    rewrite H1, H2. split; reflexivity.
Qed.

(** C10 (amended). In every run of the connect sequence the one-shot
    disconnect listener is registered only after the write characteristic
    has been resolved. So when the transport connect succeeds and the
    resolution of the service or of the characteristic fails, no listener
    is installed for that connection (and the sequence ends with
    [isConnected = false]). At the GATT settle wait the controller is
    marked connected with no listener of this connection yet: a
    ['disconnect'] of the device arriving then changes nothing in the
    controller exactly when no listener of another connect sequence is
    pending on the device, and is observed otherwise. In index.js, where
    only the scanning loop connects, none is ever pending while the loop
    is in its settle wait, whatever the interleaving. *)
Theorem C10_listener_registered_after_write_characteristic
        (this : Accessory) (connectDevice : Prog unit)
        (on_disconnect : State -> State) :
  In (connectDevice, on_disconnect)
     [(IndexJs.connectDevice this, IndexJs.on_disconnect);
      (Part000.connectDevice this, Part000.on_disconnect)] ->
  (forall rs s,
      listener_after_resolution (writeUuid this) false
        (new_events s (final (exec connectDevice rs s))) = true) /\
  (forall s d v g e rest,
      device s = Some d ->
      let s' := final (exec connectDevice
                            (Resolved v :: Resolved (VObj g) :: Rejected e :: rest) s) in
      listeners s' = listeners s /\
      existsb is_listener_added (new_events s s') = false /\
      isConnected s' = false) /\
  (forall s d v g sv e rest,
      device s = Some d ->
      let s' := final (exec connectDevice
                            (Resolved v :: Resolved (VObj g) :: Resolved (VObj sv)
                                      :: Rejected e :: rest) s) in
      listeners s' = listeners s /\
      existsb is_listener_added (new_events s s') = false /\
      isConnected s' = false) /\
  (forall s d v g,
      device s = Some d ->
      exists s3 k,
        replay [Resolved v; Resolved (VObj g)] (advance connectDevice s)
        = Some (s3, Sleep CONFIG.GATT_WAIT_MS k) /\
        isConnected s3 = true /\
        listeners s3 = listeners s /\
        (~ In d (listeners s) -> emit_disconnect on_disconnect d s3 = s3) /\
        (In d (listeners s) ->
         isConnected (emit_disconnect on_disconnect d s3) = false /\
         writeChar (emit_disconnect on_disconnect d s3) = None)) /\
  (forall turns acts sys k others,
      run (IndexJs.handleSetOn this) IndexJs.on_disconnect acts
          (boot (IndexJs.initNodeBle this turns)) = Some sys ->
      tasks sys = Sleep CONFIG.GATT_WAIT_MS k :: others ->
      isConnected (shared sys) = true /\
      forall d, emit_disconnect IndexJs.on_disconnect d (shared sys) = shared sys).
Proof.
  intros Hv.
  assert (H5 : forall turns acts sys k others,
             run (IndexJs.handleSetOn this) IndexJs.on_disconnect acts
                 (boot (IndexJs.initNodeBle this turns)) = Some sys ->
             tasks sys = Sleep CONFIG.GATT_WAIT_MS k :: others ->
             isConnected (shared sys) = true /\
             forall d, emit_disconnect IndexJs.on_disconnect d (shared sys)
                       = shared sys).
  { intros turns acts sys k others Hr Ht.
    destruct (IndexJs_settle_wait this turns acts Hr Ht) as [Hl Hc].
    split; [exact Hc|]. intros d. apply emit_disconnect_unheard.
    rewrite Hl. intros []. }
  destruct Hv as [Hv|[Hv|[]]]; inversion Hv; subst; clear Hv;
    (split; [|split; [|split; [|split; [|exact H5]]]]).
  - intros rs s. apply IndexJs_listener_after_resolution.
  - intros s d v g e rest Hd. open_state s. cbv zeta. failed_resolution_leaf.
  - intros s d v g sv e rest Hd. open_state s. cbv zeta. failed_resolution_leaf.
  - intros s d v g Hd. open_state s. run_replay.
    eexists. eexists. split; [reflexivity|]. split; [reflexivity|].
    split; [reflexivity|]. split; intros Hn.
    + apply emit_disconnect_unheard. exact Hn.
    + apply emit_disconnect_heard; [left; reflexivity|exact Hn].
  - intros rs s. apply Part000_listener_after_resolution.
  - intros s d v g e rest Hd. open_state s. cbv zeta. failed_resolution_leaf.
  - intros s d v g sv e rest Hd. open_state s. cbv zeta. failed_resolution_leaf.
  - intros s d v g Hd. open_state s. run_replay.
    eexists. eexists. split; [reflexivity|]. split; [reflexivity|].
    split; [reflexivity|]. split; intros Hn.
    + apply emit_disconnect_unheard. exact Hn.
    + apply emit_disconnect_heard; [right; left; reflexivity|exact Hn].
Qed.

Lemma C10_sample_settle_wait :
  (exists s3 k,
      replay [Resolved VUnit; Resolved (VObj 2)]
             (advance (Part000.connectDevice Sample.bot) Sample.found)
      = Some (s3, Sleep CONFIG.GATT_WAIT_MS k) /\
      isConnected s3 = true /\
      listeners s3 = listeners Sample.found /\
      (~ In 1 (listeners Sample.found) ->
       emit_disconnect Part000.on_disconnect 1 s3 = s3) /\
      (In 1 (listeners Sample.found) ->
       isConnected (emit_disconnect Part000.on_disconnect 1 s3) = false /\
       writeChar (emit_disconnect Part000.on_disconnect 1 s3) = None)) /\
  (exists sys k others,
      run (IndexJs.handleSetOn Sample.bot) IndexJs.on_disconnect
          (firstn 9 Sample.race)
          (boot (IndexJs.initNodeBle Sample.bot 1)) = Some sys /\
      tasks sys = Sleep CONFIG.GATT_WAIT_MS k :: others /\
      isConnected (shared sys) = true /\
      forall d, emit_disconnect IndexJs.on_disconnect d (shared sys) = shared sys).
Proof.
  split.
  - apply (proj1 (proj2 (proj2 (proj2
             (@C10_listener_registered_after_write_characteristic
                Sample.bot (Part000.connectDevice Sample.bot) Part000.on_disconnect
                (or_intror (or_introl eq_refl)))))) Sample.found 1 VUnit 2).
    reflexivity.
  - eexists. eexists. eexists. split; [vm_compute; reflexivity|].
    split; [reflexivity|].
    eapply (proj2 (proj2 (proj2 (proj2
              (@C10_listener_registered_after_write_characteristic
                 Sample.bot (IndexJs.connectDevice Sample.bot) IndexJs.on_disconnect
                 (or_introl eq_refl))))) 1 (firstn 9 Sample.race)).
    + vm_compute. reflexivity.
    + reflexivity.
Defined.

(** C10 as stated fails on part_000: an activation arrives while the
    scanning loop is in its connect sequence and starts its own on the
    same device; the loop's completes and registers its listener while
    the activation's is in its settle wait. A ['disconnect'] arriving then
    is observed: the controller is marked disconnected and loses its
    write handle. *)
Lemma C10_part000_disconnect_during_settle_wait :
  exists sys k,
    run (Part000.handleSetOn Sample.bot) Part000.on_disconnect
        (firstn 17 Sample.race)
        (boot (Part000.initNodeBle Sample.bot 1)) = Some sys /\
    nth_error (tasks sys) 1 = Some (Sleep CONFIG.GATT_WAIT_MS k) /\
    isConnected (shared sys) = true /\
    writeChar (shared sys) = Some 5 /\
    listeners (shared sys) = [1] /\
    isConnected (emit_disconnect Part000.on_disconnect 1 (shared sys)) = false /\
    writeChar (emit_disconnect Part000.on_disconnect 1 (shared sys)) = None /\
    existsb (fun e => match e with Logged warn ConnectionLost => true | _ => false end)
            (new_events (shared sys)
               (emit_disconnect Part000.on_disconnect 1 (shared sys))) = true.
Proof.
  eexists. eexists. split; [vm_compute; reflexivity|].
  split; [reflexivity|]. repeat split; reflexivity.
Qed.

(* ================================================================= *)
(** * Further properties of the code *)

(* ----------------------------------------------------------------- *)
(** *** The normalised hardware address *)

Lemma all_chars_filter p s : all_chars p (Text.filter p s) = true.
Proof.
  induction s as [|c s IH]; cbn; [reflexivity|].
  destruct (p c) eqn:Hp; cbn; [rewrite Hp; exact IH|exact IH].
Qed.

Lemma lower_char_kept c : Text.in_0_9a_f c = true -> Text.lower_char c = c.
Proof.
  destruct c as [[] [] [] [] [] [] [] []]; intros H;
    first [reflexivity | discriminate H].
Qed.

Lemma filter_map_kept s :
  all_chars Text.in_0_9a_f s = true ->
  Text.filter Text.in_0_9a_f (Text.map Text.lower_char s) = s.
Proof.
  induction s as [|c s IH]; cbn; [reflexivity|].
  intros H. apply andb_prop in H. destruct H as [Hc Hs].
  rewrite (lower_char_kept _ Hc), Hc, (IH Hs). reflexivity.
Qed.

(** X1. The address the constructor stores consists of the characters
    0-9 and a-f only, whatever the configured text (none when the field
    is absent), and normalising it again changes nothing. *)
Theorem X1_normalized_address_is_lower_hex (mac_address : option string) :
  all_chars Text.in_0_9a_f (Mac.normalize mac_address) = true /\
  Mac.normalize (Some (Mac.normalize mac_address)) = Mac.normalize mac_address /\
  Mac.normalize None = EmptyString.
Proof.
  split; [|split].
  - apply all_chars_filter.
  - unfold Mac.normalize at 1. cbn [Text.or_empty].
    apply filter_map_kept. apply all_chars_filter.
  - reflexivity.
Qed.








(* ----------------------------------------------------------------- *)
(** *** The scanning loop *)

(** X3. The discovery loop takes the first discovered address that
    matches, resolves that device and runs the connect sequence on it;
    the addresses after it are not looked at ([break]). When no address
    matches it does nothing at all. *)
Theorem X3_first_matching_address_wins
        (this : Accessory) (connectDevice : Prog unit)
        (before after : list string) (addr : string) :
  (forall a, In a before -> Mac.matches a (macAddress this) = false) ->
  (Mac.matches addr (macAddress this) = true ->
   Common.scan_devices this connectDevice (before ++ addr :: after) =
   (d <- await (GetDevice addr) ;;
    modify (set_device (obj_of d)) ;;
    connectDevice)%prog) /\
  Common.scan_devices this connectDevice before = Ret tt.
Proof.
  intros Hb. induction before as [|a l IH]; cbn [app Common.scan_devices].
  - split; [|reflexivity]. intros ->. reflexivity.
  - rewrite (Hb a (or_introl eq_refl)).
    apply IH. intros x Hx. apply Hb. right. exact Hx.
Qed.

Lemma X3_witness :
  (Mac.matches "AA:BB:CC:DD:EE:FF" (macAddress Sample.bot) = true ->
   Common.scan_devices Sample.bot (Ret tt)
     (["11:22:33:44:55:66"] ++ "AA:BB:CC:DD:EE:FF" :: ["aa:bb:cc:dd:ee:ff"]) =
   (d <- await (GetDevice "AA:BB:CC:DD:EE:FF") ;;
    modify (set_device (obj_of d)) ;;
    Ret tt)%prog) /\
  Common.scan_devices Sample.bot (Ret tt) ["11:22:33:44:55:66"] = Ret tt.
Proof.
  apply (@X3_first_matching_address_wins Sample.bot (Ret tt)
           ["11:22:33:44:55:66"] ["aa:bb:cc:dd:ee:ff"] "AA:BB:CC:DD:EE:FF").
  intros a [<-|[]]. reflexivity.
Defined.

Lemma scanning_loop_never_throws this connectDevice delay turns :
  nothrow (fun _ _ => True) eq
          (Common.scanning_loop this connectDevice delay turns).
Proof.
  induction turns as [|n IH]; cbn [Common.scanning_loop].
  - apply nothrow_ret.
  - unfold Common.scan_turn. nothrow_auto. exact IH.
Qed.

(** X4. No error of the adapter ever leaves [initNodeBle] or the scanning
    loop it starts: whatever is rejected (the adapter itself, discovery,
    the device lookup, the connect sequence, which part_000 rethrows) is
    caught inside. In both files, for any number of turns. *)
Theorem X4_scanning_never_throws
        (this : Accessory) (turns : nat) (task : Prog unit) :
  In task [IndexJs.initNodeBle this turns; Part000.initNodeBle this turns;
           IndexJs.startScanningLoop this turns;
           Part000.startScanningLoop this turns] ->
  forall rs s s' e rest, exec task rs s <> Raised s' e rest.
Proof.
  intros Hv rs s s' e rest. apply exec_nothrow.
  destruct Hv as [<-|[<-|[<-|[<-|[]]]]].
  - unfold IndexJs.initNodeBle, Common.init_ble. nothrow_auto.
    apply scanning_loop_never_throws.
  - unfold Part000.initNodeBle, Common.init_ble. nothrow_auto.
    apply scanning_loop_never_throws.
  - apply scanning_loop_never_throws.
  - apply scanning_loop_never_throws.
Qed.

Lemma X4_witness :
  match exec (Part000.startScanningLoop Sample.bot 1)
             [Sample.ok; Sample.ok; Sample.ok;
              Resolved (VAddrs ["AA:BB:CC:DD:EE:FF"]); Resolved (VObj 1); Sample.boom]
             fresh
  with
  | Raised _ _ _ => False
  | _ => True
  end.
Proof.
  destruct (exec (Part000.startScanningLoop Sample.bot 1)
                 [Sample.ok; Sample.ok; Sample.ok;
                  Resolved (VAddrs ["AA:BB:CC:DD:EE:FF"]); Resolved (VObj 1);
                  Sample.boom]
                 fresh) as [s' a rest|s' e rest|s'] eqn:Hx; [exact I| |exact I].
  apply (@X4_scanning_never_throws
           Sample.bot 1 (Part000.startScanningLoop Sample.bot 1)
           (or_intror (or_intror (or_intror (or_introl eq_refl))))
           _ _ _ _ _ Hx).
Defined.

Lemma scanning_loop_connected this connectDevice delay turns rs s :
  isConnected s = true ->
  exists s',
    exec (Common.scanning_loop this connectDevice delay turns) rs s
    = Returned s' tt rs /\
    isConnected s' = true /\
    trace s' = trace s ++ List.repeat (Slept delay) turns.
Proof.
  revert s. induction turns as [|n IH]; intros s Hc; cbn [Common.scanning_loop].
  - exists s. cbn. rewrite app_nil_r. auto.
  - unfold Common.scan_turn. rewrite exec_bind, exec_get_bind, Hc. cbn [negb].
    change (exec (Ret tt) rs s) with (@Returned unit s tt rs). cbn iota.
    rewrite exec_bind.
    change (exec (sleep delay) rs s) with (@Returned unit (record (Slept delay) s) tt rs).
    cbn iota.
    destruct (IH (record (Slept delay) s) Hc) as (s' & Hx & Hc' & Ht).
    exists s'. split; [exact Hx|]. split; [exact Hc'|].
    rewrite Ht. cbn [trace record List.repeat]. rewrite <- app_assoc. reflexivity.
Qed.

(** X5. While the controller is connected the scanning loop leaves the
    adapter alone: each turn only sleeps the reconnect delay (15000 ms in
    index.js, 5000 ms in part_000); no discovery is started and no reply
    is consumed. *)
Theorem X5_no_scan_while_connected (this : Accessory) (turns : nat)
        (rs : list Reply) (s : State) :
  isConnected s = true ->
  (exists s',
      exec (IndexJs.startScanningLoop this turns) rs s = Returned s' tt rs /\
      isConnected s' = true /\
      new_events s s' = List.repeat (Slept 15000) turns) /\
  (exists s',
      exec (Part000.startScanningLoop this turns) rs s = Returned s' tt rs /\
      isConnected s' = true /\
      new_events s s' = List.repeat (Slept 5000) turns).
Proof.
  intros Hc. split.
  - destruct (@scanning_loop_connected this (IndexJs.connectDevice this)
                IndexJs.RECONNECT_DELAY_MS turns rs s Hc) as (s' & H1 & H2 & H3).
    exists s'. split; [exact H1|]. split; [exact H2|].
    apply new_events_app. exact H3.
  - destruct (@scanning_loop_connected this (Part000.connectDevice this)
                Part000.RECONNECT_DELAY_MS turns rs s Hc) as (s' & H1 & H2 & H3).
    exists s'. split; [exact H1|]. split; [exact H2|].
    apply new_events_app. exact H3.
Qed.

Lemma X5_witness :
  exists s',
    exec (IndexJs.startScanningLoop Sample.bot 2) [Sample.ok] Sample.up
    = Returned s' tt [Sample.ok] /\
    isConnected s' = true /\
    new_events Sample.up s' = List.repeat (Slept 15000) 2.
Proof.
  apply (@X5_no_scan_while_connected Sample.bot 2 [Sample.ok] Sample.up).
  reflexivity.
Defined.

(** X6. When the default adapter cannot be obtained, [initNodeBle] logs
    the failure and ends: the scanning loop is never started, so no
    discovery, lookup or connect call is ever made. In both files. *)
Theorem X6_no_adapter_no_loop (this : Accessory) (turns : nat)
        (initNodeBle : Prog unit) :
  In initNodeBle [IndexJs.initNodeBle this turns; Part000.initNodeBle this turns] ->
  forall e rs s,
    exec initNodeBle (Rejected e :: rs) s =
    Returned (record (Logged error (InitFailed e))
                (record (Called DefaultAdapter (Rejected e)) s))
             tt rs.
Proof.
  intros Hv e rs s. both_variants Hv; reflexivity.
Qed.

Lemma X6_witness :
  exec (Part000.initNodeBle Sample.bot 3) [Sample.boom; Sample.ok] fresh =
  Returned (record (Logged error (InitFailed (AdapterError "le-connection-abort-by-local")))
              (record (Called DefaultAdapter Sample.boom) fresh))
           tt [Sample.ok].
Proof.
  apply (@X6_no_adapter_no_loop Sample.bot 3 (Part000.initNodeBle Sample.bot 3)).
  right. left. reflexivity.
Defined.

(* ----------------------------------------------------------------- *)
(** *** The connect sequence: what it leaves behind *)

Ltac outcome_leaf :=
  first [ exact I
        | reflexivity
        | left; split; [reflexivity|eexists; split; reflexivity]
        | right; repeat split; reflexivity
        | split; [reflexivity|eexists; split; reflexivity]
        | repeat split; reflexivity ].

(** X7. A connect sequence that fails leaves no listener and no new write
    handle behind and ends with [isConnected = false]: index.js swallows
    the error and returns, part_000 rethrows it. One that succeeds ends
    with [isConnected = true] and exactly one more disconnect listener,
    on the device it connected. index.js never throws from it. *)
Theorem X7_connect_outcomes (this : Accessory) (rs : list Reply) (s : State) :
  match exec (IndexJs.connectDevice this) rs s with
  | Returned s' _ _ =>
      (isConnected s' = true /\
       exists d, device s = Some d /\ listeners s' = listeners s ++ [d]) \/
      (isConnected s' = false /\ listeners s' = listeners s /\
       writeChar s' = writeChar s)
  | Raised _ _ _ => False
  | Pending s' => listeners s' = listeners s /\ writeChar s' = writeChar s
  end /\
  match exec (Part000.connectDevice this) rs s with
  | Returned s' _ _ =>
      isConnected s' = true /\
      exists d, device s = Some d /\ listeners s' = listeners s ++ [d]
  | Raised s' _ _ =>
      isConnected s' = false /\ listeners s' = listeners s /\
      writeChar s' = writeChar s
  | Pending s' => listeners s' = listeners s
  end.
Proof.
  destruct this as [nm mac su wu nu pc ph].
  destruct s as [c sw w n hb d ls ts iv nt tr].
  split; explore outcome_leaf.
Qed.

(* ----------------------------------------------------------------- *)
(** *** part_000: activation before any device was discovered *)

(** X8. In part_000 an activation that arrives before the scanning loop
    has found the device ([this.device] still undefined) enters the
    connect sequence, which throws on [this.device.connect()] before any
    adapter call is made; the activation logs the failure, schedules the
    auto-off and returns, with no reply consumed and [isSwitchOn]
    untouched. *)
Theorem X8_activation_before_discovery (this : Accessory) (rs : list Reply)
        (s : State) :
  device s = None ->
  not_ready s = true ->
  exists s',
    exec (Part000.handleSetOn this true) rs s = Returned s' tt rs /\
    new_events s s' =
      [Logged info Reconnecting; Logged info Connecting;
       Logged error (ControlFailed (TypeError "device"));
       TimeoutSet 1500 AutoOff] /\
    isConnected s' = false /\
    isSwitchOn s' = isSwitchOn s /\
    writeChar s' = writeChar s.
Proof.
  intros Hd Hn. destruct s as [c sw w n hb d ls ts iv nt tr].
  cbn [device] in Hd. subst d.
  assert (Hcw : c = false \/ w = None).
  { unfold not_ready in Hn. cbn in Hn. destruct c, w; cbn in Hn;
      try discriminate Hn; auto. }
  destruct Hcw as [->| ->]; [destruct w|destruct c];
    run_exec; eexists; (split; [reflexivity|]); events; repeat split.
Qed.

Lemma X8_witness :
  exists s',
    exec (Part000.handleSetOn Sample.bot true) [Sample.ok] fresh
    = Returned s' tt [Sample.ok] /\
    new_events fresh s' =
      [Logged info Reconnecting; Logged info Connecting;
       Logged error (ControlFailed (TypeError "device"));
       TimeoutSet 1500 AutoOff] /\
    isConnected s' = false /\
    isSwitchOn s' = isSwitchOn fresh /\
    writeChar s' = writeChar fresh.
Proof.
  apply (@X8_activation_before_discovery Sample.bot [Sample.ok] fresh); reflexivity.
Defined.

(* ----------------------------------------------------------------- *)
(** *** part_000: the heartbeat read *)

(** X9. A heartbeat tick of part_000 reads the notify characteristic only
    when the controller is connected and has one; otherwise it does
    nothing. The read is one call; whether it resolves or is rejected the
    tick returns normally and no field of the controller changes. *)
Theorem X9_heartbeat_tick_is_best_effort (rs : list Reply) (s : State) :
  (forall s' e rest, exec heartbeat_tick rs s <> Raised s' e rest) /\
  (isConnected s = false \/ notifyChar s = None ->
   exec heartbeat_tick rs s = Returned s tt rs) /\
  (forall h r rest,
      isConnected s = true -> notifyChar s = Some h -> rs = r :: rest ->
      exec heartbeat_tick rs s =
      Returned (record (Called (ReadValue h) r) s) tt rest).
Proof.
  split; [|split].
  - intros s' e rest. apply exec_nothrow. nothrow_auto.
  - unfold heartbeat_tick. rewrite exec_get_bind.
    intros [H|H]; rewrite H; [reflexivity|].
    destruct (isConnected s); reflexivity.
  - intros h r rest Hc Hn ->. unfold heartbeat_tick.
    rewrite exec_get_bind, Hc, Hn. destruct r; reflexivity.
Qed.

Lemma X9_witness :
  exec heartbeat_tick [Sample.boom] (set_notifyChar (Some 6) Sample.up) =
  Returned (record (Called (ReadValue 6) Sample.boom)
              (set_notifyChar (Some 6) Sample.up))
           tt [].
Proof.
  apply (proj2 (proj2 (X9_heartbeat_tick_is_best_effort
                         [Sample.boom] (set_notifyChar (Some 6) Sample.up)))
               6 Sample.boom []); reflexivity.
Defined.

(* ----------------------------------------------------------------- *)
(** *** The registry: its log, and the two constructors *)

Lemma IndexJs_register_lines devices :
  let '(lines, cs, err) := IndexJs.register devices in
  lines = List.map registering (firstn (List.length lines) devices) /\
  List.length lines =
    List.length cs + (match err with Some _ => 1 | None => 0 end) /\
  (err = None -> List.length cs = List.length devices).
Proof.
  induction devices as [|c l IH]; cbn [IndexJs.register].
  - repeat split.
  - destruct (IndexJs.construct c) as [ctl|e].
    + destruct (IndexJs.register l) as [[lines cs] err].
      destruct IH as (H1 & H2 & H3). cbn [List.length firstn List.map].
      split; [f_equal; exact H1|]. split; [rewrite H2; reflexivity|].
      intros He. rewrite (H3 He). reflexivity.
    + cbn. repeat split. intros H. discriminate H.
Qed.

Lemma Part000_register_lines host devices :
  let '(lines, cs, err) := Part000.register host devices in
  lines = List.map registering (firstn (List.length lines) devices) /\
  List.length cs <= List.length lines /\
  List.length lines <=
    List.length cs + (match err with Some _ => 1 | None => 0 end) /\
  (err = None -> List.length cs = List.length devices).
Proof.
  induction devices as [|c l IH]; cbn [Part000.register].
  - repeat split; cbn; lia.
  - destruct (Part000.platformAccessory host c) as [a|e];
      [|cbn; repeat split; try lia; intros H; discriminate H].
    destruct (Part000.construct c) as [ctl|e];
      [|cbn; repeat split; try lia; intros H; discriminate H].
    destruct (Part000.registerPlatformAccessories host a) as [u|e];
      [|cbn; repeat split; try lia; intros H; discriminate H].
    destruct (Part000.register host l) as [[lines cs] err].
    destruct IH as (H1 & H2 & H3 & H4). cbn [List.length firstn List.map].
    split; [f_equal; exact H1|]. split; [lia|]. split; [lia|].
    intros He. rewrite (H4 He). reflexivity.
Qed.

(** X10. [discoverDevices] logs one line per entry it reaches, in list
    order, each before the entry is constructed: the log is that of a
    prefix of the list, it has one line per controller constructed plus
    one for the entry that threw, and when nothing threw every entry has
    its controller. Without a [devices] list nothing is logged or
    constructed. *)
Theorem X10_registry_log (host : Part000.Host) (devices : list Config.t) :
  (let '(lines, cs, err) := IndexJs.discoverDevices (Some devices) in
   lines = List.map registering (firstn (List.length lines) devices) /\
   List.length lines =
     List.length cs + (match err with Some _ => 1 | None => 0 end) /\
   (err = None -> List.length cs = List.length devices)) /\
  (let '(lines, cs, err) := Part000.discoverDevices host (Some devices) in
   lines = List.map registering (firstn (List.length lines) devices) /\
   List.length cs <= List.length lines /\
   List.length lines <=
     List.length cs + (match err with Some _ => 1 | None => 0 end) /\
   (err = None -> List.length cs = List.length devices)) /\
  IndexJs.discoverDevices None = ([], [], None) /\
  Part000.discoverDevices host None = ([], [], None).
Proof.
  split; [apply IndexJs_register_lines|].
  split; [apply Part000_register_lines|].
  split; reflexivity.
Qed.

Lemma X10_witness :
  List.length
    (snd (fst (IndexJs.discoverDevices
                 (Some [Sample.config; Sample.config_without_notify])))) = 2.
Proof.
  pose proof (proj1 (X10_registry_log
                       Sample.host [Sample.config; Sample.config_without_notify]))
    as H.
  vm_compute in H. destruct H as (_ & _ & H). exact (H eq_refl).
Defined.

(** X11. Every device entry the constructor of part_000 accepts is
    accepted by the constructor of index.js, with the same fields but for
    [notifyUuid], which index.js does not read; index.js accepts an entry
    exactly when [service_uuid], [write_uuid] and [push_packet_hex] are
    present, so the entries only index.js accepts are those without
    [notify_uuid]. *)
Theorem X11_constructors_agree (config : Config.t) :
  (forall this st,
      Part000.construct config = Ok (this, st) ->
      IndexJs.construct config = Ok (without_notify this, st)) /\
  ((exists c, IndexJs.construct config = Ok c) <->
   is_some (Config.service_uuid config) && is_some (Config.write_uuid config)
   && is_some (Config.push_packet_hex config) = true) /\
  ((exists c, IndexJs.construct config = Ok c) ->
   is_some (Config.notify_uuid config) = true ->
   exists c, Part000.construct config = Ok c).
Proof.
  unfold Part000.construct, IndexJs.construct, Common.lower, Common.buffer_from_hex.
  destruct (Config.service_uuid config), (Config.write_uuid config),
    (Config.notify_uuid config), (Config.push_packet_hex config); cbn;
    (split; [|split]);
    try (intros this st H; first [discriminate H | inversion H; reflexivity]);
    try (split; intros H; first [discriminate H | reflexivity | eexists; reflexivity
                                | destruct H as [c0 H0]; discriminate H0]);
    try (intros Hc H'; first [discriminate H' | eexists; reflexivity
                             | destruct Hc as [c0 Hc]; discriminate Hc]).
Qed.

Lemma X11_witness :
  IndexJs.construct Sample.config = Ok (without_notify Sample.bot, fresh).
Proof.
  apply (proj1 (X11_constructors_agree Sample.config) Sample.bot fresh).
  reflexivity.
Defined.

(* ----------------------------------------------------------------- *)
(** *** The push packet of a malformed [push_packet_hex] *)

Lemma string_pairs_ind (P : string -> Prop) :
  P EmptyString ->
  (forall a, P (String a EmptyString)) ->
  (forall a b s, P s -> P (String a (String b s))) ->
  forall s, P s.
Proof.
  intros H0 H1 H2.
  fix IH 1. intros [|a [|b s]]; [exact H0|apply H1|apply H2; apply IH].
Qed.

Lemma hex_digit_has_value c :
  is_hex_digit c = true -> exists v, Hex.digit_val c = Some v.
Proof.
  unfold is_hex_digit, Hex.digit_val.
  destruct (Text.is_digit c), (Text.is_lower_af c), (Text.is_upper_af c);
    cbn; intros H; try discriminate H; eauto.
Qed.

(** X12. The constructor never rejects a [push_packet_hex] text: the
    packet is decoded two digits per byte and silently cut at the first
    pair that is not two hexadecimal digits, or at a trailing single
    character; the well-formed prefix gives one byte per two digits. *)
Theorem X12_push_packet_is_cut_at_first_bad_pair
        (valid rest : string) (a b : ascii) :
  all_chars is_hex_digit valid = true ->
  Nat.even (String.length valid) = true ->
  Hex.digit_val a = None \/ Hex.digit_val b = None ->
  Common.buffer_from_hex (Some (String.append valid (String a (String b rest))))
  = Ok (Hex.decode valid) /\
  Common.buffer_from_hex (Some (String.append valid (String a EmptyString)))
  = Ok (Hex.decode valid) /\
  2 * List.length (Hex.decode valid) = String.length valid.
Proof.
  unfold Common.buffer_from_hex. intros Hv He Hbad.
  revert Hv He. induction valid as [|x|x y s IH] using string_pairs_ind;
    intros Hv He.
  - cbn. destruct Hbad as [-> | Hb].
    + repeat split.
    + rewrite Hb. destruct (Hex.digit_val a); repeat split.
  - discriminate He.
  - cbn [all_chars] in Hv. apply andb_prop in Hv. destruct Hv as [Hx Hv].
    apply andb_prop in Hv. destruct Hv as [Hy Hv].
    destruct (hex_digit_has_value _ Hx) as [vx Ex].
    destruct (hex_digit_has_value _ Hy) as [vy Ey].
    destruct (IH Hv He) as (H1 & H2 & H3).
    cbn [String.append Hex.decode]. rewrite Ex, Ey.
    inversion H1 as [K1]. inversion H2 as [K2].
    rewrite K1, K2. repeat split. cbn [List.length String.length]. lia.
Qed.

Lemma X12_witness :
  Common.buffer_from_hex (Some (String.append "0102" (String "g" (String "1" "0f"))))
  = Ok (Hex.decode "0102") /\
  Common.buffer_from_hex (Some (String.append "0102" (String "g" EmptyString)))
  = Ok (Hex.decode "0102") /\
  2 * List.length (Hex.decode "0102") = String.length "0102".
Proof.
  apply (@X12_push_packet_is_cut_at_first_bad_pair "0102" "0f" "g" "1");
    [reflexivity|reflexivity|left; reflexivity].
Defined.

(* ----------------------------------------------------------------- *)
(** *** Invariants of the event loop *)

Lemma preserves_refl (I : State -> Prop) s : preserves I s s.
Proof. intros H; exact H. Qed.

Lemma preserves_trans (I : State -> Prop) a b c :
  preserves I a b -> preserves I b c -> preserves I a c.
Proof. unfold preserves. auto. Qed.

Section EventLoopInvariant.

(** An invariant [I] that every task keeps at each of its steps, whatever
    the other tasks do in between, holds in every state the event loop
    reaches. *)
Variable I : State -> Prop.
Variable handleSetOn : bool -> Prog unit.
Variable on_disconnect : State -> State.
Variable init : Prog unit.

Hypothesis I_fresh : I fresh.
Hypothesis I_init : safe (preserves I) anything init.
Hypothesis I_handler : forall value, safe (preserves I) anything (handleSetOn value).
Hypothesis I_tick : safe (preserves I) anything heartbeat_tick.
Hypothesis I_listener : forall s, I s -> I (on_disconnect s).
Hypothesis I_listeners : forall l s, I s -> I (set_listeners l s).
Hypothesis I_fire :
  forall i ms cb s,
    nth_error (timeouts s) i = Some (ms, cb) ->
    I s -> I (fire cb (set_timeouts (drop_nth i (timeouts s)) s)).

Lemma task_resume p s s' p'
      (f : Prog unit -> State -> option (State * Prog unit)) :
  (f = wake \/ exists r, f = settle r) ->
  task_preserves I p -> f p s = Some (s', p') ->
  preserves I s s' /\ task_preserves I p'.
Proof.
  intros Hf [s0 Hp] Hs.
  destruct Hf as [->|[r ->]]; destruct p as [a|e|k|s1 k|c k|ms k];
    try discriminate Hs; cbn [settle wake] in Hs; inversion Hs as [Hadv]; clear Hs;
    cbn [wp] in Hp.
  - destruct (Hp s Logic.I) as [Hg Hw].
    destruct (@wp_advance (preserves I) anything unit (preserves I) k _ _ s _
                (@preserves_trans I) Hg Hw) as [H1 H2].
    rewrite Hadv in H1, H2. cbn [fst snd] in H1, H2.
    split; [exact H1|]. eexists; exact H2.
  - destruct (Hp r s Logic.I) as [Hg Hw].
    destruct (@wp_advance (preserves I) anything unit (preserves I) (k r) _ _ s _
                (@preserves_trans I) Hg Hw) as [H1 H2].
    rewrite Hadv in H1, H2. cbn [fst snd] in H1, H2.
    split; [exact H1|]. eexists; exact H2.
Qed.

Lemma task_spawn p sys :
  safe (preserves I) anything p ->
  I (shared sys) -> Forall (task_preserves I) (tasks sys) ->
  I (shared (spawn p sys)) /\ Forall (task_preserves I) (tasks (spawn p sys)).
Proof.
  intros Hp HI Ht. unfold spawn.
  destruct (@wp_advance (preserves I) anything unit (preserves I) p _ _
              (shared sys) (shared sys) (@preserves_trans I)
              (@preserves_refl I _) (Hp (shared sys))) as [H1 H2].
  destruct (advance p (shared sys)) as [s' p']. cbn [fst snd shared tasks] in *.
  split; [exact (H1 HI)|].
  apply Forall_app. split; [exact Ht|]. constructor; [|constructor].
  eexists; exact H2.
Qed.

Lemma emit_disconnect_invariant d s : I s -> I (emit_disconnect on_disconnect d s).
Proof.
  intros HI. unfold emit_disconnect.
  generalize (I_listeners (List.filter (fun x => negb (Nat.eqb x d)) (listeners s)) HI).
  generalize (set_listeners (List.filter (fun x => negb (Nat.eqb x d)) (listeners s)) s).
  induction (listeners s) as [|x l IH]; intros s0 H0; cbn [fold_left].
  - exact H0.
  - apply IH. destruct (Nat.eqb x d); [apply I_listener|]; exact H0.
Qed.

Lemma step_invariant a sys sys' :
  I (shared sys) -> Forall (task_preserves I) (tasks sys) ->
  step handleSetOn on_disconnect a sys = Some sys' ->
  I (shared sys') /\ Forall (task_preserves I) (tasks sys').
Proof.
  intros HI Ht Hs.
  destruct a as [i r|i|d|i|id|value]; cbn [step] in Hs.
  - unfold resume in Hs.
    destruct (nth_error (tasks sys) i) as [p|] eqn:Hn; [|discriminate Hs].
    destruct (settle r p (shared sys)) as [[s' p']|] eqn:Hf; [|discriminate Hs].
    inversion Hs; subst sys'; clear Hs. cbn [shared tasks].
    destruct (@task_resume p _ _ _ (settle r) (or_intror (ex_intro _ r eq_refl))
                (Forall_nth_error _ Ht Hn) Hf) as [H1 H2].
    split; [exact (H1 HI)|]. apply Forall_update; assumption.
  - unfold resume in Hs.
    destruct (nth_error (tasks sys) i) as [p|] eqn:Hn; [|discriminate Hs].
    destruct (wake p (shared sys)) as [[s' p']|] eqn:Hf; [|discriminate Hs].
    inversion Hs; subst sys'; clear Hs. cbn [shared tasks].
    destruct (@task_resume p _ _ _ wake (or_introl eq_refl)
                (Forall_nth_error _ Ht Hn) Hf) as [H1 H2].
    split; [exact (H1 HI)|]. apply Forall_update; assumption.
  - inversion Hs; subst sys'; clear Hs. cbn [shared tasks].
    split; [apply emit_disconnect_invariant; exact HI|exact Ht].
  - destruct (nth_error (timeouts (shared sys)) i) as [[ms cb]|] eqn:Hn;
      [|discriminate Hs].
    inversion Hs; subst sys'; clear Hs. cbn [shared tasks].
    split; [exact (I_fire _ Hn HI)|exact Ht].
  - destruct (existsb (Nat.eqb id) (intervals (shared sys))); [|discriminate Hs].
    inversion Hs; subst sys'; clear Hs. apply task_spawn; assumption.
  - inversion Hs; subst sys'; clear Hs. apply task_spawn; auto.
Qed.

Lemma run_invariant acts sys :
  run handleSetOn on_disconnect acts (boot init) = Some sys -> I (shared sys).
Proof.
  assert (Hb : I (shared (boot init)) /\ Forall (task_preserves I) (tasks (boot init))).
  { unfold boot. apply task_spawn; [exact I_init|exact I_fresh|constructor]. }
  revert Hb. generalize (boot init). intros sys0. revert sys0.
  induction acts as [|a acts IH]; intros sys0 [H1 H2] Hr; cbn [run] in Hr.
  - inversion Hr; subst; exact H1.
  - destruct (step handleSetOn on_disconnect a sys0) as [sys1|] eqn:Hs;
      [|discriminate Hr].
    apply (IH sys1); [|exact Hr]. exact (@step_invariant a sys0 sys1 H1 H2 Hs).
Qed.

End EventLoopInvariant.

(* ----------------------------------------------------------------- *)
(** *** What the tasks of a controller change *)

Ltac keep_auto := repeat first [ assumption | safe_step ltac:(solve [auto]) ].

Section TasksKeep.

(** The changes the code of the two files makes to the state, one
    hypothesis per kind of statement; a guarantee that admits them is kept
    by every task. *)
Variable G : State -> State -> Prop.
Variable R : State -> State -> Prop.
Variable this : Accessory.
Variable type : WriteType.

Hypothesis G_log : forall l m s, G s (record (Logged l m) s).
Hypothesis G_sleep : forall ms s, G s (record (Slept ms) s).
Hypothesis G_call :
  forall c r s, is_write (Called c r) = false -> G s (record (Called c r) s).
Hypothesis G_write :
  forall h r s, G s (record (Called (WriteValue h (pushCommand this) type) r) s).
Hypothesis G_connected : forall b s, G s (set_isConnected b s).
Hypothesis G_writeChar : forall h s, G s (set_writeChar h s).
Hypothesis G_notifyChar : forall h s, G s (set_notifyChar h s).
Hypothesis G_device : forall d s, G s (set_device d s).
Hypothesis G_switch : forall s, G s (set_isSwitchOn true s).
Hypothesis G_listener :
  forall d s, G s (record (ListenerAdded d) (set_listeners (listeners s ++ [d]) s)).
Hypothesis G_host_off :
  forall s, G s (record (TimeoutSet 500 HostOff)
                        (set_timeouts (timeouts s ++ [(500%Z, HostOff)]) s)).
Hypothesis G_auto_off :
  forall s, G s (record (TimeoutSet CONFIG.AUTO_OFF_MS AutoOff)
                        (set_timeouts (timeouts s ++ [(CONFIG.AUTO_OFF_MS, AutoOff)]) s)).
Hypothesis G_clear : forall s, G s (clear_heartbeat s).
Hypothesis G_start : safe G R startHeartbeat.

Lemma write_loop_kept failed n i :
  safe G R (Common.write_loop this type failed n i).
Proof.
  revert i. induction n as [|n IH]; intros i; cbn [Common.write_loop].
  - apply safe_ret.
  - keep_auto. apply IH.
Qed.

Lemma IndexJs_connect_kept : safe G R (IndexJs.connectDevice this).
Proof. unfold IndexJs.connectDevice. keep_auto. Qed.

Lemma Part000_connect_kept : safe G R (Part000.connectDevice this).
Proof. unfold Part000.connectDevice. keep_auto. Qed.

Lemma scan_devices_kept connectDevice devices :
  safe G R connectDevice ->
  safe G R (Common.scan_devices this connectDevice devices).
Proof.
  intros Hc. induction devices as [|addr rest IH]; cbn [Common.scan_devices].
  - apply safe_ret.
  - destruct (Mac.matches addr (macAddress this)); [keep_auto|exact IH].
Qed.

Lemma scanning_loop_kept connectDevice delay turns :
  safe G R connectDevice ->
  safe G R (Common.scanning_loop this connectDevice delay turns).
Proof.
  intros Hc. induction turns as [|n IH]; cbn [Common.scanning_loop].
  - apply safe_ret.
  - unfold Common.scan_turn, Common.iterable. keep_auto.
    apply scan_devices_kept. exact Hc.
Qed.

Lemma init_ble_kept loop : safe G R loop -> safe G R (Common.init_ble loop).
Proof. intros Hl. unfold Common.init_ble. keep_auto. Qed.

Lemma heartbeat_tick_kept : safe G R heartbeat_tick.
Proof. keep_auto. Qed.

Hypothesis type_command : type = command.

Lemma IndexJs_handler_kept value : safe G R (IndexJs.handleSetOn this value).
Proof.
  unfold IndexJs.handleSetOn, IndexJs.write_loop. rewrite <- type_command.
  keep_auto. apply write_loop_kept.
Qed.

Lemma IndexJs_init_kept turns : safe G R (IndexJs.initNodeBle this turns).
Proof.
  apply init_ble_kept. apply scanning_loop_kept. apply IndexJs_connect_kept.
Qed.

End TasksKeep.

Section Part000TasksKeep.

Variable G : State -> State -> Prop.
Variable R : State -> State -> Prop.
Variable this : Accessory.

Hypothesis G_log : forall l m s, G s (record (Logged l m) s).
Hypothesis G_sleep : forall ms s, G s (record (Slept ms) s).
Hypothesis G_call :
  forall c r s, is_write (Called c r) = false -> G s (record (Called c r) s).
Hypothesis G_write :
  forall h r s, G s (record (Called (WriteValue h (pushCommand this) request) r) s).
Hypothesis G_connected : forall b s, G s (set_isConnected b s).
Hypothesis G_writeChar : forall h s, G s (set_writeChar h s).
Hypothesis G_notifyChar : forall h s, G s (set_notifyChar h s).
Hypothesis G_device : forall d s, G s (set_device d s).
Hypothesis G_switch : forall s, G s (set_isSwitchOn true s).
Hypothesis G_listener :
  forall d s, G s (record (ListenerAdded d) (set_listeners (listeners s ++ [d]) s)).
Hypothesis G_auto_off :
  forall s, G s (record (TimeoutSet CONFIG.AUTO_OFF_MS AutoOff)
                        (set_timeouts (timeouts s ++ [(CONFIG.AUTO_OFF_MS, AutoOff)]) s)).
Hypothesis G_clear : forall s, G s (clear_heartbeat s).
Hypothesis G_start : safe G R startHeartbeat.

Lemma Part000_handler_kept value : safe G R (Part000.handleSetOn this value).
Proof.
  unfold Part000.handleSetOn, Part000.push, Part000.write_loop. keep_auto.
  - apply Part000_connect_kept; assumption.
  - apply write_loop_kept; assumption.
Qed.

Lemma Part000_init_kept turns : safe G R (Part000.initNodeBle this turns).
Proof.
  apply init_ble_kept; try assumption.
  apply scanning_loop_kept; try assumption.
  apply Part000_connect_kept; assumption.
Qed.

End Part000TasksKeep.

(* ----------------------------------------------------------------- *)
(** *** What the event loop can put on the trace *)

Lemma startHeartbeat_kept (G R : State -> State -> Prop) :
  (forall s, G s (clear_heartbeat s)) -> (forall s, G s (set_interval s)) ->
  safe G R startHeartbeat.
Proof. intros H1 H2 s. cbn. auto. Qed.

Lemma emits_only_record this type e s :
  emitted this type e -> emits_only this type s -> emits_only this type (record e s).
Proof.
  intros He Hs. unfold emits_only. cbn [trace record].
  apply Forall_app. split; [exact Hs|]. constructor; [exact He|constructor].
Qed.

Lemma emits_only_same this type s s' :
  trace s' = trace s -> emits_only this type s -> emits_only this type s'.
Proof. unfold emits_only. intros ->. auto. Qed.

Lemma emits_only_clear this type s :
  emits_only this type s -> emits_only this type (clear_heartbeat s).
Proof.
  unfold clear_heartbeat. destruct (heartbeatTimer s); [|auto].
  intros H. unfold emits_only. cbn [trace clear_interval].
  apply Forall_app. split; [exact H|]. repeat constructor.
Qed.

Lemma emits_only_interval this type s :
  emits_only this type s -> emits_only this type (set_interval s).
Proof.
  intros H. unfold emits_only. cbn [trace set_interval].
  apply Forall_app. split; [exact H|]. repeat constructor.
Qed.

Lemma emits_only_fire this type cb s :
  emits_only this type s -> emits_only this type (fire cb s).
Proof.
  intros H. destruct cb; cbn [fire]; apply emits_only_record; try reflexivity.
  - exact H.
  - apply (emits_only_same (s:=s)); [reflexivity|exact H].
Qed.

Lemma emits_only_lost this type s :
  emits_only this type s ->
  emits_only this type
    (set_writeChar None (set_isConnected false (record (Logged warn ConnectionLost) s))).
Proof.
  intros H.
  apply (emits_only_same (s := record (Logged warn ConnectionLost) s));
    [reflexivity|].
  apply emits_only_record; [exact Logic.I|exact H].
Qed.

Ltac emits_side :=
  unfold preserves; intros;
  first [ apply emits_only_clear; assumption
        | apply emits_only_interval; assumption
        | apply emits_only_record;
          [ first [ exact Logic.I | split; reflexivity | reflexivity
                  | left; reflexivity | right; reflexivity
                  | match goal with
                    | H : is_write (Called ?c _) = false |- _ =>
                        destruct c; first [exact Logic.I | discriminate H]
                    end ]
          | first [ assumption
                  | eapply emits_only_same; [|eassumption]; reflexivity ] ]
        | eapply emits_only_same; [|eassumption]; reflexivity ].

(** X13. Whatever the interleaving of the scanning loop, the activations,
    the replies of the adapter, the timers, the heartbeat ticks and the
    disconnect events, every write either file has issued carried the
    configured push packet with the file's own write type (['command'] in
    index.js, ['request'] in part_000), the host was only ever told that
    the switch is off, and the only timeouts set were the 500 ms host
    reset and the 1500 ms auto-off. *)
Theorem X13_only_configured_writes_and_off_updates
        (this : Accessory) (type : WriteType)
        (handleSetOn : bool -> Prog unit) (on_disconnect : State -> State)
        (init : Prog unit) (turns : nat) (acts : list Action) (sys : System) :
  In (type, handleSetOn, on_disconnect, init)
     [(command, IndexJs.handleSetOn this, IndexJs.on_disconnect,
       IndexJs.initNodeBle this turns);
      (request, Part000.handleSetOn this, Part000.on_disconnect,
       Part000.initNodeBle this turns)] ->
  run handleSetOn on_disconnect acts (boot init) = Some sys ->
  emits_only this type (shared sys).
Proof.
  intros Hv. destruct Hv as [Hv|[Hv|[]]]; inversion Hv; subst; clear Hv.
  - apply run_invariant.
    + constructor.
    + apply IndexJs_init_kept; emits_side.
    + intros value. apply IndexJs_handler_kept with (type := command);
        first [reflexivity | emits_side].
    + apply heartbeat_tick_kept; emits_side.
    + intros s H. apply emits_only_lost. exact H.
    + intros l s H. emits_side.
    + intros i ms cb s _ H. apply emits_only_fire. emits_side.
  - apply run_invariant.
    + constructor.
    + apply Part000_init_kept; try solve [emits_side].
      apply startHeartbeat_kept; emits_side.
    + intros value. apply Part000_handler_kept; try solve [emits_side].
      apply startHeartbeat_kept; emits_side.
    + apply heartbeat_tick_kept; emits_side.
    + intros s H. unfold Part000.on_disconnect. apply emits_only_clear.
      apply emits_only_lost. exact H.
    + intros l s H. emits_side.
    + intros i ms cb s _ H. apply emits_only_fire. emits_side.
Qed.

Lemma X13_witness :
  exists sys,
    run (Part000.handleSetOn Sample.bot) Part000.on_disconnect
        Schedule.part000_session
        (boot (Part000.initNodeBle Sample.bot 1)) = Some sys /\
    emits_only Sample.bot request (shared sys).
Proof.
  eexists. split; [vm_compute; reflexivity|].
  apply (@X13_only_configured_writes_and_off_updates
           Sample.bot request (Part000.handleSetOn Sample.bot)
           Part000.on_disconnect (Part000.initNodeBle Sample.bot 1) 1
           Schedule.part000_session).
  - right. left. reflexivity.
  - vm_compute. reflexivity.
Defined.

(* ----------------------------------------------------------------- *)
(** *** The heartbeat interval *)

Lemma one_heartbeat_same s s' :
  intervals s' = intervals s -> heartbeatTimer s' = heartbeatTimer s ->
  one_heartbeat s -> one_heartbeat s'.
Proof. unfold one_heartbeat. intros -> ->. auto. Qed.

Lemma one_heartbeat_clear s :
  one_heartbeat s -> intervals (clear_heartbeat s) = [].
Proof.
  unfold clear_heartbeat. intros [H|(id & H1 & H2)].
  - destruct (heartbeatTimer s); cbn; rewrite H; reflexivity.
  - rewrite H1. cbn. rewrite H2. cbn. rewrite Nat.eqb_refl. reflexivity.
Qed.

Lemma clear_heartbeat_timer s : heartbeatTimer (clear_heartbeat s) = heartbeatTimer s.
Proof.
  unfold clear_heartbeat. destruct (heartbeatTimer s) eqn:H; [exact H|exact H].
Qed.

Lemma cleared_twice s :
  one_heartbeat (clear_heartbeat s) -> intervals (clear_heartbeat s) = [].
Proof.
  intros [H|(id & H1 & H2)]; [exact H|].
  rewrite clear_heartbeat_timer in H1. revert H2. unfold clear_heartbeat.
  rewrite H1. cbn. intros H2.
  assert (Hin : In id (List.filter (fun i => negb (Nat.eqb i id)) (intervals s))).
  { rewrite H2. left. reflexivity. }
  apply filter_In in Hin. destruct Hin as [_ Hin].
  rewrite Nat.eqb_refl in Hin. discriminate Hin.
Qed.

Lemma one_heartbeat_start : safe (preserves one_heartbeat) anything startHeartbeat.
Proof.
  intros s. cbn. split; [|split; [|exact Logic.I]].
  - intros H. left. apply one_heartbeat_clear. exact H.
  - intros H. right. exists (nextTimer (clear_heartbeat s)).
    split; [reflexivity|]. cbn. rewrite (@cleared_twice s H). reflexivity.
Qed.

Ltac heartbeat_side :=
  unfold preserves; intros;
  first [ left; apply one_heartbeat_clear; assumption
        | eapply one_heartbeat_same; [| |eassumption]; reflexivity ].

(** X14. part_000 never has two heartbeat intervals running: in every
    state the event loop reaches, whatever the interleaving (activations
    that overlap with each other, with the scanning loop's connect
    sequence and with disconnect events), the running intervals are none
    or exactly the one [this.heartbeatTimer] names, so a tick can only
    come from that one. *)
Theorem X14_at_most_one_heartbeat_interval
        (this : Accessory) (turns : nat) (acts : list Action) (sys : System) :
  run (Part000.handleSetOn this) Part000.on_disconnect acts
      (boot (Part000.initNodeBle this turns)) = Some sys ->
  one_heartbeat (shared sys) /\
  (forall id sys',
      step (Part000.handleSetOn this) Part000.on_disconnect (Tick id) sys
      = Some sys' ->
      heartbeatTimer (shared sys) = Some id).
Proof.
  intros Hr.
  assert (H1 : one_heartbeat (shared sys)).
  { revert Hr. apply run_invariant.
    - left. reflexivity.
    - apply Part000_init_kept; try solve [heartbeat_side].
      apply one_heartbeat_start.
    - intros value. apply Part000_handler_kept; try solve [heartbeat_side].
      apply one_heartbeat_start.
    - apply heartbeat_tick_kept; heartbeat_side.
    - intros s H. unfold Part000.on_disconnect. left. apply one_heartbeat_clear.
      revert H. apply one_heartbeat_same; reflexivity.
    - intros l s H. revert H. apply one_heartbeat_same; reflexivity.
    - intros i ms cb s _ H. revert H.
      apply one_heartbeat_same; destruct cb; reflexivity. }
  split; [exact H1|].
  intros id sys' Hs. cbn [step] in Hs.
  destruct H1 as [H|(id0 & Ht & Hi)]; rewrite ?H, ?Hi in Hs; cbn in Hs.
  - discriminate Hs.
  - destruct (Nat.eqb id id0) eqn:He; [|discriminate Hs].
    apply Nat.eqb_eq in He. subst id0. exact Ht.
Qed.

Lemma X14_witness :
  exists sys,
    run (Part000.handleSetOn Sample.bot) Part000.on_disconnect
        (firstn 24 Schedule.part000_session)
        (boot (Part000.initNodeBle Sample.bot 1)) = Some sys /\
    one_heartbeat (shared sys) /\
    intervals (shared sys) = [2] /\
    (forall id sys',
        step (Part000.handleSetOn Sample.bot) Part000.on_disconnect (Tick id) sys
        = Some sys' ->
        heartbeatTimer (shared sys) = Some id).
Proof.
  eexists. split; [vm_compute; reflexivity|].
  split; [|split; [reflexivity|]];
    apply (@X14_at_most_one_heartbeat_interval
             Sample.bot 1 (firstn 24 Schedule.part000_session));
    vm_compute; reflexivity.
Defined.

Ltac quiet_side :=
  unfold preserves; intros;
  match goal with H : no_heartbeat _ |- _ => exact H end.

(** X15. index.js has no heartbeat: in every state its event loop reaches
    no interval is running, [heartbeatTimer] and the notify characteristic
    are unset, and no tick can ever occur. *)
Theorem X15_index_js_has_no_heartbeat
        (this : Accessory) (turns : nat) (acts : list Action) (sys : System) :
  run (IndexJs.handleSetOn this) IndexJs.on_disconnect acts
      (boot (IndexJs.initNodeBle this turns)) = Some sys ->
  no_heartbeat (shared sys) /\
  (forall id,
      step (IndexJs.handleSetOn this) IndexJs.on_disconnect (Tick id) sys = None).
Proof.
  intros Hr.
  assert (H1 : no_heartbeat (shared sys)).
  { revert Hr. apply run_invariant.
    - repeat split.
    - apply IndexJs_init_kept; quiet_side.
    - intros value. apply IndexJs_handler_kept with (type := command);
        first [reflexivity | quiet_side].
    - apply heartbeat_tick_kept; quiet_side.
    - intros s H. exact H.
    - intros l s H. exact H.
    - intros i ms cb s _ H. destruct cb; exact H. }
  split; [exact H1|].
  intros id. cbn [step]. destruct H1 as [H _]. rewrite H. reflexivity.
Qed.

Lemma X15_witness :
  exists sys,
    run (IndexJs.handleSetOn Sample.bot) IndexJs.on_disconnect
        Schedule.index_js_session
        (boot (IndexJs.initNodeBle Sample.bot 1)) = Some sys /\
    no_heartbeat (shared sys) /\
    (forall id,
        step (IndexJs.handleSetOn Sample.bot) IndexJs.on_disconnect (Tick id) sys
        = None).
Proof.
  eexists. split; [vm_compute; reflexivity|].
  apply (@X15_index_js_has_no_heartbeat Sample.bot 1 Schedule.index_js_session).
  vm_compute. reflexivity.
Defined.

(* ----------------------------------------------------------------- *)
(** *** Properties of the states in which tasks rest *)

Section AtRestFacts.

Variable I : State -> Prop.

Lemma rests_mono {A : Type} (p : Prog A) (Q Q' : A -> State -> Prop)
      (E E' : Err -> State -> Prop) s :
  (forall a s', Q a s' -> Q' a s') ->
  (forall e s', E e s' -> E' e s') ->
  rests I p Q E s -> rests I p Q' E' s.
Proof.
  intros HQ HE. revert s.
  induction p as [a|e|k IH|s1 k IH|c k IH|ms k IH]; intros s; simpl; auto.
  - intros [H1 H2]. split; auto.
  - intros [H1 H2]. split; auto.
Qed.

Lemma rests_bind {A B : Type} (p : Prog A) (f : A -> Prog B)
      (Q : B -> State -> Prop) (E : Err -> State -> Prop) s :
  rests I p (fun a s' => rests I (f a) Q E s') E s ->
  rests I (bind p f) Q E s.
Proof.
  revert s.
  induction p as [a|e|k IH|s1 k IH|c k IH|ms k IH]; intros s; simpl; auto.
  - intros [H1 H2]. split; auto.
  - intros [H1 H2]. split; auto.
Qed.

Lemma rests_try_catch {A : Type} (p : Prog A) (h : Err -> Prog A)
      (Q : A -> State -> Prop) (E : Err -> State -> Prop) s :
  rests I p Q (fun e s' => rests I (h e) Q E s') s ->
  rests I (try_catch p h) Q E s.
Proof.
  revert s.
  induction p as [a|e|k IH|s1 k IH|c k IH|ms k IH]; intros s; simpl; auto.
  - intros [H1 H2]. split; auto.
  - intros [H1 H2]. split; auto.
Qed.

(** Run to its next suspension point, a task rests where [I] holds. *)
Lemma rests_advance (p : Prog unit) s :
  rests I p (fun _ => I) (fun _ => I) s ->
  I (fst (advance p s)) /\ task_rests I (snd (advance p s)).
Proof.
  revert s.
  induction p as [a|e|k IH|s1 k IH|c k IH|ms k IH]; intros s; simpl; auto.
Qed.

(** A task whose every step leaves alone what [I] reads keeps [I]. *)
Lemma wp_rests (G : State -> State -> Prop) {A : Type} (p : Prog A) s :
  (forall a b, G a b -> I a -> I b) ->
  wp G anything p (fun _ _ => True) (fun _ _ => True) s ->
  I s -> rests I p (fun _ => I) (fun _ => I) s.
Proof.
  intros HG. revert s.
  induction p as [a|e|k IH|s1 k IH|c k IH|ms k IH]; intros s; simpl; auto.
  - intros [H1 H2] Hi. eauto.
  - intros H Hi. split; [exact Hi|]. intros r s' Hi'.
    destruct (H r s' Logic.I) as [H1 H2]. eauto.
  - intros H Hi. split; [exact Hi|]. intros s' Hi'.
    destruct (H s' Logic.I) as [H1 H2]. eauto.
Qed.

Lemma safe_calm (G : State -> State -> Prop) {A : Type} (p : Prog A) :
  (forall a b, G a b -> I a -> I b) -> safe G anything p -> calm I p.
Proof. intros HG Hp s Hi. exact (@wp_rests G A p s HG (Hp s) Hi). Qed.

Variable handleSetOn : bool -> Prog unit.
Variable on_disconnect : State -> State.
Variable init : Prog unit.

Hypothesis I_fresh : I fresh.
Hypothesis I_init : calm I init.
Hypothesis I_handler : forall value, calm I (handleSetOn value).
Hypothesis I_tick : calm I heartbeat_tick.
Hypothesis I_listener : forall s, I s -> I (on_disconnect s).
Hypothesis I_listeners : forall l s, I s -> I (set_listeners l s).
Hypothesis I_fire :
  forall i ms cb s,
    nth_error (timeouts s) i = Some (ms, cb) ->
    I s -> I (fire cb (set_timeouts (drop_nth i (timeouts s)) s)).

Lemma rests_resume i f sys sys' :
  (f = wake \/ exists r, f = settle r) ->
  I (shared sys) -> Forall (task_rests I) (tasks sys) ->
  resume i f sys = Some sys' ->
  I (shared sys') /\ Forall (task_rests I) (tasks sys').
Proof.
  intros Hf HI Ht Hs. unfold resume in Hs.
  destruct (nth_error (tasks sys) i) as [p|] eqn:Hn; [|discriminate Hs].
  pose proof (Forall_nth_error _ Ht Hn) as Hp.
  assert (Hadv : exists q s1, f p (shared sys) = Some (advance q s1) /\
                              rests I q (fun _ => I) (fun _ => I) s1).
  { destruct Hf as [->|[r ->]]; destruct p as [a|e|k|s1 k|c k|ms k];
      try discriminate Hs; cbn [settle wake task_rests] in *.
    - exists k, (record (Slept ms) (shared sys)). split; [reflexivity|auto].
    - exists (k r), (record (Called c r) (shared sys)). split; [reflexivity|auto]. }
  destruct Hadv as (q & s1 & Hq & Hr). rewrite Hq in Hs.
  destruct (rests_advance q s1 Hr) as [H1 H2].
  destruct (advance q s1) as [s' p']. inversion Hs; subst sys'; clear Hs.
  cbn [shared tasks fst snd] in *. split; [exact H1|].
  apply Forall_update; assumption.
Qed.

Lemma rests_spawn p sys :
  calm I p ->
  I (shared sys) -> Forall (task_rests I) (tasks sys) ->
  I (shared (spawn p sys)) /\ Forall (task_rests I) (tasks (spawn p sys)).
Proof.
  intros Hp HI Ht. unfold spawn.
  destruct (rests_advance p (shared sys) (Hp _ HI)) as [H1 H2].
  destruct (advance p (shared sys)) as [s' p']. cbn [fst snd shared tasks] in *.
  split; [exact H1|].
  apply Forall_app. split; [exact Ht|]. constructor; [exact H2|constructor].
Qed.

Lemma rests_step a sys sys' :
  I (shared sys) -> Forall (task_rests I) (tasks sys) ->
  step handleSetOn on_disconnect a sys = Some sys' ->
  I (shared sys') /\ Forall (task_rests I) (tasks sys').
Proof.
  intros HI Ht Hs.
  destruct a as [i r|i|d|i|id|value]; cbn [step] in Hs.
  - apply (@rests_resume i (settle r) sys sys'); eauto.
  - apply (@rests_resume i wake sys sys'); eauto.
  - inversion Hs; subst sys'; clear Hs. cbn [shared tasks].
    split; [|exact Ht].
    apply (@emit_disconnect_invariant I on_disconnect); assumption.
  - destruct (nth_error (timeouts (shared sys)) i) as [[ms cb]|] eqn:Hn;
      [|discriminate Hs].
    inversion Hs; subst sys'; clear Hs. cbn [shared tasks].
    split; [exact (I_fire _ Hn HI)|exact Ht].
  - destruct (existsb (Nat.eqb id) (intervals (shared sys))); [|discriminate Hs].
    inversion Hs; subst sys'; clear Hs. apply rests_spawn; assumption.
  - inversion Hs; subst sys'; clear Hs. apply rests_spawn; auto.
Qed.

(** A property every task keeps at its suspension points holds in every
    state the event loop reaches. *)
Lemma rests_run acts sys :
  run handleSetOn on_disconnect acts (boot init) = Some sys -> I (shared sys).
Proof.
  assert (Hb : I (shared (boot init)) /\ Forall (task_rests I) (tasks (boot init))).
  { unfold boot. apply rests_spawn; [exact I_init|exact I_fresh|constructor]. }
  revert Hb. generalize (boot init). intros sys0. revert sys0.
  induction acts as [|a acts IH]; intros sys0 [H1 H2] Hr; cbn [run] in Hr.
  - inversion Hr; subst; exact H1.
  - destruct (step handleSetOn on_disconnect a sys0) as [sys1|] eqn:Hs;
      [|discriminate Hr].
    apply (IH sys1); [|exact Hr]. exact (@rests_step a sys0 sys1 H1 H2 Hs).
Qed.

End AtRestFacts.

(* ----------------------------------------------------------------- *)
(** *** The switch and its auto-off *)

Lemma keeps_switch_off_pending a b :
  keeps_switch a b -> off_pending a -> off_pending b.
Proof. intros [H1 H2] H. unfold off_pending. rewrite H1, H2. exact H. Qed.

Lemma keeps_switch_clear s : keeps_switch s (clear_heartbeat s).
Proof. unfold clear_heartbeat. destruct (heartbeatTimer s); split; reflexivity. Qed.

Ltac switch_side := intros; first [apply keeps_switch_clear | split; reflexivity].

Lemma write_loop_calm this type failed n i :
  calm off_pending (Common.write_loop this type failed n i).
Proof.
  apply safe_calm with (G := keeps_switch); [exact keeps_switch_off_pending|].
  apply write_loop_kept; switch_side.
Qed.

Lemma off_pending_scheduled s :
  off_pending (record (TimeoutSet CONFIG.AUTO_OFF_MS AutoOff)
                 (set_timeouts (timeouts s ++ [(CONFIG.AUTO_OFF_MS, AutoOff)]) s)).
Proof. intros _. cbn. apply in_or_app. right. left. reflexivity. Qed.

Lemma IndexJs_handler_calm this value :
  calm off_pending (IndexJs.handleSetOn this value).
Proof.
  intros s Hi. unfold IndexJs.handleSetOn. destruct value; [|exact Hi].
  apply rests_bind. cbn [get rests]. destruct (not_ready s).
  - unfold log, setTimeout, modify. cbn [bind rests].
    intros Hs. cbn. apply in_or_app. left. exact (Hi Hs).
  - apply rests_bind. unfold log at 1. unfold modify. cbn [rests].
    apply rests_bind.
    apply (@rests_mono off_pending unit _ (fun _ _ => True) _ (fun _ _ => False)).
    + intros _ s' _. unfold setTimeout, modify. cbn [rests].
      apply off_pending_scheduled.
    + intros e s' [].
    + apply rests_try_catch.
      apply (@rests_mono off_pending unit _ (fun _ _ => True) _ (fun _ _ => True)).
      * auto.
      * intros e s' _. exact Logic.I.
      * apply rests_bind.
        apply (@rests_mono off_pending bool _ (fun _ => off_pending) _
                           (fun _ => off_pending)).
        -- intros [|] s' _; exact Logic.I.
        -- auto.
        -- apply write_loop_calm. exact Hi.
Qed.

Lemma Part000_connect_calm this : calm off_pending (Part000.connectDevice this).
Proof.
  apply safe_calm with (G := keeps_switch); [exact keeps_switch_off_pending|].
  apply Part000_connect_kept; try solve [switch_side].
  apply startHeartbeat_kept; switch_side.
Qed.

Lemma Part000_handler_calm this value :
  calm off_pending (Part000.handleSetOn this value).
Proof.
  intros s Hi. unfold Part000.handleSetOn. destruct value; [|exact Hi].
  cbn [negb]. apply rests_bind.
  apply (@rests_mono off_pending unit _ (fun _ _ => True) _ (fun _ _ => False)).
  - intros _ s' _. unfold setTimeout, modify. cbn [rests].
    apply off_pending_scheduled.
  - intros e s' [].
  - apply rests_try_catch.
    apply (@rests_mono off_pending unit _ (fun _ _ => True) _ (fun _ _ => True)).
    + auto.
    + intros e s' _. exact Logic.I.
    + apply rests_bind. cbn [get rests]. apply rests_bind.
      apply (@rests_mono off_pending unit _ (fun _ => off_pending) _
                         (fun _ _ => True)); [| auto |].
      * intros _ s1 H1. unfold Part000.push. apply rests_bind.
        unfold modify at 1. cbn [rests]. apply rests_bind.
        unfold log at 1. unfold modify at 1. cbn [rests]. apply rests_bind.
        unfold sleep. cbn [rests]. split.
        { refine (keeps_switch_off_pending _ H1).
          destruct (keeps_switch_clear s1) as [Hw Ht]. split; assumption. }
        intros s2 H2. apply rests_bind.
        apply (@rests_mono off_pending bool _ (fun _ => off_pending) _
                           (fun _ => off_pending)); [| auto |].
        -- intros [|] s3 _; exact Logic.I.
        -- unfold Part000.write_loop. apply write_loop_calm.
           refine (keeps_switch_off_pending _ H2). split; reflexivity.
      * destruct (not_ready s).
        -- apply rests_bind. unfold log at 1. unfold modify. cbn [rests].
           apply (@rests_mono off_pending unit _ (fun _ => off_pending) _
                              (fun _ => off_pending)); [auto|auto|].
           apply Part000_connect_calm.
           refine (keeps_switch_off_pending _ Hi). split; reflexivity.
        -- exact Hi.
Qed.

Lemma In_drop_nth {A : Type} (x y : A) i l :
  nth_error l i = Some y -> x <> y -> In x l -> In x (drop_nth i l).
Proof.
  revert i. induction l as [|z l IH]; intros i Hn Hxy Hin; [destruct Hin|].
  destruct i as [|i]; cbn in *.
  - inversion Hn; subst. destruct Hin as [->|Hin]; [contradiction Hxy; reflexivity|exact Hin].
  - destruct Hin as [->|Hin]; [left; reflexivity|right; apply IH; assumption].
Qed.

Lemma off_pending_fire i ms cb s :
  nth_error (timeouts s) i = Some (ms, cb) ->
  off_pending s ->
  off_pending (fire cb (set_timeouts (drop_nth i (timeouts s)) s)).
Proof.
  intros Hn Hi. destruct cb; cbn [fire]; intros Hs; cbn in Hs.
  - cbn. apply (@In_drop_nth _ _ _ _ _ Hn); [discriminate|exact (Hi Hs)].
  - discriminate Hs.
Qed.

(** X16. Whenever the switch reads on, the timeout that turns it off is
    pending: this holds in every state the event loop of either file
    reaches, whatever the interleaving, since no suspension point lies
    between [this.isSwitchOn = true] and the [setTimeout] that follows it.
    When that timeout fires the switch reads off again and the host is
    told so. *)
Theorem X16_switch_on_has_pending_auto_off
        (this : Accessory) (handleSetOn : bool -> Prog unit)
        (on_disconnect : State -> State) (init : Prog unit)
        (turns : nat) (acts : list Action) (sys : System) :
  In (handleSetOn, on_disconnect, init)
     [(IndexJs.handleSetOn this, IndexJs.on_disconnect,
       IndexJs.initNodeBle this turns);
      (Part000.handleSetOn this, Part000.on_disconnect,
       Part000.initNodeBle this turns)] ->
  run handleSetOn on_disconnect acts (boot init) = Some sys ->
  off_pending (shared sys) /\
  (forall i,
      nth_error (timeouts (shared sys)) i = Some (CONFIG.AUTO_OFF_MS, AutoOff) ->
      exists sys',
        step handleSetOn on_disconnect (Fire i) sys = Some sys' /\
        isSwitchOn (shared sys') = false /\
        new_events (shared sys) (shared sys') = [HostUpdate false]).
Proof.
  intros Hv Hr. split.
  - revert Hr.
    destruct Hv as [Hv|[Hv|[]]]; inversion Hv; subst; clear Hv.
    + apply rests_run.
      * intros H. discriminate H.
      * apply safe_calm with (G := keeps_switch); [exact keeps_switch_off_pending|].
        apply IndexJs_init_kept; switch_side.
      * apply IndexJs_handler_calm.
      * apply safe_calm with (G := keeps_switch); [exact keeps_switch_off_pending|].
        apply heartbeat_tick_kept; switch_side.
      * intros s. apply keeps_switch_off_pending. split; reflexivity.
      * intros l s. apply keeps_switch_off_pending. split; reflexivity.
      * apply off_pending_fire.
    + apply rests_run.
      * intros H. discriminate H.
      * apply safe_calm with (G := keeps_switch); [exact keeps_switch_off_pending|].
        apply Part000_init_kept; try solve [switch_side].
        apply startHeartbeat_kept; switch_side.
      * apply Part000_handler_calm.
      * apply safe_calm with (G := keeps_switch); [exact keeps_switch_off_pending|].
        apply heartbeat_tick_kept; switch_side.
      * intros s. apply keeps_switch_off_pending. unfold Part000.on_disconnect.
        destruct (keeps_switch_clear
                    (set_writeChar None (set_isConnected false
                       (record (Logged warn ConnectionLost) s)))) as [H1 H2].
        split; [rewrite H1|rewrite H2]; reflexivity.
      * intros l s. apply keeps_switch_off_pending. split; reflexivity.
      * apply off_pending_fire.
  - intros i Hn. cbn [step]. rewrite Hn. eexists. split; [reflexivity|].
    split; [reflexivity|]. apply new_events_app. reflexivity.
Qed.

Lemma X16_witness :
  exists sys,
    run (IndexJs.handleSetOn Sample.bot) IndexJs.on_disconnect
        (firstn 17 Schedule.index_js_session)
        (boot (IndexJs.initNodeBle Sample.bot 1)) = Some sys /\
    isSwitchOn (shared sys) = true /\
    off_pending (shared sys) /\
    (forall i,
        nth_error (timeouts (shared sys)) i = Some (CONFIG.AUTO_OFF_MS, AutoOff) ->
        exists sys',
          step (IndexJs.handleSetOn Sample.bot) IndexJs.on_disconnect (Fire i) sys
          = Some sys' /\
          isSwitchOn (shared sys') = false /\
          new_events (shared sys) (shared sys') = [HostUpdate false]).
Proof.
  eexists. split; [vm_compute; reflexivity|]. split; [reflexivity|].
  apply (@X16_switch_on_has_pending_auto_off
           Sample.bot (IndexJs.handleSetOn Sample.bot) IndexJs.on_disconnect
           (IndexJs.initNodeBle Sample.bot 1) 1
           (firstn 17 Schedule.index_js_session)).
  - left. reflexivity.
  - vm_compute. reflexivity.
Defined.
